(** * arc kernel: interrupt routing and the kernel heap

    A shallow embedding of two translation units of the arc kernel,

    - the interrupt router ([intr_dispatch], [intr_route_intr],
      [intr_route_irq], [intr_unroute_irq], ...), and
    - the kernel heap ([find_node], [_heap_free], [_heap_alloc], ...),

    followed by the properties the specification states about them.

    The kernel is modelled on one CPU, one call at a time: the reader/writer
    lock, the spinlock and the interrupt mask guard bracket every public
    entry point and do not change what a single call computes, so they are
    left out of the embedding. *)

From Stdlib Require Import ZArith Lia String.
From stdpp Require Import base option list gmap.

Local Open Scope Z_scope.

(** ** Outcomes of kernel code

    A call runs on a machine state [S] and either returns a value, stops in
    [panic] (which never returns), touches memory that holds no object of
    the expected type, or exhausts the fuel of a pointer walk.  Every
    outcome keeps the machine state it was reached in. *)

Inductive outcome (S A : Type) : Type :=
  | Done (a : A) (s : S)
  | Panic (fmt : string) (arg : Z) (s : S)
  | Fault (s : S)
  | Timeout (s : S).

Arguments Done {S A} a s.
Arguments Panic {S A} fmt arg s.
Arguments Fault {S A} s.
Arguments Timeout {S A} s.

Definition final {S A : Type} (o : outcome S A) : S :=
  match o with
  | Done _ s => s
  | Panic _ _ s => s
  | Fault s => s
  | Timeout s => s
  end.

Definition kernel (S A : Type) : Type := S → outcome S A.

#[global] Instance kernel_ret {S} : MRet (kernel S) :=
  λ A a s, Done a s.

#[global] Instance kernel_bind {S} : MBind (kernel S) :=
  λ A B f m s,
    match m s with
    | Done a s' => f a s'
    | Panic fmt arg s' => Panic fmt arg s'
    | Fault s' => Fault s'
    | Timeout s' => Timeout s'
    end.

Definition panic {S A : Type} (fmt : string) (arg : Z) : kernel S A :=
  λ s, Panic fmt arg s.

Definition fault {S A : Type} : kernel S A := λ s, Fault s.

Definition timeout {S A : Type} : kernel S A := λ s, Timeout s.

Definition gets {S A : Type} (f : S → A) : kernel S A := λ s, Done (f s) s.

Definition modify {S : Type} (f : S → S) : kernel S unit := λ s, Done tt (f s).

(** ** Interrupt routing (arc/intr/route.c) *)

(** The constants of <arc/intr/common.h>, and the width in bits of the
    unsigned type [irq_t] it declares.  The header is not among the
    sources, so they are parameters of the development; the instance
    [x86_64_intr] below carries the values the specification quotes
    (IRQ0 = 0x20, IRQS = 224) and the 32 bits of an interrupt number in
    the ACPI tables. *)
Class intr_consts : Type := {
  INTERRUPTS : Z;
  FAULT31 : Z;
  IRQ0 : Z;
  IRQS : Z;
  SPURIOUS : Z;
  irq_t_bits : Z
}.

Definition x86_64_intr : intr_consts :=
  {| INTERRUPTS := 256; FAULT31 := 31; IRQ0 := 32; IRQS := 224;
     SPURIOUS := 255; irq_t_bits := 32 |}.

(** [intr_t] and [irq_t] are unsigned integer types whose typedefs are not
    among the sources; their values are read as integers.  The one
    computation of the unit that can leave the type, the last line of a
    controller, wraps around ([irq_belongs] below). *)
Abbreviation intr_t := Z (only parsing).
Abbreviation irq_t := Z (only parsing).

(** A handler is a function pointer; it is identified by its address. *)
Abbreviation intr_handler_t := Z (only parsing).

Inductive polarity_t : Type := POLARITY_HIGH | POLARITY_LOW.
Inductive trigger_t : Type := TRIGGER_EDGE | TRIGGER_LEVEL.

Record irq_tuple_t : Type := {
  irq : irq_t;
  active_polarity : polarity_t;
  trigger : trigger_t
}.

(** The saved-state record handed over by the architectural stub; only its
    [id] field is read by the router. *)
Record intr_state_t : Type := { state_id : intr_t }.

(** One discovered I/O APIC.  The [next] link of the C structure is the
    tail of the list returned by [ioapic_iter]. *)
Record ioapic_t : Type := {
  _phy_addr : Z;
  apic_id : Z;
  irq_base : irq_t;
  irqs : irq_t
}.

(** A chain [intr_handler_node_t *]: the handlers of its nodes, head
    first.  The null pointer is the empty chain. *)
Abbreviation chain_t := (list intr_handler_t) (only parsing).

(** Calls that leave the translation unit.  A handler is opaque: by
    contract it does not enter the routing table, so calling it leaves
    the router's state alone and is only logged. *)
Inductive call_t : Type :=
  | ic_ack (intr : intr_t)
  | handler_call (handler : intr_handler_t) (state : intr_state_t)
  | ioapic_route (apic : ioapic_t) (tuple : irq_tuple_t) (intr : intr_t)
  | ioapic_mask (apic : ioapic_t) (tuple : irq_tuple_t).

(** The state of the router.

    - [intr_handlers] is the static array of [INTERRUPTS] chain heads;
    - [ioapics] is the enumeration [ioapic_iter()] walks;
    - [malloc_plan] lists the outcomes of the coming [malloc] calls
      ([true]: a node is returned, [false]: null); once the plan is used up
      the allocator has nothing left;
    - [free_log] lists the chain nodes handed to [free], oldest first,
      each by the handler it held;
    - [calls] logs the outgoing calls, oldest first, each with the array
      [intr_handlers] as it stood when the call was made. *)
Record route_t : Type := {
  intr_handlers : list chain_t;
  ioapics : list ioapic_t;
  malloc_plan : list bool;
  free_log : list intr_handler_t;
  calls : list (call_t * list chain_t)
}.

Definition set_intr_handlers (t : list chain_t) (s : route_t) : route_t :=
  {| intr_handlers := t; ioapics := ioapics s;
     malloc_plan := malloc_plan s; free_log := free_log s;
     calls := calls s |}.

Definition set_malloc_plan (p : list bool) (s : route_t) : route_t :=
  {| intr_handlers := intr_handlers s; ioapics := ioapics s;
     malloc_plan := p; free_log := free_log s; calls := calls s |}.

Definition set_free_log (l : list intr_handler_t) (s : route_t) : route_t :=
  {| intr_handlers := intr_handlers s; ioapics := ioapics s;
     malloc_plan := malloc_plan s; free_log := l; calls := calls s |}.

Definition log_call (c : call_t) (s : route_t) : route_t :=
  {| intr_handlers := intr_handlers s; ioapics := ioapics s;
     malloc_plan := malloc_plan s; free_log := free_log s;
     calls := calls s ++ [(c, intr_handlers s)] |}.

Definition extern (c : call_t) : kernel route_t unit := modify (log_call c).

(** Modelled from the spec: [malloc] (<stdlib.h>) is not among the
    sources.  It allocates a chain node from the heap and may fail; the
    result says whether a node was obtained. *)
Definition malloc : kernel route_t bool :=
  λ s, match malloc_plan s with
       | [] => Done false s
       | ok :: plan => Done ok (set_malloc_plan plan s)
       end.

(** Modelled from the spec: [free] (<stdlib.h>) is not among the
    sources.  It takes back a chain node; the node is recorded by the
    handler it held. *)
Definition free (handler : intr_handler_t) : kernel route_t unit :=
  modify (λ s, set_free_log (free_log s ++ [handler]) s).

(** The escape [\n] of a C string literal: one line feed. *)
Definition newline : string := String (Ascii.ascii_of_nat 10) EmptyString.

(** [intr_handlers[intr]] as an rvalue; an index outside the array is a
    fault. *)
Definition load_head `{intr_consts} (intr : intr_t) : kernel route_t chain_t :=
  λ s, if bool_decide (0 ≤ intr < INTERRUPTS) then
         match intr_handlers s !! Z.to_nat intr with
         | Some head => Done head s
         | None => Fault s
         end
       else Fault s.

(** [intr_handlers[intr] = head]. *)
Definition store_head `{intr_consts} (intr : intr_t) (head : chain_t)
    : kernel route_t unit :=
  λ s, if bool_decide (0 ≤ intr < INTERRUPTS) then
         match intr_handlers s !! Z.to_nat intr with
         | Some _ =>
             Done tt (set_intr_handlers
                        (<[Z.to_nat intr := head]> (intr_handlers s)) s)
         | None => Fault s
         end
       else Fault s.

(** The [for] loop of [intr_dispatch]: call every handler of the chain,
    head to tail. *)
Fixpoint call_handlers (node : chain_t) (state : intr_state_t)
    : kernel route_t unit :=
  match node with
  | [] => mret tt
  | handler :: next =>
      extern (handler_call handler state);;
      call_handlers next state
  end.

Definition intr_dispatch `{intr_consts} (state : intr_state_t)
    : kernel route_t unit :=
  let intr := state_id state in
  (if (intr >? FAULT31) && negb (intr =? SPURIOUS)
   then extern (ic_ack intr) else mret tt);;
  head ← load_head (state_id state);
  match head with
  | [] => panic ("unhandled interrupt %d" ++ newline) (state_id state)
  | _ :: _ => call_handlers head state
  end.

Definition _intr_route_intr `{intr_consts} (intr : intr_t)
    (handler : intr_handler_t) : kernel route_t bool :=
  tail_node ← malloc;
  if negb tail_node then mret false
  else
    next ← load_head intr;
    store_head intr (handler :: next);;
    mret true.

(** The [for] loop of [_intr_unroute_intr] on one chain.  [finds] says
    whether the walk meets a node whose handler is [handler]; [unlink] is
    the chain once the first such node is unlinked, and the chain as it
    was when there is none. *)
Fixpoint finds (handler : intr_handler_t) (node : chain_t) : bool :=
  match node with
  | [] => false
  | h :: next => if h =? handler then true else finds handler next
  end.

Fixpoint unlink (handler : intr_handler_t) (node : chain_t) : chain_t :=
  match node with
  | [] => []
  | h :: next =>
      if h =? handler then next else h :: unlink handler next
  end.

(** The node found is unlinked and handed to [free]; when the walk ends
    without one, nothing is written. *)
Definition _intr_unroute_intr `{intr_consts} (intr : intr_t)
    (handler : intr_handler_t) : kernel route_t unit :=
  head ← load_head intr;
  if finds handler head then
    store_head intr (unlink handler head);;
    free handler
  else mret tt.

Definition intr_route_intr `{intr_consts} (intr : intr_t)
    (handler : intr_handler_t) : kernel route_t bool :=
  _intr_route_intr intr handler.

Definition intr_unroute_intr `{intr_consts} (intr : intr_t)
    (handler : intr_handler_t) : kernel route_t unit :=
  _intr_unroute_intr intr handler.

(** The test [irq >= irq_first && irq < irq_last] both IRQ loops make.
    [irq_last] is an [irq_t]: the value stored in it is
    [irq_base + irqs - 1] reduced to the width of the type, so a record
    with [irq_base + irqs = 0] gives the largest value of the type. *)
Definition irq_belongs `{intr_consts} (apic : ioapic_t) (irq : irq_t)
    : bool :=
  let irq_first := irq_base apic in
  let irq_last := (irq_base apic + irqs apic - 1) `mod` 2 ^ irq_t_bits in
  (irq >=? irq_first) && (irq <? irq_last).

Fixpoint route_irq_loop `{intr_consts} (apic : list ioapic_t)
    (tuple : irq_tuple_t) (handler : intr_handler_t) (intr : intr_t)
    : kernel route_t bool :=
  match apic with
  | [] => mret false
  | a :: next =>
      if irq_belongs a (irq tuple) then
        ok ← _intr_route_intr intr handler;
        extern (ioapic_route a tuple intr);;
        mret ok
      else route_irq_loop next tuple handler intr
  end.

Definition intr_route_irq `{intr_consts} (tuple : irq_tuple_t)
    (handler : intr_handler_t) : kernel route_t bool :=
  let irq := irq tuple in
  let intr := (irq `mod` IRQS) + IRQ0 in
  apic ← gets ioapics;
  route_irq_loop apic tuple handler intr.

Fixpoint unroute_irq_loop `{intr_consts} (apic : list ioapic_t)
    (tuple : irq_tuple_t) : kernel route_t unit :=
  match apic with
  | [] => mret tt
  | a :: next =>
      (if irq_belongs a (irq tuple) then extern (ioapic_mask a tuple)
       else mret tt);;
      unroute_irq_loop next tuple
  end.

Definition intr_unroute_irq `{intr_consts} (tuple : irq_tuple_t)
    (handler : intr_handler_t) : kernel route_t unit :=
  let irq := irq tuple in
  let intr := (irq `mod` IRQS) + IRQ0 in
  apic ← gets ioapics;
  unroute_irq_loop apic tuple;;
  _intr_unroute_intr intr handler.

(** ** The kernel heap (arc/mm/heap.c) *)

(** The constants of the memory-management headers, which are not among
    the sources, are parameters.  [x86_64_heap] gives the values of the
    worked instances: 4 KiB frames (the Makefile's [max-page-size=0x1000]),
    the writable and no-execute bits of an x86-64 page table entry, two
    distinct bits for [HEAP_W] and [HEAP_X], and a heap end that leaves
    16 payload pages above a heap starting at 0x400000. *)
Class heap_consts : Type := {
  FRAME_SIZE : Z;
  VM_STACK_OFFSET : Z;
  PG_WRITABLE : Z;
  PG_NO_EXEC : Z;
  HEAP_W : Z;
  HEAP_X : Z
}.

Definition x86_64_heap : heap_consts :=
  {| FRAME_SIZE := 0x1000; VM_STACK_OFFSET := 0x400000 + 17 * 0x1000;
     PG_WRITABLE := 0x2; PG_NO_EXEC := 0x8000000000000000;
     HEAP_W := 0x1; HEAP_X := 0x2 |}.

(** [uintptr_t] and [size_t] are 64 bits wide: results wrap around. *)
Definition uintptr (x : Z) : Z := x `mod` 2 ^ 64.

Definition HEAP_NODE_FREE : Z := 0.
Definition HEAP_NODE_RESERVED : Z := 1.
Definition HEAP_NODE_ALLOCATED : Z := 2.

(** [heap_node_t]; the links are addresses, 0 being the null pointer. *)
Record heap_node_t : Type := {
  node_next : Z;
  node_prev : Z;
  node_state : Z;
  node_start : Z;
  node_end : Z
}.

Definition set_next (v : Z) (n : heap_node_t) : heap_node_t :=
  {| node_next := v; node_prev := node_prev n; node_state := node_state n;
     node_start := node_start n; node_end := node_end n |}.

Definition set_prev (v : Z) (n : heap_node_t) : heap_node_t :=
  {| node_next := node_next n; node_prev := v; node_state := node_state n;
     node_start := node_start n; node_end := node_end n |}.

Definition set_state (v : Z) (n : heap_node_t) : heap_node_t :=
  {| node_next := node_next n; node_prev := node_prev n; node_state := v;
     node_start := node_start n; node_end := node_end n |}.

Definition set_end (v : Z) (n : heap_node_t) : heap_node_t :=
  {| node_next := node_next n; node_prev := node_prev n;
     node_state := node_state n; node_start := node_start n; node_end := v |}.

(** The machine the heap runs on.

    - [heap_root] is the static pointer of that name;
    - [nodes] holds the [heap_node_t] objects written so far, by virtual
      address;
    - [pages] is the page table: virtual page to (physical frame, flags);
    - [vmm_refused] are the virtual pages [vmm_map] fails on;
    - [frames] lists the results of the coming [pmm_alloc] calls (0 is
      the null frame); once it is used up, there is no frame left;
    - [freed] logs the arguments of [pmm_free], oldest first. *)
Record heap_t : Type := {
  heap_root : Z;
  nodes : gmap Z heap_node_t;
  pages : gmap Z (Z * Z);
  vmm_refused : list Z;
  frames : list Z;
  freed : list Z
}.

Definition set_heap_root (r : Z) (s : heap_t) : heap_t :=
  {| heap_root := r; nodes := nodes s; pages := pages s;
     vmm_refused := vmm_refused s; frames := frames s; freed := freed s |}.

Definition set_nodes (m : gmap Z heap_node_t) (s : heap_t) : heap_t :=
  {| heap_root := heap_root s; nodes := m; pages := pages s;
     vmm_refused := vmm_refused s; frames := frames s; freed := freed s |}.

Definition set_pages (m : gmap Z (Z * Z)) (s : heap_t) : heap_t :=
  {| heap_root := heap_root s; nodes := nodes s; pages := m;
     vmm_refused := vmm_refused s; frames := frames s; freed := freed s |}.

Definition set_frames (l : list Z) (s : heap_t) : heap_t :=
  {| heap_root := heap_root s; nodes := nodes s; pages := pages s;
     vmm_refused := vmm_refused s; frames := l; freed := freed s |}.

Definition set_freed (l : list Z) (s : heap_t) : heap_t :=
  {| heap_root := heap_root s; nodes := nodes s; pages := pages s;
     vmm_refused := vmm_refused s; frames := frames s; freed := l |}.

(** Modelled from the spec: the physical frame allocator (arc/mm/pmm.c) is
    not among the sources.  [pmm_alloc()] returns a physical frame address
    or null. *)
Definition pmm_alloc : kernel heap_t Z :=
  λ s, match frames s with
       | [] => Done 0 s
       | phy :: rest => Done phy (set_frames rest s)
       end.

(** Modelled from the spec: [pmm_free(phy)] reclaims one frame; the model
    records the argument. *)
Definition pmm_free (phy : Z) : kernel heap_t unit :=
  modify (λ s, set_freed (freed s ++ [phy]) s).

(** Modelled from the spec: the virtual mapper (arc/mm/vmm.c) is not among
    the sources.  [vmm_map(virt, phy, flags)] returns success and then
    [virt] is mapped to [phy]. *)
Definition vmm_map (virt phy flags : Z) : kernel heap_t bool :=
  λ s, if bool_decide (virt ∈ vmm_refused s) then Done false s
       else Done true (set_pages (<[virt := (phy, flags)]> (pages s)) s).

(** Modelled from the spec: [vmm_unmap(virt)] returns the previously
    mapped physical address, or null when [virt] was not mapped. *)
Definition vmm_unmap (virt : Z) : kernel heap_t Z :=
  λ s, match pages s !! virt with
       | Some (phy, _) => Done phy (set_pages (delete virt (pages s)) s)
       | None => Done 0 s
       end.

(** The [heap_node_t] object a pointer refers to: its page has to be
    mapped and to hold a node. *)
Definition peek (s : heap_t) (node : Z) : option heap_node_t :=
  match pages s !! node with
  | Some _ => nodes s !! node
  | None => None
  end.

(** Reading through a [heap_node_t *]. *)
Definition load (node : Z) : kernel heap_t heap_node_t :=
  λ s, match peek s node with
       | Some n => Done n s
       | None => Fault s
       end.

(** Writing a whole node through a pointer to a mapped page. *)
Definition store (node : Z) (n : heap_node_t) : kernel heap_t unit :=
  λ s, match pages s !! node with
       | Some _ => Done tt (set_nodes (<[node := n]> (nodes s)) s)
       | None => Fault s
       end.

(** Assigning one field: [node->field = v]. *)
Definition update (node : Z) (f : heap_node_t → heap_node_t)
    : kernel heap_t unit :=
  n ← load node;
  store node (f n).

(** Modelled from the spec: the macros of <arc/mm/align.h> are not among
    the sources.  [PAGE_ALIGN] rounds up to a multiple of the page size,
    [PAGE_ALIGN_2M] to a 2 MiB boundary. *)
Definition PAGE_ALIGN `{heap_consts} (x : Z) : Z :=
  uintptr ((x + FRAME_SIZE - 1) `div` FRAME_SIZE * FRAME_SIZE).

Definition PAGE_ALIGN_2M (x : Z) : Z :=
  uintptr ((x + 0x200000 - 1) `div` 0x200000 * 0x200000).

(** [heap_init]; [_end] is the address of the linker symbol, and
    [boot_panic] is [panic] without a format argument. *)
Definition heap_init `{heap_consts} (_end : Z) : kernel heap_t unit :=
  let heap_start := PAGE_ALIGN_2M _end in
  let heap_end := VM_STACK_OFFSET in
  root_phy ← pmm_alloc;
  if root_phy =? 0 then
    panic "couldn't allocate physical frame for heap root node" 0
  else if heap_start >=? heap_end then panic "no room for heap" 0
  else
    modify (set_heap_root heap_start);;
    ok ← vmm_map heap_start root_phy (Z.lor PG_WRITABLE PG_NO_EXEC);
    if negb ok then
      panic "couldn't map heap root node into the virtual memory" 0
    else
      store heap_start
        {| node_next := 0; node_prev := 0; node_state := HEAP_NODE_FREE;
           node_start := uintptr (heap_start + FRAME_SIZE);
           node_end := heap_end |}.

(** The body of [if (extra_size >= (FRAME_SIZE * 2))] in [find_node]. *)
Definition find_node_split `{heap_consts} (node size : Z)
    : kernel heap_t unit :=
  phy ← pmm_alloc;
  if phy =? 0 then mret tt
  else
    let next := uintptr (node + size + FRAME_SIZE) in
    ok ← vmm_map next phy (Z.lor PG_WRITABLE PG_NO_EXEC);
    if negb ok then mret tt
    else
      n ← load node;
      store next
        {| node_next := node_next n; node_prev := node;
           node_state := HEAP_NODE_FREE;
           node_start := uintptr (node + size + FRAME_SIZE * 2);
           node_end := node_end n |};;
      update node (set_end next);;
      update node (set_next next);;
      nx ← load next;
      if node_next nx =? 0 then mret tt
      else update (node_next nx) (set_prev next).

(** The [for] loop of [find_node], entered at [node]. *)
Fixpoint find_node_from `{heap_consts} (fuel : nat) (node size : Z)
    : kernel heap_t Z :=
  match fuel with
  | O => timeout
  | S fuel =>
      if node =? 0 then mret 0
      else
        n ← load node;
        if negb (node_state n =? HEAP_NODE_FREE) then
          find_node_from fuel (node_next n) size
        else
          let node_size := uintptr (node_end n - node_start n) in
          if node_size <? size then find_node_from fuel (node_next n) size
          else
            let extra_size := uintptr (node_size - size) in
            (if extra_size >=? FRAME_SIZE * 2 then find_node_split node size
             else mret tt);;
            update node (set_state HEAP_NODE_RESERVED);;
            mret node
  end.

Definition find_node `{heap_consts} (fuel : nat) (size : Z)
    : kernel heap_t Z :=
  root ← gets heap_root;
  find_node_from fuel root size.

(** The page loop of [_heap_free]. *)
Fixpoint free_pages `{heap_consts} (fuel : nat) (page end_ : Z)
    : kernel heap_t unit :=
  match fuel with
  | O => timeout
  | S fuel =>
      if page <? end_ then
        phy ← vmm_unmap page;
        (if phy =? 0 then mret tt else pmm_free phy);;
        free_pages fuel (uintptr (page + FRAME_SIZE)) end_
      else mret tt
  end.

Definition _heap_free `{heap_consts} (fuel : nat) (ptr : Z)
    : kernel heap_t unit :=
  let node := uintptr (ptr - FRAME_SIZE) in
  n ← load node;
  (if node_state n =? HEAP_NODE_ALLOCATED then
     free_pages fuel (node_start n) (node_end n)
   else mret tt);;
  update node (set_state HEAP_NODE_FREE);;
  n ← load node;
  let next := node_next n in
  (if next =? 0 then mret tt
   else
     nx ← load next;
     if node_state nx =? HEAP_NODE_FREE then
       update node (set_next (node_next nx));;
       nx ← load next;
       (if node_next nx =? 0 then mret tt
        else update (node_next nx) (set_prev node));;
       nx ← load next;
       update node (set_end (node_end nx));;
       phy ← vmm_unmap next;
       pmm_free phy
     else mret tt);;
  n ← load node;
  let prev := node_prev n in
  if prev =? 0 then mret tt
  else
    pv ← load prev;
    if node_state pv =? HEAP_NODE_FREE then
      n ← load node;
      update prev (set_next (node_next n));;
      n ← load node;
      (if node_next n =? 0 then mret tt
       else update (node_next n) (set_prev prev));;
      n ← load node;
      update prev (set_end (node_end n));;
      phy ← vmm_unmap next;
      pmm_free phy
    else mret tt.

(** The page loop of [_heap_alloc]; [false] when it rolled back. *)
Fixpoint alloc_pages `{heap_consts} (fuel free_fuel : nat)
    (node page end_ map_flags : Z) : kernel heap_t bool :=
  match fuel with
  | O => timeout
  | S fuel =>
      if page <? end_ then
        phy ← pmm_alloc;
        if phy =? 0 then
          _heap_free free_fuel node;;
          mret false
        else
          ok ← vmm_map page phy map_flags;
          if negb ok then
            _heap_free free_fuel node;;
            mret false
          else
            alloc_pages fuel free_fuel node (uintptr (page + FRAME_SIZE))
              end_ map_flags
      else mret true
  end.

Definition _heap_alloc `{heap_consts} (fuel : nat) (size flags : Z)
    (phy_alloc : bool) : kernel heap_t Z :=
  let size := PAGE_ALIGN size in
  node ← find_node fuel size;
  if node =? 0 then mret node
  else if phy_alloc then
    update node (set_state HEAP_NODE_ALLOCATED);;
    let map_flags := 0 in
    let map_flags :=
      if Z.land flags HEAP_W =? 0 then map_flags
      else Z.lor map_flags PG_WRITABLE in
    let map_flags :=
      if Z.land flags HEAP_X =? 0 then Z.lor map_flags PG_NO_EXEC
      else map_flags in
    n ← load node;
    let end_ := uintptr (node_start n + size) in
    ok ← alloc_pages fuel fuel node (node_start n) end_ map_flags;
    if negb ok then mret 0 else mret (uintptr (node + FRAME_SIZE))
  else mret (uintptr (node + FRAME_SIZE)).

Definition heap_reserve `{heap_consts} (fuel : nat) (size : Z)
    : kernel heap_t Z :=
  _heap_alloc fuel size 0 false.

Definition heap_alloc `{heap_consts} (fuel : nat) (size flags : Z)
    : kernel heap_t Z :=
  _heap_alloc fuel size flags true.

Definition heap_free `{heap_consts} (fuel : nat) (ptr : Z)
    : kernel heap_t unit :=
  _heap_free fuel ptr.

(** ** Vocabulary of the properties *)

(** The handlers invoked in a stretch of the call log, in order. *)
Definition invoked (l : list (call_t * list chain_t))
    : list intr_handler_t :=
  omap (λ c, match c.1 with
             | handler_call handler _ => Some handler
             | _ => None
             end) l.

(** The vectors acknowledged in a stretch of the call log, in order. *)
Definition acked (l : list (call_t * list chain_t)) : list intr_t :=
  omap (λ c, match c.1 with
             | ic_ack intr => Some intr
             | _ => None
             end) l.

(** The controller calls ([ioapic_route], [ioapic_mask]) in a stretch of
    the call log. *)
Definition programmed (l : list (call_t * list chain_t)) : list call_t :=
  omap (λ c, match c.1 with
             | ioapic_route _ _ _ | ioapic_mask _ _ => Some c.1
             | _ => None
             end) l.

(** The half-open range [irq_base, irq_base + irqs) a controller owns. *)
Definition owns (apic : ioapic_t) (line : irq_t) : Prop :=
  irq_base apic ≤ line < irq_base apic + irqs apic.

(** A controller record that describes at least one line. *)
Definition has_lines (apic : ioapic_t) : Prop :=
  0 ≤ irq_base apic ∧ 0 < irqs apic.

(** The vector of a hardware IRQ number. *)
Definition vector_of `{intr_consts} (line : irq_t) : intr_t :=
  (line `mod` IRQS) + IRQ0.

(** The array [intr_handlers] has its [INTERRUPTS] entries, and the IRQ
    band lies inside it. *)
Definition routable `{intr_consts} (s : route_t) : Prop :=
  length (intr_handlers s) = Z.to_nat INTERRUPTS ∧
  0 < IRQS ∧ 0 ≤ IRQ0 ∧ IRQ0 + IRQS ≤ INTERRUPTS.

(** The router at boot on a PC with one 24-line I/O APIC: no handler is
    registered yet. *)
Definition pc_boot (plan : list bool) : route_t :=
  {| intr_handlers := replicate 256 [];
     ioapics := [ {| _phy_addr := 0xFEC00000; apic_id := 0;
                     irq_base := 0; irqs := 24 |} ];
     malloc_plan := plan;
     free_log := [];
     calls := [] |}.

Definition isa_tuple (line : irq_t) : irq_tuple_t :=
  {| irq := line; active_polarity := POLARITY_HIGH;
     trigger := TRIGGER_EDGE |}.

(** [find_node] moves on from a node that is not free or is too small. *)
Definition passed_over (n : heap_node_t) (size : Z) : bool :=
  negb (node_state n =? HEAP_NODE_FREE) ||
  (uintptr (node_end n - node_start n) <? size).

(** The walk of [find_node] entered at [from] passes over [k] nodes and
    then stands at [node]. *)
Fixpoint walks_to (s : heap_t) (size : Z) (k : nat) (from node : Z) : bool :=
  match k with
  | O => from =? node
  | S k =>
      negb (from =? 0) &&
      match peek s from with
      | Some n => passed_over n size && walks_to s size k (node_next n) node
      | None => false
      end
  end.

(** The nodes of the list, from [node] on, with their addresses. *)
Fixpoint heap_list (s : heap_t) (fuel : nat) (node : Z)
    : list (Z * heap_node_t) :=
  match fuel with
  | O => []
  | S fuel =>
      if node =? 0 then []
      else match peek s node with
           | Some n => (node, n) :: heap_list s fuel (node_next n)
           | None => []
           end
  end.

(** The machine before [heap_init]: nothing is mapped, and [pmm] will hand
    out the given frames. *)
Definition heap_boot (free_frames : list Z) : heap_t :=
  {| heap_root := 0; nodes := ∅; pages := ∅; vmm_refused := [];
     frames := free_frames; freed := [] |}.

(** A 16-page heap at 0x400000 (the kernel image ends at 0x3ff000) right
    after [heap_init], on the x86-64 constants. *)
Definition heap_16 (free_frames : list Z) : heap_t :=
  final (@heap_init x86_64_heap 0x3ff000 (heap_boot (0x10000 :: free_frames))).

(** Three one-page allocations on the 16-page heap, the first and the
    third of them freed again: the allocated node at 0x402000 now stands
    between two free nodes. *)
Definition heap_16_hole : heap_t :=
  let s := heap_16 [0x11000; 0x12000; 0x13000; 0x14000; 0x15000; 0x16000] in
  let s := final (@heap_alloc x86_64_heap 8 0x1000 0x1 s) in
  let s := final (@heap_alloc x86_64_heap 8 0x1000 0x1 s) in
  let s := final (@heap_alloc x86_64_heap 8 0x1000 0x1 s) in
  let s := final (@heap_free x86_64_heap 8 0x401000 s) in
  final (@heap_free x86_64_heap 8 0x405000 s).

(** The 16-page heap when [pmm] has two frames left: one for a header
    and one for a payload page. *)
Definition heap_16_short : heap_t := heap_16 [0x11000; 0x12000].

(** Two allocations and a third, the first two freed again, on the
    16-page heap.  The second [heap_free] coalesces with the previous
    node and unmaps the header of the node at 0x405000, which is still
    in the list: the free node at 0x400000 now has a successor whose
    header is not mapped. *)
Definition heap_16_stale : heap_t :=
  let s := heap_16 [0x11000; 0x12000; 0x13000; 0x14000; 0x15000; 0x16000;
                    0x17000; 0x18000; 0x19000] in
  let s := final (@heap_alloc x86_64_heap 8 0x2000 0x1 s) in
  let s := final (@heap_alloc x86_64_heap 8 0x1000 0x1 s) in
  let s := final (@heap_alloc x86_64_heap 8 0x1000 0x1 s) in
  let s := final (@heap_free x86_64_heap 8 0x401000 s) in
  final (@heap_free x86_64_heap 8 0x404000 s).

(** Allocations of one, four and one pages on the 16-page heap, the
    second freed again: a free node of four pages at 0x402000 stands
    between two allocated nodes.  [more] are the frames [pmm] has left
    after the nine these calls take. *)
Definition heap_16_gap (more : list Z) : heap_t :=
  let s := heap_16 ([0x11000; 0x12000; 0x13000; 0x14000; 0x15000; 0x16000;
                     0x17000; 0x18000; 0x19000] ++ more) in
  let s := final (@heap_alloc x86_64_heap 8 0x1000 0x1 s) in
  let s := final (@heap_alloc x86_64_heap 8 0x4000 0x1 s) in
  let s := final (@heap_alloc x86_64_heap 8 0x1000 0x1 s) in
  final (@heap_free x86_64_heap 8 0x403000 s).

(** The node [find_node] writes at the new header when it splits [node],
    whose header read [n] before. *)
Definition split_node `{heap_consts} (node size : Z) (n : heap_node_t)
    : heap_node_t :=
  {| node_next := node_next n; node_prev := node;
     node_state := HEAP_NODE_FREE;
     node_start := uintptr (node + size + FRAME_SIZE * 2);
     node_end := node_end n |}.

(** A level-triggered, active-low line, as PCI interrupts are. *)
Definition pci_tuple (line : irq_t) : irq_tuple_t :=
  {| irq := line; active_polarity := POLARITY_LOW;
     trigger := TRIGGER_LEVEL |}.

(** ** The ISA bus (arc/bus/isa.c) *)

(** The number of ISA interrupt lines, from <arc/bus/isa.h>, which is not
    among the sources; a PC has 16. *)
Class isa_consts : Type := { ISA_INTR_LINES : Z }.

Definition x86_64_isa : isa_consts := {| ISA_INTR_LINES := 16 |}.

(** The state of the unit is the static array [isa_irqs].  Writing
    [isa_irqs[line]]: an index outside the array is a fault. *)
Definition isa_store (line : Z) (tuple : irq_tuple_t)
    : kernel (list irq_tuple_t) unit :=
  λ isa_irqs,
    if bool_decide (0 ≤ line) then
      match isa_irqs !! Z.to_nat line with
      | Some _ => Done tt (<[Z.to_nat line := tuple]> isa_irqs)
      | None => Fault isa_irqs
      end
    else Fault isa_irqs.

(** The [for] loop of [isa_init], entered at [line]. *)
Fixpoint isa_init_from `{isa_consts} (fuel : nat) (line : Z)
    : kernel (list irq_tuple_t) unit :=
  match fuel with
  | O => timeout
  | S fuel =>
      if line <? ISA_INTR_LINES then
        isa_store line {| irq := line; active_polarity := POLARITY_HIGH;
                          trigger := TRIGGER_EDGE |};;
        isa_init_from fuel (line + 1)
      else mret tt
  end.

Definition isa_init `{isa_consts} (fuel : nat)
    : kernel (list irq_tuple_t) unit :=
  isa_init_from fuel 0.

(** [isa_irq] returns a pointer into [isa_irqs]; it is represented by the
    tuple it points to when the call returns. *)
Definition isa_irq `{isa_consts} (line : Z)
    : kernel (list irq_tuple_t) irq_tuple_t :=
  if line >=? ISA_INTR_LINES then panic "invalid ISA interrupt line %d" line
  else
    λ isa_irqs,
      if bool_decide (0 ≤ line) then
        match isa_irqs !! Z.to_nat line with
        | Some tuple => Done tuple isa_irqs
        | None => Fault isa_irqs
        end
      else Fault isa_irqs.

(** ** The two halves of [_heap_free]

    [_heap_free] first releases the payload of the node and then tries to
    coalesce it with its neighbours; the halves are named to state what
    each of them does ([heap_free_halves] below). *)
Definition release_payload `{heap_consts} (fuel : nat) (node : Z)
    : kernel heap_t unit :=
  n ← load node;
  if node_state n =? HEAP_NODE_ALLOCATED then
    free_pages fuel (node_start n) (node_end n)
  else mret tt.

Definition coalesce (node : Z) : kernel heap_t unit :=
  update node (set_state HEAP_NODE_FREE);;
  n ← load node;
  let next := node_next n in
  (if next =? 0 then mret tt
   else
     nx ← load next;
     if node_state nx =? HEAP_NODE_FREE then
       update node (set_next (node_next nx));;
       nx ← load next;
       (if node_next nx =? 0 then mret tt
        else update (node_next nx) (set_prev node));;
       nx ← load next;
       update node (set_end (node_end nx));;
       phy ← vmm_unmap next;
       pmm_free phy
     else mret tt);;
  n ← load node;
  let prev := node_prev n in
  if prev =? 0 then mret tt
  else
    pv ← load prev;
    if node_state pv =? HEAP_NODE_FREE then
      n ← load node;
      update prev (set_next (node_next n));;
      n ← load node;
      (if node_next n =? 0 then mret tt
       else update (node_next n) (set_prev prev));;
      n ← load node;
      update prev (set_end (node_end n));;
      phy ← vmm_unmap next;
      pmm_free phy
    else mret tt.

(** A node the coalescing steps of [_heap_free] leave alone: the link is
    null, or the node it points to is readable and not free. *)
Definition not_free_at (s : heap_t) (link : Z) : Prop :=
  link = 0 ∨
  ∃ n, peek s link = Some n ∧ node_state n ≠ HEAP_NODE_FREE.

(** The frame the page loop of [_heap_free] hands to [pmm_free] for a
    page with page table entry [m]: none for an unmapped page or a null
    frame. *)
Definition released (m : option (Z * Z)) : option Z :=
  match m with
  | Some (phy, _) => if phy =? 0 then None else Some phy
  | None => None
  end.

(** * Properties *)

Ltac kstep :=
  unfold mbind, kernel_bind, mret, kernel_ret, extern, modify, gets.

Ltac peek_solve :=
  unfold peek; cbn [pages nodes set_nodes set_pages set_freed];
  simplify_map_eq; reflexivity.

(** ** Interrupt routing *)

Section router.
Context `{intr_consts}.

Lemma call_handlers_log chain state s :
  call_handlers chain state s =
    Done tt {| intr_handlers := intr_handlers s; ioapics := ioapics s;
               malloc_plan := malloc_plan s; free_log := free_log s;
               calls := calls s ++
                 ((λ h, (handler_call h state, intr_handlers s)) <$> chain) |}.
Proof.
  revert s. induction chain as [|h chain IH]; intros s; simpl.
  - kstep. rewrite app_nil_r. by destruct s.
  - kstep. fold (@mbind (kernel route_t) _). kstep. rewrite IH. simpl.
    by rewrite <- app_assoc.
Qed.

Lemma invoked_handler_calls state t chain :
  invoked ((λ h, (handler_call h state, t)) <$> chain) = chain.
Proof.
  induction chain as [|h c IH]; [done|].
  unfold invoked in *. simpl. f_equal. exact IH.
Qed.

Lemma invoked_app l1 l2 : invoked (l1 ++ l2) = invoked l1 ++ invoked l2.
Proof. apply omap_app. Qed.

Lemma acked_app l1 l2 : acked (l1 ++ l2) = acked l1 ++ acked l2.
Proof. apply omap_app. Qed.

Lemma acked_handler_calls state (t : list (list Z)) (chain : list Z) :
  acked ((λ h, (handler_call h state, t)) <$> chain) = [].
Proof.
  induction chain as [|h c IH]; [done|].
  unfold acked in *. simpl. exact IH.
Qed.

Lemma load_head_in_range intr s :
  0 ≤ intr < INTERRUPTS →
  length (intr_handlers s) = Z.to_nat INTERRUPTS →
  ∃ head,
    intr_handlers s !! Z.to_nat intr = Some head ∧
    load_head intr s = Done head s.
Proof.
  intros Hr Hl. unfold load_head. rewrite bool_decide_eq_true_2 by done.
  destruct (intr_handlers s !! Z.to_nat intr) as [head|] eqn:E; [eauto|].
  apply lookup_ge_None in E. lia.
Qed.

Lemma route_intr_done intr handler s s' :
  _intr_route_intr intr handler s = Done true s' →
  ∃ old plan, malloc_plan s = true :: plan ∧
    0 ≤ intr < INTERRUPTS ∧
    intr_handlers s !! Z.to_nat intr = Some old ∧
    s' = {| intr_handlers :=
              <[Z.to_nat intr := handler :: old]> (intr_handlers s);
            ioapics := ioapics s; malloc_plan := plan;
            free_log := free_log s; calls := calls s |}.
Proof.
  unfold _intr_route_intr. kstep. unfold malloc.
  destruct (malloc_plan s) as [|[] plan] eqn:Ep; simpl; try done.
  unfold load_head, store_head. simpl.
  case_bool_decide as Hr; [|done].
  destruct (intr_handlers s !! Z.to_nat intr) as [old|] eqn:E; [|done].
  simpl. rewrite E.
  intros [= <-]. exists old, plan. done.
Qed.

Lemma route_intr_failed intr handler s :
  hd false (malloc_plan s) = false →
  ∃ s', _intr_route_intr intr handler s = Done false s' ∧
    intr_handlers s' = intr_handlers s ∧ calls s' = calls s ∧
    ioapics s' = ioapics s.
Proof.
  unfold _intr_route_intr. kstep. unfold malloc.
  destruct (malloc_plan s) as [|[] plan] eqn:Ep; simpl; try done; eauto.
Qed.

(** C4.  Three successful registrations H1, H2, H3 on a vector V, in that
    order, leave H3, H2, H1 at the head of V's chain, in front of what was
    there before; dispatching V then invokes H3, H2, H1 in that order,
    and after them the older handlers. *)
Theorem dispatch_is_lifo V H1 H2 H3 s s1 s2 s3 :
  intr_route_intr V H1 s = Done true s1 →
  intr_route_intr V H2 s1 = Done true s2 →
  intr_route_intr V H3 s2 = Done true s3 →
  ∃ old s4,
    intr_handlers s !! Z.to_nat V = Some old ∧
    intr_handlers s3 =
      <[Z.to_nat V := H3 :: H2 :: H1 :: old]> (intr_handlers s) ∧
    intr_dispatch {| state_id := V |} s3 = Done tt s4 ∧
    invoked (drop (length (calls s3)) (calls s4)) = [H3; H2; H1] ++ old.
Proof.
  unfold intr_route_intr. intros R1 R2 R3.
  apply route_intr_done in R1 as (old & p1 & _ & Hr & E1 & ->).
  apply route_intr_done in R2 as (old2 & p2 & _ & _ & E2 & ->).
  apply route_intr_done in R3 as (old3 & p3 & _ & _ & E3 & ->).
  simpl in *.
  assert (Hlt : (Z.to_nat V < length (intr_handlers s))%nat)
    by (eapply lookup_lt_Some; eauto).
  rewrite list_lookup_insert_eq in E2 by done.
  rewrite list_insert_insert_eq in E3 |- *.
  rewrite list_lookup_insert_eq in E3 by done.
  rewrite list_insert_insert_eq.
  injection E2 as <-. injection E3 as <-.
  set (s3 := {| intr_handlers := _ |}).
  assert (Hload : ∀ s', intr_handlers s' = intr_handlers s3 →
            load_head V s' = Done (H3 :: H2 :: H1 :: old) s').
  { intros s' Hs'. unfold load_head. rewrite bool_decide_eq_true_2 by done.
    rewrite Hs'. simpl. by rewrite list_lookup_insert_eq. }
  unfold intr_dispatch. kstep. cbn [state_id].
  destruct ((V >? FAULT31) && negb (V =? SPURIOUS)).
  - rewrite Hload by done. rewrite call_handlers_log.
    eexists old, _. do 3 (split; [done|]).
    cbn [calls log_call]. rewrite <- app_assoc, drop_app_length.
    by rewrite invoked_app, invoked_handler_calls.
  - rewrite Hload by done. rewrite call_handlers_log.
    eexists old, _. do 3 (split; [done|]).
    cbn [calls]. rewrite drop_app_length.
    by rewrite invoked_handler_calls.
Qed.


Lemma load_head_cases intr s :
  (∃ head, 0 ≤ intr < INTERRUPTS ∧
     intr_handlers s !! Z.to_nat intr = Some head ∧
     load_head intr s = Done head s) ∨
  load_head intr s = Fault s.
Proof.
  unfold load_head. case_bool_decide; [|by right].
  destruct (intr_handlers s !! Z.to_nat intr) as [head|]; [left; eauto|by right].
Qed.

(** C5.  A dispatch only adds calls to the log.  For an id in the fault
    range (at most [FAULT31]) or equal to [SPURIOUS], none of them is
    [ic_ack]; for any other id the first of them is [ic_ack id], made on
    the array as it stood on entry, and no other [ic_ack] follows: the
    controller is acknowledged exactly once, before any handler runs. *)
Theorem ack_policy state s :
  ∃ new,
    calls (final (intr_dispatch state s)) = calls s ++ new ∧
    (state_id state ≤ FAULT31 ∨ state_id state = SPURIOUS →
       acked new = []) ∧
    (¬ (state_id state ≤ FAULT31 ∨ state_id state = SPURIOUS) →
       ∃ rest, new = (ic_ack (state_id state), intr_handlers s) :: rest ∧
               acked rest = []).
Proof.
  unfold intr_dispatch. kstep.
  destruct ((state_id state >? FAULT31) && negb (state_id state =? SPURIOUS))
    eqn:Hack.
  - apply andb_true_iff in Hack as [Hf Hs].
    apply Z.gtb_lt in Hf. apply negb_true_iff, Z.eqb_neq in Hs.
    destruct (load_head_cases (state_id state)
                (log_call (ic_ack (state_id state)) s))
      as [(head & _ & _ & ->)| ->].
    + destruct head as [|h next].
      * exists [(ic_ack (state_id state), intr_handlers s)].
        split; [done|]. split; [lia|]. intros _. by eexists.
      * rewrite call_handlers_log. cbn [final calls log_call].
        rewrite <- app_assoc. eexists. split; [done|]. split; [lia|].
        intros _. eexists. split; [done|]. apply acked_handler_calls.
    + exists [(ic_ack (state_id state), intr_handlers s)].
      split; [done|]. split; [lia|]. intros _. by eexists.
  - assert (state_id state ≤ FAULT31 ∨ state_id state = SPURIOUS) as Hno.
    { apply andb_false_iff in Hack as [Hf|Hs].
      - left. rewrite Z.gtb_ltb in Hf. apply Z.ltb_ge in Hf. lia.
      - right. by apply negb_false_iff, Z.eqb_eq in Hs. }
    destruct (load_head_cases (state_id state) s)
      as [(head & _ & _ & ->)| ->].
    + destruct head as [|h next].
      * exists []. rewrite app_nil_r. split; [done|]. split; [done|]. tauto.
      * rewrite call_handlers_log. cbn [final calls].
        eexists. split; [done|]. split; [|tauto].
        intros _. apply acked_handler_calls.
    + exists []. rewrite app_nil_r. split; [done|]. split; [done|]. tauto.
Qed.

(** C6.  Dispatching a vector whose chain is empty ends in [panic] with
    the format "unhandled interrupt %d", a line feed after it, and the
    vector number as its argument: the dispatch does not return, no handler is invoked and
    the array of chains is as before. *)
Theorem unhandled_vector_panics state s :
  0 ≤ state_id state < INTERRUPTS →
  intr_handlers s !! Z.to_nat (state_id state) = Some [] →
  ∃ s',
    intr_dispatch state s =
      Panic ("unhandled interrupt %d" ++ newline) (state_id state) s' ∧
    invoked (drop (length (calls s)) (calls s')) = [] ∧
    intr_handlers s' = intr_handlers s.
Proof.
  intros Hr He. unfold intr_dispatch. kstep.
  assert (Hload : ∀ s', intr_handlers s' = intr_handlers s →
            load_head (state_id state) s' = Done [] s').
  { intros s' Hs'. unfold load_head. rewrite bool_decide_eq_true_2 by done.
    by rewrite Hs', He. }
  destruct ((state_id state >? FAULT31) && negb (state_id state =? SPURIOUS)).
  - rewrite Hload by done. eexists. split; [done|].
    cbn [calls log_call intr_handlers]. by rewrite drop_app_length.
  - rewrite Hload by done. eexists. split; [done|].
    by rewrite drop_all.
Qed.

(** For a record with at least one line [irq_last] is at most the exact
    [irq_base + irqs - 1], so the lines the test accepts are owned. *)
Lemma irq_belongs_owns apic line :
  has_lines apic → irq_belongs apic line = true → owns apic line.
Proof.
  unfold irq_belongs, owns. intros [Hb Hi] [Hge Hlt]%andb_true_iff.
  apply Z.geb_le in Hge. apply Z.ltb_lt in Hlt.
  assert (Hle : (irq_base apic + irqs apic - 1) `mod` 2 ^ irq_t_bits
                  ≤ irq_base apic + irqs apic - 1).
  { destruct (decide (2 ^ irq_t_bits = 0)) as [Hz|Hnz].
    - rewrite Hz. by rewrite Z.mod_0_r.
    - apply Z.mod_le; [lia|].
      pose proof (Z.pow_nonneg 2 irq_t_bits). lia. }
  lia.
Qed.

Lemma not_owns_irq_belongs apic line :
  has_lines apic → ¬ owns apic line → irq_belongs apic line = false.
Proof.
  intros Hl Hn. destruct (irq_belongs apic line) eqn:E; [|done].
  by apply irq_belongs_owns in E.
Qed.

(** The test rejects the last line of a record with at least one
    line. *)
Lemma last_line_rejected apic line :
  has_lines apic → line = irq_base apic + irqs apic - 1 →
  irq_belongs apic line = true → False.
Proof.
  unfold irq_belongs. intros [Hb Hi] -> [_ Hlt]%andb_true_iff.
  apply Z.ltb_lt in Hlt.
  assert (Hle : (irq_base apic + irqs apic - 1) `mod` 2 ^ irq_t_bits
                  ≤ irq_base apic + irqs apic - 1).
  { destruct (decide (2 ^ irq_t_bits = 0)) as [Hz|Hnz].
    - rewrite Hz. by rewrite Z.mod_0_r.
    - apply Z.mod_le; [lia|].
      pose proof (Z.pow_nonneg 2 irq_t_bits). lia. }
  lia.
Qed.

Lemma route_irq_loop_done apics tuple handler intr s s' :
  route_irq_loop apics tuple handler intr s = Done true s' →
  ∃ apic old plan,
    apic ∈ apics ∧ irq_belongs apic (irq tuple) = true ∧
    malloc_plan s = true :: plan ∧ 0 ≤ intr < INTERRUPTS ∧
    intr_handlers s !! Z.to_nat intr = Some old ∧
    s' = log_call (ioapic_route apic tuple intr)
           {| intr_handlers := <[Z.to_nat intr := handler :: old]> (intr_handlers s);
              ioapics := ioapics s; malloc_plan := plan;
            free_log := free_log s; calls := calls s |}.
Proof.
  induction apics as [|a apics IH]; simpl; [done|].
  destruct (irq_belongs a (irq tuple)) eqn:Hb.
  - kstep. destruct (_intr_route_intr intr handler s) as [[] s1| | |] eqn:R; try done.
    apply route_intr_done in R as (old & plan & Hp & Hr & E & ->).
    intros [= <-]. exists a, old, plan. split; [left|]. done.
  - intros (apic & old & plan & Hin & ?)%IH. exists apic, old, plan.
    split; [by right|done].
Qed.

Lemma route_irq_loop_none apics tuple handler intr s :
  (∀ apic, apic ∈ apics → irq_belongs apic (irq tuple) = false) →
  route_irq_loop apics tuple handler intr s = Done false s.
Proof.
  induction apics as [|a apics IH]; simpl; [done|]. intros Hall.
  rewrite Hall by left. apply IH. intros apic Hin. apply Hall. by right.
Qed.

Lemma route_irq_loop_failed apics tuple handler intr s apic :
  List.find (λ a, irq_belongs a (irq tuple)) apics = Some apic →
  hd false (malloc_plan s) = false →
  ∃ s', route_irq_loop apics tuple handler intr s = Done false s' ∧
    calls s' = calls s ++ [(ioapic_route apic tuple intr, intr_handlers s)] ∧
    intr_handlers s' = intr_handlers s ∧ ioapics s' = ioapics s.
Proof.
  intros Hfind Hplan. induction apics as [|a apics IH]; simpl in *; [done|].
  destruct (irq_belongs a (irq tuple)) eqn:Hb.
  - injection Hfind as ->. kstep.
    destruct (route_intr_failed intr handler s Hplan) as (s1 & -> & Ht & Hc & Hi).
    eexists. split; [done|]. cbn [calls log_call intr_handlers ioapics].
    by rewrite Ht, Hc.
  - by apply IH.
Qed.

(** C7, amended.  When every controller record has at least one line,
    [intr_route_irq] returns true only if some controller owns the
    line, that is, the line lies in its range [irq_base, irq_base + irqs);
    the handler is then at the head of the chain of vector
    (irq mod IRQS) + IRQ0 and the one call made is [ioapic_route] on that
    controller, for that vector, with the handler already in the chain.
    If no controller owns the line, the call returns false and the state
    is untouched. *)
Theorem route_irq_needs_owner tuple handler s :
  (∀ apic, apic ∈ ioapics s → has_lines apic) →
  (∀ s', intr_route_irq tuple handler s = Done true s' →
     ∃ apic old,
       apic ∈ ioapics s ∧ owns apic (irq tuple) ∧
       intr_handlers s !! Z.to_nat (vector_of (irq tuple)) = Some old ∧
       intr_handlers s' =
         <[Z.to_nat (vector_of (irq tuple)) := handler :: old]>
           (intr_handlers s) ∧
       calls s' =
         calls s ++
         [(ioapic_route apic tuple (vector_of (irq tuple)),
           intr_handlers s')]) ∧
  ((∀ apic, apic ∈ ioapics s → ¬ owns apic (irq tuple)) →
     intr_route_irq tuple handler s = Done false s).
Proof.
  intros Hlines. unfold intr_route_irq, vector_of. kstep. split.
  - intros s' (apic & old & plan & Hin & Hb & _ & _ & E & ->)%route_irq_loop_done.
    exists apic, old. split; [done|].
    split; [by apply irq_belongs_owns; [apply Hlines|]|].
    done.
  - intros Hnone. apply route_irq_loop_none.
    intros apic Hin. apply not_owns_irq_belongs; [by apply Hlines|].
    by apply Hnone.
Qed.

(** C10.  When the test of the loop accepts the line for a controller
    and [malloc] returns null, [intr_route_irq] returns false, yet
    [ioapic_route] has been called on that controller for the computed
    vector, while the array of chains is as it was: the controller is
    programmed although no handler was installed. *)
Theorem route_irq_failure_not_atomic tuple handler s apic :
  List.find (λ a, irq_belongs a (irq tuple)) (ioapics s) = Some apic →
  hd false (malloc_plan s) = false →
  ∃ s',
    intr_route_irq tuple handler s = Done false s' ∧
    calls s' =
      calls s ++
      [(ioapic_route apic tuple (vector_of (irq tuple)), intr_handlers s)] ∧
    intr_handlers s' = intr_handlers s.
Proof.
  intros Hfind Hplan. unfold intr_route_irq, vector_of. kstep.
  destruct (route_irq_loop_failed _ tuple handler
              (irq tuple `mod` IRQS + IRQ0) s apic Hfind Hplan)
    as (s' & -> & Hc & Ht & _).
  by exists s'.
Qed.


Lemma unroute_irq_loop_log apics tuple s :
  unroute_irq_loop apics tuple s =
    Done tt {| intr_handlers := intr_handlers s; ioapics := ioapics s;
               malloc_plan := malloc_plan s; free_log := free_log s;
               calls := calls s ++
                 ((λ a, (ioapic_mask a tuple, intr_handlers s)) <$>
                    filter (λ a, irq_belongs a (irq tuple) = true) apics) |}.
Proof.
  revert s. induction apics as [|a apics IH]; intros s; simpl.
  - kstep. rewrite app_nil_r. by destruct s.
  - kstep. rewrite filter_cons.
    destruct (irq_belongs a (irq tuple)) eqn:Hb.
    + rewrite decide_True by done. rewrite IH. simpl. by rewrite <- app_assoc.
    + rewrite decide_False by done. by rewrite IH.
Qed.

Lemma unroute_irq_loop_none apics tuple s :
  (∀ apic, apic ∈ apics → irq_belongs apic (irq tuple) = false) →
  unroute_irq_loop apics tuple s = Done tt s.
Proof.
  induction apics as [|a apics IH]; simpl; [done|]. intros Hall.
  kstep. rewrite Hall by left. apply IH. intros apic Hin. apply Hall. by right.
Qed.

Lemma unlink_absent handler (node : list Z) :
  handler ∉ node → unlink handler node = node.
Proof.
  induction node as [|h next IH]; simpl; [done|].
  intros Hn. apply not_elem_of_cons in Hn as [Hne Hn].
  destruct (h =? handler) eqn:E; [apply Z.eqb_eq in E; congruence|].
  by rewrite IH.
Qed.

Lemma vector_of_in_range line s :
  routable s → 0 ≤ vector_of line < INTERRUPTS.
Proof.
  intros (_ & Hq & H0 & Hb). unfold vector_of.
  pose proof (Z.mod_pos_bound line IRQS Hq). lia.
Qed.

Lemma load_head_at intr s head :
  0 ≤ intr < INTERRUPTS →
  intr_handlers s !! Z.to_nat intr = Some head →
  load_head intr s = Done head s.
Proof.
  intros Hr E. unfold load_head.
  rewrite bool_decide_eq_true_2 by done. by rewrite E.
Qed.

Lemma store_head_at intr head s old :
  0 ≤ intr < INTERRUPTS →
  intr_handlers s !! Z.to_nat intr = Some old →
  store_head intr head s =
    Done tt (set_intr_handlers (<[Z.to_nat intr := head]> (intr_handlers s)) s).
Proof.
  intros Hr E. unfold store_head.
  rewrite bool_decide_eq_true_2 by done. by rewrite E.
Qed.

Lemma finds_elem handler (node : list Z) :
  finds handler node = true ↔ handler ∈ node.
Proof.
  induction node as [|h next IH]; simpl.
  - split; [done|by intros ?%elem_of_nil].
  - destruct (h =? handler) eqn:E.
    + apply Z.eqb_eq in E as ->. split; [by left|done].
    + apply Z.eqb_neq in E. rewrite IH. split; [by right|].
      by intros [?|?]%elem_of_cons.
Qed.

Lemma finds_absent handler (node : list Z) :
  handler ∉ node → finds handler node = false.
Proof.
  intros Habs. destruct (finds handler node) eqn:E; [|done].
  by apply finds_elem in E.
Qed.

(** The node the walk stops at is the first one holding the handler. *)
Lemma unlink_first handler (pre post : list Z) :
  handler ∉ pre →
  finds handler (pre ++ handler :: post) = true ∧
  unlink handler (pre ++ handler :: post) = pre ++ post.
Proof.
  induction pre as [|h pre IH]; simpl.
  - intros _. by rewrite Z.eqb_refl.
  - intros [Hne Hpre]%not_elem_of_cons.
    assert (E : (h =? handler) = false) by (apply Z.eqb_neq; congruence).
    rewrite E. destruct (IH Hpre) as [-> ->]. done.
Qed.

Lemma unroute_intr_done intr handler s old :
  0 ≤ intr < INTERRUPTS →
  intr_handlers s !! Z.to_nat intr = Some old →
  ∃ s',
    _intr_unroute_intr intr handler s = Done tt s' ∧
    intr_handlers s' =
      <[Z.to_nat intr := unlink handler old]> (intr_handlers s) ∧
    calls s' = calls s ∧ ioapics s' = ioapics s ∧
    malloc_plan s' = malloc_plan s ∧
    free_log s' =
      free_log s ++ (if finds handler old then [handler] else []) ∧
    (handler ∉ old → s' = s).
Proof.
  intros Hr E. unfold _intr_unroute_intr. kstep.
  rewrite (load_head_at intr s old) by done.
  destruct (finds handler old) eqn:Hf.
  - rewrite (store_head_at intr _ s old) by done.
    eexists. split; [done|]. do 5 (split; [done|]).
    intros Habs. apply finds_absent in Habs. congruence.
  - exists s. split; [done|].
    assert (Habs : handler ∉ old).
    { intros Hin. apply finds_elem in Hin. congruence. }
    rewrite unlink_absent by done.
    rewrite list_insert_id by done. rewrite app_nil_r. done.
Qed.

(** [intr_unroute_irq] is the masking loop followed by
    [_intr_unroute_intr] on the vector of the line. *)
Lemma unroute_irq_done tuple handler s old :
  0 ≤ vector_of (irq tuple) < INTERRUPTS →
  intr_handlers s !! Z.to_nat (vector_of (irq tuple)) = Some old →
  ∃ s',
    intr_unroute_irq tuple handler s = Done tt s' ∧
    calls s' =
      calls s ++
      ((λ a, (ioapic_mask a tuple, intr_handlers s)) <$>
         filter (λ a, irq_belongs a (irq tuple) = true) (ioapics s)) ∧
    intr_handlers s' =
      <[Z.to_nat (vector_of (irq tuple)) := unlink handler old]>
        (intr_handlers s) ∧
    ioapics s' = ioapics s ∧ malloc_plan s' = malloc_plan s ∧
    free_log s' =
      free_log s ++ (if finds handler old then [handler] else []).
Proof.
  intros Hr E. unfold intr_unroute_irq. kstep. rewrite unroute_irq_loop_log.
  fold (vector_of (irq tuple)).
  match goal with
  | |- context [_intr_unroute_intr _ _ ?s1] =>
      destruct (unroute_intr_done (vector_of (irq tuple)) handler s1 old Hr E)
        as (s' & Hret & Ht & Hc & Hi & Hp & Hf & _)
  end.
  exists s'. split; [exact Hret|]. done.
Qed.

(** C8, amended.  For a line no controller owns, every controller
    record having at least one line, [intr_unroute_irq] returns, logs
    no call at all (so no [ioapic_mask]), calls no [malloc] and leaves
    the controllers alone.  It still unlinks the first node holding the
    handler from the chain of vector (irq mod IRQS) + IRQ0 and hands
    that node to [free].  Only when the handler is not in that chain is
    the whole state unchanged. *)
Theorem unroute_irq_unowned tuple handler s :
  routable s →
  (∀ apic, apic ∈ ioapics s → has_lines apic) →
  (∀ apic, apic ∈ ioapics s → ¬ owns apic (irq tuple)) →
  ∃ old s',
    intr_handlers s !! Z.to_nat (vector_of (irq tuple)) = Some old ∧
    intr_unroute_irq tuple handler s = Done tt s' ∧
    calls s' = calls s ∧
    ioapics s' = ioapics s ∧
    malloc_plan s' = malloc_plan s ∧
    (handler ∉ old → s' = s) ∧
    (handler ∈ old →
       ∃ pre post,
         old = pre ++ handler :: post ∧ (handler ∉ pre) ∧
         intr_handlers s' =
           <[Z.to_nat (vector_of (irq tuple)) := pre ++ post]>
             (intr_handlers s) ∧
         free_log s' = free_log s ++ [handler]).
Proof.
  intros Hw Hlines Hnone.
  pose proof (vector_of_in_range (irq tuple) s Hw) as Hr.
  destruct (load_head_in_range (vector_of (irq tuple)) s Hr (proj1 Hw))
    as (old & E & _).
  unfold intr_unroute_irq. kstep. rewrite unroute_irq_loop_none.
  2:{ intros apic Hin. apply not_owns_irq_belongs; [by apply Hlines|].
      by apply Hnone. }
  fold (vector_of (irq tuple)).
  destruct (unroute_intr_done (vector_of (irq tuple)) handler s old Hr E)
    as (s' & Hret & Ht & Hc & Hi & Hp & Hf & Hsame).
  exists old, s'. do 6 (split; [done|]).
  intros (pre & post & -> & Hpre)%list_elem_of_split_l.
  exists pre, post. split; [done|]. split; [done|].
  destruct (unlink_first handler pre post Hpre) as [Hfound Hun].
  rewrite Hun in Ht. rewrite Hfound in Hf. done.
Qed.

(** X1: [intr_unroute_irq] returns for every tuple whose vector is in
    the array.  It calls [ioapic_mask] once on each controller the test
    of the loop accepts, in the order of the controller list and on the
    array as it stood on entry, and only then unlinks the first node of
    the handler from the chain of vector (irq mod IRQS) + IRQ0. *)
Lemma unroute_irq_masks_first tuple handler s old :
  0 ≤ vector_of (irq tuple) < INTERRUPTS →
  intr_handlers s !! Z.to_nat (vector_of (irq tuple)) = Some old →
  ∃ s',
    intr_unroute_irq tuple handler s = Done tt s' ∧
    calls s' =
      calls s ++
      ((λ a, (ioapic_mask a tuple, intr_handlers s)) <$>
         filter (λ a, irq_belongs a (irq tuple) = true) (ioapics s)) ∧
    intr_handlers s' =
      <[Z.to_nat (vector_of (irq tuple)) := unlink handler old]>
        (intr_handlers s).
Proof.
  intros Hr E.
  destruct (unroute_irq_done tuple handler s old Hr E)
    as (s' & Hret & Hc & Ht & _).
  by exists s'.
Qed.

(** The last line of a controller is never masked: the test of the loop
    rejects it for its owner, and no other controller owns it when the
    ranges are disjoint.  The handler is unlinked all the same. *)
Lemma unroute_irq_last_line tuple handler s apic old :
  0 ≤ vector_of (irq tuple) < INTERRUPTS →
  (∀ a, a ∈ ioapics s → has_lines a) →
  apic ∈ ioapics s → 0 < irqs apic →
  irq tuple = irq_base apic + irqs apic - 1 →
  (∀ a, a ∈ ioapics s → owns a (irq tuple) → a = apic) →
  intr_handlers s !! Z.to_nat (vector_of (irq tuple)) = Some old →
  owns apic (irq tuple) ∧
  ∃ s',
    intr_unroute_irq tuple handler s = Done tt s' ∧
    calls s' = calls s ∧
    intr_handlers s' =
      <[Z.to_nat (vector_of (irq tuple)) := unlink handler old]>
        (intr_handlers s).
Proof.
  intros Hr Hlines Hin Hirqs Hlast Hdisj E. split; [unfold owns; lia|].
  unfold intr_unroute_irq. kstep. rewrite unroute_irq_loop_none.
  - fold (vector_of (irq tuple)).
    destruct (unroute_intr_done (vector_of (irq tuple)) handler s old Hr E)
      as (s' & Hret & Ht & Hc & _).
    by exists s'.
  - intros a Ha. destruct (irq_belongs a (irq tuple)) eqn:Hb; [|done].
    apply irq_belongs_owns in Hb as Ho; [|by apply Hlines].
    apply Hdisj in Ho as ->; [|done].
    by apply (last_line_rejected apic (irq tuple)) in Hb; [|apply Hlines|].
Qed.

End router.


(** ** The kernel heap *)

Section heap.
Context `{heap_consts}.

Lemma load_peek s node n : peek s node = Some n → load node s = Done n s.
Proof. unfold load. by intros ->. Qed.

Lemma peek_mapped s node n : peek s node = Some n → is_Some (pages s !! node).
Proof. unfold peek. destruct (pages s !! node); [eauto|done]. Qed.

Lemma store_mapped s node n :
  is_Some (pages s !! node) →
  store node n s = Done tt (set_nodes (<[node := n]> (nodes s)) s).
Proof. unfold store. by intros [? ->]. Qed.

Lemma update_peek s node f n :
  peek s node = Some n →
  update node f s = Done tt (set_nodes (<[node := f n]> (nodes s)) s).
Proof.
  intros Hp. unfold update. kstep. rewrite (load_peek _ _ _ Hp).
  apply store_mapped. by eapply peek_mapped.
Qed.

Lemma peek_stored s node n a :
  is_Some (pages s !! a) →
  peek (set_nodes (<[node := n]> (nodes s)) s) a =
    if decide (node = a) then Some n else peek s a.
Proof.
  intros [? Hm]. unfold peek. simpl. rewrite Hm. apply lookup_insert.
Qed.

Lemma find_node_from_walk s size k from node fuel :
  walks_to s size k from node = true →
  (k < fuel)%nat →
  find_node_from fuel from size s = find_node_from (fuel - k) node size s.
Proof.
  revert from fuel. induction k as [|k IH]; intros from fuel Hw Hf.
  - simpl in Hw. apply Z.eqb_eq in Hw as ->. by rewrite Nat.sub_0_r.
  - simpl in Hw. apply andb_true_iff in Hw as [Hnz Hw].
    destruct (peek s from) as [n|] eqn:Hp; [|done].
    apply andb_true_iff in Hw as [Hpass Hw].
    destruct fuel as [|fuel]; [lia|]. cbn [find_node_from].
    apply negb_true_iff in Hnz. rewrite Hnz. kstep.
    rewrite (load_peek _ _ _ Hp).
    unfold passed_over in Hpass.
    destruct (negb (node_state n =? HEAP_NODE_FREE)) eqn:Hst.
    + apply IH; [done|lia].
    + simpl in Hpass. rewrite Hpass. apply IH; [done|lia].
Qed.


Lemma find_node_split_done s node size n phy rest :
  let new_node := uintptr (node + size + FRAME_SIZE) in
  peek s node = Some n →
  frames s = phy :: rest → phy ≠ 0 →
  new_node ∉ vmm_refused s →
  new_node ≠ node →
  (node_next n = 0 ∨
   node_next n ≠ node ∧ node_next n ≠ new_node ∧
   is_Some (peek s (node_next n))) →
  ∃ s',
    find_node_split node size s = Done tt s' ∧
    pages s' = <[new_node := (phy, Z.lor PG_WRITABLE PG_NO_EXEC)]> (pages s) ∧
    frames s' = rest ∧ freed s' = freed s ∧ heap_root s' = heap_root s ∧
    vmm_refused s' = vmm_refused s ∧
    peek s' new_node = Some (split_node node size n) ∧
    peek s' node = Some (set_next new_node (set_end new_node n)) ∧
    (∀ nx, node_next n ≠ 0 → peek s (node_next n) = Some nx →
       peek s' (node_next n) = Some (set_prev new_node nx)) ∧
    (∀ a, a ≠ node → a ≠ new_node → a ≠ node_next n →
       peek s' a = peek s a).
Proof.
  intros new_node Hn Hfr Hphy Hok Hne Hnext.
  pose proof (peek_mapped _ _ _ Hn) as Hmn.
  unfold find_node_split. kstep. unfold pmm_alloc. rewrite Hfr.
  apply Z.eqb_neq in Hphy. rewrite Hphy.
  unfold vmm_map. cbn [vmm_refused set_frames].
  rewrite bool_decide_eq_false_2 by done. cbn [negb].
  fold new_node. clearbody new_node.
  set (s2 := set_pages _ _).
  assert (Hp2 : ∀ a, pages s2 !! a =
            if decide (new_node = a) then Some (phy, Z.lor PG_WRITABLE PG_NO_EXEC)
            else pages s !! a).
  { intros a. unfold s2. cbn. apply lookup_insert. }
  assert (Hk2 : ∀ a, a ≠ new_node → peek s2 a = peek s a).
  { intros a Ha. unfold peek. rewrite Hp2. by rewrite decide_False by done. }
  rewrite (load_peek s2 node n) by (by rewrite Hk2).
  rewrite store_mapped by (rewrite Hp2, decide_True by done; eauto).
  set (s3 := set_nodes _ s2).
  assert (Hm3 : ∀ a, is_Some (pages s3 !! a) ↔ is_Some (pages s2 !! a)) by done.
  assert (Hk3n : peek s3 node = Some n).
  { unfold s3. rewrite peek_stored by (rewrite Hp2, decide_False by done; done).
    rewrite decide_False by done. by rewrite Hk2. }
  rewrite (update_peek s3 node _ n) by done.
  set (s4 := set_nodes _ s3).
  assert (Hk4n : peek s4 node = Some (set_end new_node n)).
  { unfold s4. rewrite peek_stored by (by eapply peek_mapped).
    by rewrite decide_True. }
  rewrite (update_peek s4 node _ _ Hk4n).
  set (s5 := set_nodes _ s4).
  assert (Hk5 : ∀ a, peek s5 a =
     if decide (a = node) then Some (set_next new_node (set_end new_node n))
     else if decide (a = new_node) then Some (split_node node size n)
     else peek s a).
  { intros a. unfold s5, s4, s3, peek. cbn [pages nodes set_nodes].
    rewrite Hp2. rewrite !lookup_insert. destruct Hmn as [pg Hpg].
    repeat case_decide; subst; rewrite ?Hpg; try done. }
  rewrite (load_peek s5 new_node (split_node node size n)).
  2:{ rewrite Hk5. rewrite decide_False by done. by rewrite decide_True. }
  cbn [node_next split_node].
  destruct (node_next n =? 0) eqn:Hz.
  - apply Z.eqb_eq in Hz. exists s5. split; [done|].
    do 5 (split; [done|]).
    split; [rewrite Hk5, decide_False by done; by rewrite decide_True|].
    split; [by rewrite Hk5, decide_True|].
    split; [intros; congruence|].
    intros a Ha1 Ha2 _. rewrite Hk5. by rewrite !decide_False.
  - apply Z.eqb_neq in Hz. destruct Hnext as [|(Hx1 & Hx2 & [nx Hnx])]; [done|].
    rewrite (update_peek s5 (node_next n) _ nx).
    2:{ rewrite Hk5. by rewrite !decide_False. }
    set (s6 := set_nodes _ s5).
    assert (Hk6 : ∀ a, peek s6 a =
       if decide (a = node_next n) then Some (set_prev new_node nx)
       else peek s5 a).
    { intros a. destruct (decide (a = node_next n)) as [->|Ha].
      - unfold s6. rewrite peek_stored.
        + by rewrite decide_True.
        + eapply peek_mapped. rewrite Hk5. rewrite !decide_False by done. done.
      - unfold s6, peek. cbn [pages nodes set_nodes].
        rewrite lookup_insert_ne by done. done. }
    exists s6. split; [done|]. do 5 (split; [done|]).
    split; [rewrite Hk6, decide_False by done; rewrite Hk5, decide_False by done; by rewrite decide_True|].
    split; [rewrite Hk6, decide_False by done; by rewrite Hk5, decide_True|].
    split.
    + intros nx' _ Hnx'. rewrite Hk6, decide_True by done. congruence.
    + intros a Ha1 Ha2 Ha3. rewrite Hk6, decide_False by done.
      rewrite Hk5. by rewrite !decide_False.
Qed.


Lemma uintptr_small x : 0 ≤ x < 2 ^ 64 → uintptr x = x.
Proof. intros Hx. unfold uintptr. by apply Z.mod_small. Qed.

(** In a tiled heap the header sits one page below the payload, so the
    address of the new header lies strictly between the node and the end
    of its range: it is neither the node nor its successor, which starts
    where the node ends. *)
Lemma split_header_inside node size n :
  0 < FRAME_SIZE → 0 ≤ size → 0 < node →
  node_start n = node + FRAME_SIZE →
  node_start n ≤ node_end n < 2 ^ 64 →
  size ≤ uintptr (node_end n - node_start n) →
  FRAME_SIZE * 2 ≤ uintptr (uintptr (node_end n - node_start n) - size) →
  uintptr (node + size + FRAME_SIZE) = node_start n + size ∧
  node < uintptr (node + size + FRAME_SIZE) < node_end n.
Proof.
  intros HF Hsz Hnode Hstart Hrange Hfit Hextra.
  rewrite (uintptr_small (node_end n - node_start n)) in Hfit, Hextra by lia.
  rewrite uintptr_small in Hextra by lia.
  rewrite uintptr_small by lia. lia.
Qed.

Lemma find_node_split_skipped s node size :
  hd 0 (frames s) = 0 ∨
  uintptr (node + size + FRAME_SIZE) ∈ vmm_refused s →
  ∃ s',
    find_node_split node size s = Done tt s' ∧
    nodes s' = nodes s ∧ pages s' = pages s ∧ freed s' = freed s ∧
    heap_root s' = heap_root s.
Proof.
  intros Hcannot. unfold find_node_split. kstep. unfold pmm_alloc.
  destruct (frames s) as [|phy rest] eqn:Hfr; [by exists s|].
  destruct (phy =? 0) eqn:Hz; [by eexists|].
  destruct Hcannot as [Hhd|Hrefused].
  - simpl in Hhd. apply Z.eqb_neq in Hz. done.
  - unfold vmm_map. cbn [vmm_refused set_frames].
    rewrite bool_decide_eq_true_2 by done. by eexists.
Qed.

(** C3, amended.  Let [find_node] select the free node [node] (the walk
    passes over [k] nodes and reaches it, it is free and large enough)
    with extra = node_size - size >= 2 * FRAME_SIZE.

    If [pmm_alloc] yields a frame and [vmm_map] accepts the address
    node + size + FRAME_SIZE, that address is neither [node] nor its
    successor, and the header of the successor, if there is one, is
    mapped, then [find_node] returns [node] and: a free node covering [node + size + 2 * FRAME_SIZE, old end)
    stands at that address, linked between [node] and the old successor;
    [node] ends at the new header, points to it, and is RESERVED; the old
    successor points back to the new node; no other node changed.

    If [pmm_alloc] yields null or [vmm_map] refuses the address,
    [find_node] still returns [node], and the only change to the nodes is
    that [node] is RESERVED: no node was added, range and links are
    intact. *)
Theorem find_node_splits s size k node n fuel :
  walks_to s size k (heap_root s) node = true →
  node ≠ 0 →
  peek s node = Some n →
  node_state n = HEAP_NODE_FREE →
  size ≤ uintptr (node_end n - node_start n) →
  FRAME_SIZE * 2 ≤ uintptr (uintptr (node_end n - node_start n) - size) →
  (k < fuel)%nat →
  let new_node := uintptr (node + size + FRAME_SIZE) in
  (∀ phy rest,
     frames s = phy :: rest → phy ≠ 0 → new_node ∉ vmm_refused s →
     new_node ≠ node →
     (node_next n = 0 ∨
      node_next n ≠ node ∧ node_next n ≠ new_node ∧
      is_Some (peek s (node_next n))) →
     ∃ s',
       find_node fuel size s = Done node s' ∧
       peek s' new_node =
         Some {| node_next := node_next n; node_prev := node;
                 node_state := HEAP_NODE_FREE;
                 node_start := uintptr (node + size + FRAME_SIZE * 2);
                 node_end := node_end n |} ∧
       peek s' node =
         Some {| node_next := new_node; node_prev := node_prev n;
                 node_state := HEAP_NODE_RESERVED;
                 node_start := node_start n; node_end := new_node |} ∧
       (∀ nx, node_next n ≠ 0 → peek s (node_next n) = Some nx →
          peek s' (node_next n) = Some (set_prev new_node nx)) ∧
       (∀ a, a ≠ node → a ≠ new_node → a ≠ node_next n →
          peek s' a = peek s a) ∧
       pages s' =
         <[new_node := (phy, Z.lor PG_WRITABLE PG_NO_EXEC)]> (pages s) ∧
       frames s' = rest) ∧
  (hd 0 (frames s) = 0 ∨ new_node ∈ vmm_refused s →
     ∃ s',
       find_node fuel size s = Done node s' ∧
       nodes s' = <[node := set_state HEAP_NODE_RESERVED n]> (nodes s) ∧
       pages s' = pages s ∧ freed s' = freed s).
Proof.
  intros Hwalk Hnz Hn Hfree Hfit Hextra Hfuel new_node.
  assert (Hstep : find_node fuel size s =
            ((find_node_split node size;;
              update node (set_state HEAP_NODE_RESERVED);;
              mret node) : kernel heap_t Z) s).
  { unfold find_node. kstep.
    rewrite (find_node_from_walk s size k _ node fuel Hwalk Hfuel).
    destruct (fuel - k)%nat as [|fuel'] eqn:Hd; [lia|]. cbn [find_node_from].
    apply Z.eqb_neq in Hnz. rewrite Hnz. kstep.
    rewrite (load_peek _ _ _ Hn). rewrite Hfree. cbn [negb Z.eqb HEAP_NODE_FREE].
    apply Z.ltb_ge in Hfit. rewrite Hfit.
    apply Z.geb_le in Hextra. by rewrite Hextra. }
  rewrite Hstep. kstep. split.
  - intros phy rest Hfr Hphy Hok Hne Hnext.
    destruct (find_node_split_done s node size n phy rest Hn Hfr Hphy Hok Hne
                Hnext)
      as (s1 & -> & Hpg & Hfr1 & Hfd & Hroot & Hrf & Hnew & Hnode & Hnx & Hoth).
    rewrite (update_peek s1 node _ _ Hnode).
    set (s2 := set_nodes _ s1).
    assert (Hk : ∀ a, a ≠ node → peek s2 a = peek s1 a).
    { intros a Ha. unfold s2, peek. cbn [pages nodes set_nodes].
      by rewrite lookup_insert_ne. }
    exists s2. split; [done|].
    split; [by rewrite Hk|].
    split.
    { unfold s2. rewrite peek_stored by (by eapply peek_mapped).
      by rewrite decide_True. }
    split.
    { intros nx Hnz' Hp. destruct Hnext as [|(Hx1 & _)]; [done|].
      rewrite Hk by done. by apply Hnx. }
    split; [intros a Ha1 Ha2 Ha3; rewrite Hk by done; by apply Hoth|].
    done.
  - intros Hcannot.
    destruct (find_node_split_skipped s node size Hcannot)
      as (s1 & -> & Hnd & Hpg & Hfd & Hroot).
    assert (Hn1 : peek s1 node = Some n) by (unfold peek; by rewrite Hpg, Hnd).
    rewrite (update_peek s1 node _ _ Hn1).
    eexists. split; [done|]. cbn [nodes pages freed set_nodes].
    by rewrite Hnd.
Qed.

(** The page loop of [_heap_free], when the range does not reach the top
    of the address space and the fuel covers it: it returns, touches only
    the page table entries of the range, and passes [pmm_free] no null. *)
Lemma free_pages_frame fuel page end_ s :
  0 < FRAME_SIZE → 0 ≤ page → end_ + FRAME_SIZE ≤ 2 ^ 64 →
  (0 < fuel)%nat →
  end_ - page + FRAME_SIZE ≤ Z.of_nat fuel * FRAME_SIZE →
  ∃ s' fs,
    free_pages fuel page end_ s = Done tt s' ∧
    heap_root s' = heap_root s ∧ nodes s' = nodes s ∧
    frames s' = frames s ∧ vmm_refused s' = vmm_refused s ∧
    freed s' = freed s ++ fs ∧ (0 ∉ fs) ∧
    (∀ a, ¬ (page ≤ a < end_) → pages s' !! a = pages s !! a).
Proof.
  intros HF. revert page s.
  induction fuel as [|fuel IH]; intros page s Hpage Hend Hfuel Henough; [lia|].
  cbn [free_pages]. destruct (page <? end_) eqn:Hlt.
  - apply Z.ltb_lt in Hlt. kstep.
    assert (Hnext : uintptr (page + FRAME_SIZE) = page + FRAME_SIZE)
      by (apply uintptr_small; lia).
    rewrite Hnext.
    assert (Hfuel' : (0 < fuel)%nat) by nia.
    assert (Henough' :
      end_ - (page + FRAME_SIZE) + FRAME_SIZE ≤ Z.of_nat fuel * FRAME_SIZE)
      by nia.
    unfold vmm_unmap.
    destruct (pages s !! page) as [[phy fl]|] eqn:Hpg.
    + destruct (phy =? 0) eqn:Hz.
      * destruct (IH (page + FRAME_SIZE) (set_pages (delete page (pages s)) s))
          as (s' & fs & -> & ? & ? & ? & ? & ? & ? & Hout);
          [lia|done|done|done|].
        exists s', fs. do 7 (split; [done|]).
        intros a Ha. rewrite Hout by lia. cbn.
        apply lookup_delete_ne. lia.
      * unfold pmm_free. kstep. cbn beta. cbn [freed set_pages].
        destruct (IH (page + FRAME_SIZE)
                    (set_freed (freed s ++ [phy])
                       (set_pages (delete page (pages s)) s)))
          as (s' & fs & -> & ? & ? & ? & ? & Hfd & Hnz & Hout);
          [lia|done|done|done|].
        exists s', (phy :: fs). do 5 (split; [done|]).
        split; [rewrite Hfd; cbn; by rewrite <- app_assoc|].
        split.
        { apply not_elem_of_cons. split; [|done].
          apply Z.eqb_neq in Hz. congruence. }
        intros a Ha. rewrite Hout by lia. cbn.
        apply lookup_delete_ne. lia.
    + cbn [Z.eqb].
      destruct (IH (page + FRAME_SIZE) s)
        as (s' & fs & -> & ? & ? & ? & ? & ? & ? & Hout);
        [lia|done|done|done|].
      exists s', fs. do 7 (split; [done|]).
      intros a Ha. apply Hout. lia.
  - exists s, []. rewrite app_nil_r. split; [done|].
    do 5 (split; [done|]). split; [apply not_elem_of_nil|done].
Qed.


(** What [_heap_free] does to an ALLOCATED node between two FREE nodes,
    in every state where the headers involved are distinct, readable and
    outside the payload being released.  The previous node takes over the
    joined range and the links of the next node, and the header of the
    next node is unmapped and its frame freed.  The header page of the
    freed node itself, however, keeps its mapping, and the last
    [pmm_free] receives null: the second [vmm_unmap] is again on the next
    node's header. *)
Lemma heap_free_between_free_nodes s ptr n p x fuel
    phy_node fl_node phy_next fl_next :
  let node := uintptr (ptr - FRAME_SIZE) in
  let prev := node_prev n in
  let next := node_next n in
  0 < FRAME_SIZE → 0 ≤ node_start n →
  node_end n + FRAME_SIZE ≤ 2 ^ 64 →
  (0 < fuel)%nat →
  node_end n - node_start n + FRAME_SIZE ≤ Z.of_nat fuel * FRAME_SIZE →
  nodes s !! node = Some n →
  pages s !! node = Some (phy_node, fl_node) →
  node_state n = HEAP_NODE_ALLOCATED →
  prev ≠ 0 → peek s prev = Some p → node_state p = HEAP_NODE_FREE →
  next ≠ 0 → nodes s !! next = Some x →
  pages s !! next = Some (phy_next, fl_next) →
  node_state x = HEAP_NODE_FREE →
  node ≠ prev → node ≠ next → prev ≠ next →
  (node_next x = 0 ∨
   node_next x ≠ node ∧ node_next x ≠ prev ∧ node_next x ≠ next ∧
   is_Some (peek s (node_next x)) ∧
   ¬ (node_start n ≤ node_next x < node_end n)) →
  ¬ (node_start n ≤ node < node_end n) →
  ¬ (node_start n ≤ prev < node_end n) →
  ¬ (node_start n ≤ next < node_end n) →
  ∃ s' fs,
    _heap_free fuel ptr s = Done tt s' ∧
    peek s' prev =
      Some {| node_next := node_next x; node_prev := node_prev p;
              node_state := HEAP_NODE_FREE;
              node_start := node_start p; node_end := node_end x |} ∧
    pages s' !! next = None ∧
    pages s' !! node = Some (phy_node, fl_node) ∧
    freed s' = freed s ++ fs ++ [phy_next; 0] ∧ (0 ∉ fs).
Proof.
  intros node prev next HF Hstart Hend Hfuel Henough Hn Hpn Halloc
    Hprev Hp Hpfree Hnext Hx Hpx Hxfree Hnp Hnn Hpnx Hxx Hon Hop Honx.
  unfold _heap_free. fold node. kstep.
  rewrite (load_peek s node n) by (unfold peek; by rewrite Hpn).
  rewrite Halloc. cbn [Z.eqb HEAP_NODE_ALLOCATED Pos.eqb].
  destruct (free_pages_frame fuel (node_start n) (node_end n) s)
    as (s1 & fs & -> & _ & Hnodes & _ & _ & Hfreed & Hfs & Hout); try done.
  assert (Hk1 : ∀ a, ¬ (node_start n ≤ a < node_end n) → peek s1 a = peek s a).
  { intros a Ha. unfold peek. by rewrite Hout, Hnodes. }
  assert (Hn1 : nodes s1 !! node = Some n) by congruence.
  assert (Hpn1 : pages s1 !! node = Some (phy_node, fl_node))
    by (by rewrite Hout).
  assert (Hx1 : nodes s1 !! next = Some x) by congruence.
  assert (Hpx1 : pages s1 !! next = Some (phy_next, fl_next))
    by (by rewrite Hout).
  unfold peek in Hp. destruct (pages s !! prev) as [pgp|] eqn:Hpp; [|done].
  assert (Hp1 : nodes s1 !! prev = Some p) by congruence.
  assert (Hpp1 : pages s1 !! prev = Some pgp) by (by rewrite Hout).
  assert (Hpn' : prev ≠ node) by congruence.
  assert (Hnn' : next ≠ node) by congruence.
  assert (Hpnx' : next ≠ prev) by congruence.
  erewrite update_peek by peek_solve.
  erewrite load_peek by peek_solve.
  cbn [node_next set_state]. fold next.
  apply Z.eqb_neq in Hnext as Hnextb. rewrite Hnextb.
  erewrite load_peek by peek_solve.
  rewrite Hxfree. cbn [Z.eqb HEAP_NODE_FREE].
  erewrite update_peek by peek_solve.
  erewrite load_peek by peek_solve.
  destruct (decide (node_next x = 0)) as [Hz|Hxnz].
  - apply Z.eqb_eq in Hz as Hzb. rewrite Hzb.
    erewrite load_peek by peek_solve.
    erewrite update_peek by peek_solve.
    unfold vmm_unmap. cbn [pages nodes set_nodes set_pages set_freed].
    rewrite Hpx1. unfold pmm_free. kstep. cbn beta.
    erewrite load_peek by peek_solve.
    cbn [node_prev set_end set_next set_state]. fold prev.
    apply Z.eqb_neq in Hprev as Hprevb. rewrite Hprevb.
    erewrite load_peek by peek_solve.
    rewrite Hpfree. cbn [Z.eqb HEAP_NODE_FREE].
    erewrite load_peek by peek_solve.
    erewrite update_peek by peek_solve.
    erewrite load_peek by peek_solve.
    cbn [node_next set_end set_next set_state]. rewrite Hzb.
    erewrite load_peek by peek_solve.
    erewrite update_peek by peek_solve.
    cbn [pages nodes set_nodes set_pages set_freed].
    rewrite lookup_delete_eq.
    eexists _, fs. split; [done|].
    split.
    { unfold peek. cbn [pages nodes set_nodes set_pages set_freed].
      simplify_map_eq. unfold set_end, set_next. cbn. by rewrite Hpfree. }
    cbn [pages freed nodes set_nodes set_pages set_freed].
    split; [by rewrite lookup_delete_eq|].
    split; [by rewrite lookup_delete_ne|].
    split; [|done]. rewrite Hfreed. by rewrite <- !app_assoc.
  - destruct Hxx as [|(Hx1' & Hx2' & Hx3' & [xr Hxr] & Hox)]; [done|].
    unfold peek in Hxr.
    destruct (pages s !! node_next x) as [pgx|] eqn:Hpxx; [|done].
    assert (Hxr1 : nodes s1 !! node_next x = Some xr) by congruence.
    assert (Hpxx1 : pages s1 !! node_next x = Some pgx) by (by rewrite Hout).
    assert (Hx1'' : node ≠ node_next x) by congruence.
    assert (Hx2'' : prev ≠ node_next x) by congruence.
    assert (Hx3'' : next ≠ node_next x) by congruence.
    apply Z.eqb_neq in Hxnz as Hxnzb. rewrite Hxnzb.
    erewrite update_peek by peek_solve.
    erewrite load_peek by peek_solve.
    erewrite update_peek by peek_solve.
    unfold vmm_unmap. cbn [pages nodes set_nodes set_pages set_freed].
    rewrite Hpx1. unfold pmm_free. kstep. cbn beta.
    erewrite load_peek by peek_solve.
    cbn [node_prev set_end set_next set_state]. fold prev.
    apply Z.eqb_neq in Hprev as Hprevb. rewrite Hprevb.
    erewrite load_peek by peek_solve.
    rewrite Hpfree. cbn [Z.eqb HEAP_NODE_FREE].
    erewrite load_peek by peek_solve.
    erewrite update_peek by peek_solve.
    erewrite load_peek by peek_solve.
    cbn [node_next set_end set_next set_state]. rewrite Hxnzb.
    erewrite update_peek by peek_solve.
    erewrite load_peek by peek_solve.
    erewrite update_peek by peek_solve.
    cbn [pages nodes set_nodes set_pages set_freed].
    rewrite lookup_delete_eq.
    eexists _, fs. split; [done|].
    split.
    { unfold peek. cbn [pages nodes set_nodes set_pages set_freed].
      simplify_map_eq. unfold set_end, set_next. cbn. by rewrite Hpfree. }
    cbn [pages freed nodes set_nodes set_pages set_freed].
    split; [by rewrite lookup_delete_eq|].
    split; [by rewrite lookup_delete_ne|].
    split; [|done]. rewrite Hfreed. by rewrite <- !app_assoc.
Qed.

(** The page loop of [_heap_alloc] when [pmm] runs dry: [fs] are the
    frames handed out first, and the next [pmm_alloc] returns null while
    pages are still missing.  The rollback is [_heap_free(node)]; with no
    node object one page below [node] it faults.  The pages mapped so far
    keep their frames, and nothing is passed to [pmm_free]. *)
Lemma alloc_pages_rollback fuel free_fuel node page end_ map_flags s fs rest :
  0 < FRAME_SIZE → 0 ≤ page → end_ + FRAME_SIZE ≤ 2 ^ 64 →
  frames s = fs ++ rest → 0 ∉ fs → hd 0 rest = 0 →
  page + Z.of_nat (length fs) * FRAME_SIZE < end_ →
  (∀ i, (i < length fs)%nat →
     page + Z.of_nat i * FRAME_SIZE ∉ vmm_refused s) →
  (length fs < fuel)%nat →
  nodes s !! uintptr (node - FRAME_SIZE) = None →
  ∃ s',
    alloc_pages fuel free_fuel node page end_ map_flags s = Fault s' ∧
    nodes s' = nodes s ∧ freed s' = freed s ∧ frames s' = tail rest ∧
    (∀ i phy, fs !! i = Some phy →
       pages s' !! (page + Z.of_nat i * FRAME_SIZE) = Some (phy, map_flags)) ∧
    (∀ a, a < page → pages s' !! a = pages s !! a).
Proof.
  intros HF. revert fuel page s.
  induction fs as [|phy fs IH]; intros fuel page s Hpage Hend Hfr Hnz Hrest
    Hin Hok Hfuel Hnone.
  - destruct fuel as [|fuel]; [simpl in Hfuel; lia|]. cbn [alloc_pages].
    simpl in Hin. assert (Hlt : (page <? end_) = true) by (apply Z.ltb_lt; lia).
    rewrite Hlt. kstep. unfold pmm_alloc. simpl in Hfr. rewrite Hfr.
    assert (Hfault : ∀ s0 : heap_t, nodes s0 = nodes s →
              _heap_free free_fuel node s0 = Fault s0).
    { intros s0 Hs0. unfold _heap_free. kstep. unfold load, peek.
      rewrite Hs0, Hnone. by destruct (pages s0 !! _). }
    destruct rest as [|r rest].
    + cbv beta iota. cbn [Z.eqb]. rewrite Hfault by done.
      exists s. by rewrite Hfr.
    + simpl in Hrest. subst r. cbv beta iota. cbn [Z.eqb].
      rewrite Hfault by done.
      eexists. split; [done|]. done.
  - destruct fuel as [|fuel]; [simpl in Hfuel; lia|]. cbn [alloc_pages].
    cbn [length] in Hin, Hok, Hfuel.
    assert (Hlt : (page <? end_) = true) by (apply Z.ltb_lt; nia).
    rewrite Hlt. kstep. unfold pmm_alloc. rewrite Hfr. cbn [app].
    apply not_elem_of_cons in Hnz as [Hphy Hnz].
    assert (Hphyb : (phy =? 0) = false) by (apply Z.eqb_neq; congruence).
    rewrite Hphyb. unfold vmm_map. cbn [vmm_refused set_frames].
    rewrite bool_decide_eq_false_2.
    2:{ specialize (Hok 0%nat). rewrite Z.mul_0_l, Z.add_0_r in Hok.
        apply Hok. lia. }
    cbn [negb].
    rewrite (uintptr_small (page + FRAME_SIZE)) by nia.
    destruct (IH fuel (page + FRAME_SIZE)
                (set_pages (<[page := (phy, map_flags)]> (pages (set_frames (fs ++ rest) s)))
                   (set_frames (fs ++ rest) s)))
      as (s' & -> & Hnd & Hfd & Hfr' & Hpg & Hlow); try done; try lia.
    + intros i Hi. cbn [vmm_refused set_pages set_frames].
      specialize (Hok (S i)). replace (page + FRAME_SIZE + Z.of_nat i * FRAME_SIZE)
        with (page + Z.of_nat (S i) * FRAME_SIZE) by lia.
      apply Hok. lia.
    + exists s'. do 4 (split; [done|]). split.
      * intros [|i] f Hf.
        -- simpl in Hf. injection Hf as <-.
           rewrite Z.mul_0_l, Z.add_0_r. rewrite Hlow by lia.
           cbn [pages set_pages set_frames]. apply lookup_insert_eq.
        -- simpl in Hf. specialize (Hpg i f Hf).
           replace (page + Z.of_nat (S i) * FRAME_SIZE)
             with (page + FRAME_SIZE + Z.of_nat i * FRAME_SIZE) by lia.
           done.
      * intros a Ha. rewrite Hlow by lia.
        cbn [pages set_pages set_frames]. apply lookup_insert_ne. lia.
Qed.

End heap.

(** ** More on the interrupt router *)

Section router_more.
Context `{intr_consts}.

(** X2: when the chain of the vector is not empty, [intr_dispatch]
    returns, leaves the array of chains and the allocator as they were,
    and appends to the call log the acknowledgement (for a vector above
    FAULT31 other than SPURIOUS) followed by one call per node of the
    chain, head first, each with the interrupt state it was given. *)
Theorem dispatch_runs_chain state s h chain :
  0 ≤ state_id state < INTERRUPTS →
  intr_handlers s !! Z.to_nat (state_id state) = Some (h :: chain) →
  ∃ s',
    intr_dispatch state s = Done tt s' ∧
    intr_handlers s' = intr_handlers s ∧
    malloc_plan s' = malloc_plan s ∧
    calls s' =
      calls s ++
      (if (state_id state >? FAULT31) && negb (state_id state =? SPURIOUS)
       then [(ic_ack (state_id state), intr_handlers s)] else []) ++
      ((λ h, (handler_call h state, intr_handlers s)) <$> h :: chain).
Proof.
  intros Hr E. unfold intr_dispatch. kstep.
  destruct ((state_id state >? FAULT31) && negb (state_id state =? SPURIOUS)).
  - rewrite (load_head_at _ _ (h :: chain)) by done.
    rewrite call_handlers_log. eexists. split; [done|].
    cbn [intr_handlers malloc_plan calls log_call].
    by rewrite <- app_assoc.
  - rewrite (load_head_at _ _ (h :: chain)) by done.
    rewrite call_handlers_log. eexists. split; [done|]. done.
Qed.

Lemma unlink_head handler (node : list Z) :
  unlink handler (handler :: node) = node.
Proof. simpl. by rewrite Z.eqb_refl. Qed.

(** X3: [intr_unroute_intr] undoes a successful [intr_route_intr] of
    the same handler on the same vector: the array of chains is the one
    before the registration, and neither call touches the controllers
    or the call log. *)
Theorem route_unroute_intr_round_trip V handler s s1 :
  intr_route_intr V handler s = Done true s1 →
  ∃ s2,
    intr_unroute_intr V handler s1 = Done tt s2 ∧
    intr_handlers s2 = intr_handlers s ∧
    calls s2 = calls s ∧ ioapics s2 = ioapics s.
Proof.
  unfold intr_route_intr, intr_unroute_intr.
  intros (old & plan & _ & Hr & E & ->)%route_intr_done.
  assert (Hlt : (Z.to_nat V < length (intr_handlers s))%nat)
    by (eapply lookup_lt_Some; eauto).
  match goal with
  | |- context [_intr_unroute_intr _ _ ?s1] =>
      destruct (unroute_intr_done V handler s1 (handler :: old) Hr)
        as (s2 & Hret & Ht & Hc & Hi & _)
  end.
  { cbn [intr_handlers]. by apply list_lookup_insert_eq. }
  exists s2. split; [exact Hret|]. rewrite Ht, Hc, Hi.
  cbn [intr_handlers calls ioapics].
  rewrite unlink_head, list_insert_insert_eq.
  split; [by apply list_insert_id|done].
Qed.

Lemma unlink_filter handler (node : list Z) :
  filter (λ h, h ≠ handler) (unlink handler node) =
  filter (λ h, h ≠ handler) node.
Proof.
  induction node as [|h next IH]; [done|]. simpl.
  destruct (h =? handler) eqn:E.
  - apply Z.eqb_eq in E as ->. by rewrite filter_cons_False by naive_solver.
  - apply Z.eqb_neq in E. rewrite !filter_cons_True by done. by rewrite IH.
Qed.

Lemma unlink_length handler (node : list Z) :
  handler ∈ node → S (length (unlink handler node)) = length node.
Proof.
  induction node as [|h next IH]; [by intros ?%elem_of_nil|]. simpl.
  destruct (h =? handler) eqn:E; [done|].
  apply Z.eqb_neq in E. intros [?|Hin]%elem_of_cons; [congruence|].
  simpl. by rewrite IH.
Qed.

(** X4: [intr_unroute_intr] on a vector of the array returns and
    changes the chain of that vector only.  The nodes of other handlers
    stay, in their order; if the handler is in the chain the chain is
    one node shorter (a handler registered twice keeps one node), and
    if it is not the whole state is unchanged. *)
Theorem unroute_intr_removes_one V handler s old :
  0 ≤ V < INTERRUPTS →
  intr_handlers s !! Z.to_nat V = Some old →
  ∃ new s',
    intr_unroute_intr V handler s = Done tt s' ∧
    intr_handlers s' = <[Z.to_nat V := new]> (intr_handlers s) ∧
    calls s' = calls s ∧
    filter (λ h, h ≠ handler) new = filter (λ h, h ≠ handler) old ∧
    (handler ∈ old → S (length new) = length old) ∧
    (handler ∉ old → s' = s).
Proof.
  intros Hr E. unfold intr_unroute_intr.
  destruct (unroute_intr_done V handler s old Hr E)
    as (s' & Hret & Ht & Hc & _ & _ & _ & Hsame).
  exists (unlink handler old), s'. split; [exact Hret|].
  split; [done|]. split; [done|]. split; [apply unlink_filter|].
  split; [apply unlink_length|exact Hsame].
Qed.


(** X5: [intr_route_intr] on a vector of the array returns what
    [malloc] gave: false with the array of chains unchanged when the
    node could not be allocated, true with the handler put at the head
    of the chain of that vector otherwise.  No other chain changes and
    no controller is called. *)
Theorem route_intr_result V handler s :
  0 ≤ V < INTERRUPTS →
  length (intr_handlers s) = Z.to_nat INTERRUPTS →
  ∃ s',
    intr_route_intr V handler s = Done (hd false (malloc_plan s)) s' ∧
    calls s' = calls s ∧
    (∀ v, v ≠ Z.to_nat V → intr_handlers s' !! v = intr_handlers s !! v) ∧
    (hd false (malloc_plan s) = false → intr_handlers s' = intr_handlers s) ∧
    (hd false (malloc_plan s) = true →
       ∃ old, intr_handlers s !! Z.to_nat V = Some old ∧
              intr_handlers s' !! Z.to_nat V = Some (handler :: old)).
Proof.
  intros Hr Hl. unfold intr_route_intr, _intr_route_intr. kstep. unfold malloc.
  destruct (malloc_plan s) as [|[] plan] eqn:Ep; cbn [hd negb].
  - exists s. repeat split; try done.
  - destruct (load_head_in_range V (set_malloc_plan plan s) Hr Hl)
      as (old & E & ->).
    rewrite (store_head_at V _ _ old) by done.
    eexists. split; [done|]. cbn [calls intr_handlers set_intr_handlers
      set_malloc_plan] in *.
    split; [done|]. split.
    { intros v Hv. by rewrite list_lookup_insert_ne. }
    split; [done|]. intros _. exists old. split; [done|].
    apply list_lookup_insert_eq. eapply lookup_lt_Some; eauto.
  - eexists. split; [done|]. repeat split; try done.
Qed.

Lemma route_intr_frame intr handler s v :
  v ≠ Z.to_nat intr →
  intr_handlers (final (_intr_route_intr intr handler s)) !! v =
    intr_handlers s !! v.
Proof.
  intros Hv. unfold _intr_route_intr. kstep. unfold malloc.
  destruct (malloc_plan s) as [|[] plan]; cbn [negb]; try done.
  unfold load_head. case_bool_decide; [|done].
  cbn [intr_handlers set_malloc_plan].
  destruct (intr_handlers s !! Z.to_nat intr) as [old|] eqn:E; [|done].
  unfold store_head. rewrite bool_decide_eq_true_2 by done.
  cbn [intr_handlers set_malloc_plan]. rewrite E.
  cbn [final intr_handlers set_intr_handlers].
  by rewrite list_lookup_insert_ne.
Qed.

Lemma unroute_intr_frame intr handler s v :
  v ≠ Z.to_nat intr →
  intr_handlers (final (_intr_unroute_intr intr handler s)) !! v =
    intr_handlers s !! v.
Proof.
  intros Hv. unfold _intr_unroute_intr. kstep.
  unfold load_head. case_bool_decide; [|done].
  destruct (intr_handlers s !! Z.to_nat intr) as [old|] eqn:E; [|done].
  destruct (finds handler old); [|done].
  unfold store_head. rewrite bool_decide_eq_true_2 by done. rewrite E.
  cbn [final intr_handlers set_intr_handlers free modify set_free_log].
  by rewrite list_lookup_insert_ne.
Qed.

Lemma route_irq_loop_frame apics tuple handler intr s v :
  v ≠ Z.to_nat intr →
  intr_handlers (final (route_irq_loop apics tuple handler intr s)) !! v =
    intr_handlers s !! v.
Proof.
  intros Hv. induction apics as [|a apics IH]; [done|]. simpl.
  destruct (irq_belongs a (irq tuple)); [|done]. kstep.
  pose proof (route_intr_frame intr handler s v Hv) as Hf.
  destruct (_intr_route_intr intr handler s); done.
Qed.

Lemma vector_of_band line :
  0 < IRQS → IRQ0 ≤ vector_of line < IRQ0 + IRQS.
Proof.
  intros Hq. unfold vector_of.
  pose proof (Z.mod_pos_bound line IRQS Hq). lia.
Qed.

(** X6: [intr_route_irq] and [intr_unroute_irq] never change the chain
    of a vector outside the IRQ band [IRQ0, IRQ0 + IRQS), whatever the
    tuple, the handler and the outcome: the fault vectors below IRQ0 are
    out of their reach. *)
Theorem irq_routing_stays_in_band tuple handler s v :
  0 < IRQS → 0 ≤ IRQ0 → 0 ≤ v →
  ¬ (IRQ0 ≤ v < IRQ0 + IRQS) →
  intr_handlers (final (intr_route_irq tuple handler s)) !! Z.to_nat v =
    intr_handlers s !! Z.to_nat v ∧
  intr_handlers (final (intr_unroute_irq tuple handler s)) !! Z.to_nat v =
    intr_handlers s !! Z.to_nat v.
Proof.
  intros Hq H0 Hv0 Hv.
  pose proof (vector_of_band (irq tuple) Hq) as Hband.
  assert (Hne : Z.to_nat v ≠ Z.to_nat (vector_of (irq tuple))).
  { lia. }
  split.
  - unfold intr_route_irq. kstep. fold (vector_of (irq tuple)).
    by apply route_irq_loop_frame.
  - unfold intr_unroute_irq. kstep. rewrite unroute_irq_loop_log.
    fold (vector_of (irq tuple)).
    by rewrite unroute_intr_frame.
Qed.


Lemma route_intr_total intr handler s :
  0 ≤ intr < INTERRUPTS →
  length (intr_handlers s) = Z.to_nat INTERRUPTS →
  ∃ s',
    _intr_route_intr intr handler s = Done (hd false (malloc_plan s)) s' ∧
    calls s' = calls s.
Proof.
  intros Hr Hl. unfold _intr_route_intr. kstep. unfold malloc.
  destruct (malloc_plan s) as [|[] plan] eqn:Ep; cbn [hd negb].
  - by exists s.
  - destruct (load_head_in_range intr (set_malloc_plan plan s) Hr Hl)
      as (old & E & ->).
    rewrite (store_head_at intr _ _ old) by done. by eexists.
  - by eexists.
Qed.

Lemma route_irq_loop_result apics tuple handler intr s :
  0 ≤ intr < INTERRUPTS →
  length (intr_handlers s) = Z.to_nat INTERRUPTS →
  ∃ s',
    route_irq_loop apics tuple handler intr s =
      Done (match List.find (λ a, irq_belongs a (irq tuple)) apics with
            | Some _ => hd false (malloc_plan s)
            | None => false
            end) s' ∧
    calls s' =
      calls s ++
      match List.find (λ a, irq_belongs a (irq tuple)) apics with
      | Some apic => [(ioapic_route apic tuple intr, intr_handlers s')]
      | None => []
      end.
Proof.
  intros Hr Hl. induction apics as [|a apics IH]; simpl.
  - exists s. by rewrite app_nil_r.
  - destruct (irq_belongs a (irq tuple)); [|done]. kstep.
    destruct (route_intr_total intr handler s Hr Hl) as (s1 & Hret & Hc).
    rewrite Hret.
    eexists. split; [done|]. cbn [calls log_call intr_handlers].
    by rewrite Hc.
Qed.

(** X7: on a well-formed array [intr_route_irq] always returns.  Only
    the first controller the test of the loop accepts counts: the result
    is what [malloc] gave, and the one controller call made is
    [ioapic_route] on that controller for vector (irq mod IRQS) + IRQ0,
    after the attempt to install the handler.  With no such controller
    the result is false and no call is made. *)
Theorem route_irq_result tuple handler s :
  routable s →
  ∃ s',
    intr_route_irq tuple handler s =
      Done (match List.find (λ a, irq_belongs a (irq tuple)) (ioapics s) with
            | Some _ => hd false (malloc_plan s)
            | None => false
            end) s' ∧
    calls s' =
      calls s ++
      match List.find (λ a, irq_belongs a (irq tuple)) (ioapics s) with
      | Some apic =>
          [(ioapic_route apic tuple (vector_of (irq tuple)),
            intr_handlers s')]
      | None => []
      end.
Proof.
  intros Hw. unfold intr_route_irq. kstep. fold (vector_of (irq tuple)).
  apply route_irq_loop_result; [|apply Hw].
  by eapply vector_of_in_range.
Qed.

(** X8: [intr_unroute_irq] undoes a successful [intr_route_irq] of the
    same tuple and handler as far as the chains go: the array is the one
    before the registration.  The log holds the [ioapic_route] of the
    registration followed by an [ioapic_mask] on every controller the
    test accepts, all made while the handler was in its chain. *)
Theorem route_unroute_irq_round_trip tuple handler s s1 :
  intr_route_irq tuple handler s = Done true s1 →
  ∃ apic s2,
    apic ∈ ioapics s ∧ irq_belongs apic (irq tuple) = true ∧
    intr_unroute_irq tuple handler s1 = Done tt s2 ∧
    intr_handlers s2 = intr_handlers s ∧
    calls s2 =
      calls s ++
      (ioapic_route apic tuple (vector_of (irq tuple)), intr_handlers s1) ::
      ((λ a, (ioapic_mask a tuple, intr_handlers s1)) <$>
         filter (λ a, irq_belongs a (irq tuple) = true) (ioapics s)) ∧
    handler ∈ default [] (intr_handlers s1 !! Z.to_nat (vector_of (irq tuple))).
Proof.
  unfold intr_route_irq. kstep. fold (vector_of (irq tuple)).
  intros (apic & old & plan & Hin & Hb & _ & Hr & E & ->)%route_irq_loop_done.
  assert (Hlt : (Z.to_nat (vector_of (irq tuple)) < length (intr_handlers s))%nat)
    by (eapply lookup_lt_Some; eauto).
  exists apic.
  match goal with
  | |- context [intr_unroute_irq _ _ ?s1] =>
      destruct (unroute_irq_done tuple handler s1 (handler :: old) Hr)
        as (s2 & Hret & Hc & Ht & _)
  end.
  { cbn [intr_handlers log_call]. by apply list_lookup_insert_eq. }
  exists s2. split; [done|]. split; [done|]. split; [exact Hret|].
  rewrite Ht, Hc.
  cbn [intr_handlers calls ioapics log_call].
  rewrite unlink_head, list_insert_insert_eq.
  split; [by apply list_insert_id|].
  split; [by rewrite <- app_assoc|].
  rewrite list_lookup_insert_eq by done. simpl. by left.
Qed.

(** X9: a handler cannot be registered on the last line of a
    controller.  When every controller record has at least one line and
    that controller is the only one whose range contains the line,
    [intr_route_irq] returns false and changes nothing, since the loop
    tests [irq < irq_base + irqs - 1]. *)
Theorem route_irq_refuses_last_line tuple handler s apic :
  (∀ a, a ∈ ioapics s → has_lines a) →
  apic ∈ ioapics s →
  irq tuple = irq_base apic + irqs apic - 1 →
  (∀ a, a ∈ ioapics s → owns a (irq tuple) → a = apic) →
  intr_route_irq tuple handler s = Done false s.
Proof.
  intros Hlines Hin Hlast Huniq. unfold intr_route_irq. kstep.
  apply route_irq_loop_none. intros a Ha.
  destruct (irq_belongs a (irq tuple)) eqn:Hb; [|done].
  apply irq_belongs_owns in Hb as Ho; [|by apply Hlines].
  apply Huniq in Ho as ->; [|done].
  by apply (last_line_rejected apic (irq tuple)) in Hb; [|apply Hlines|].
Qed.

End router_more.

(** ** More on the kernel heap *)

Section heap_more.
Context `{heap_consts}.

(** [find_node_split_done] again, saying in full which nodes are left
    alone: a null successor excludes nothing. *)
Lemma find_node_split_state s node size n phy rest :
  let new_node := uintptr (node + size + FRAME_SIZE) in
  peek s node = Some n →
  frames s = phy :: rest → phy ≠ 0 →
  new_node ∉ vmm_refused s →
  new_node ≠ node →
  (node_next n = 0 ∨
   node_next n ≠ node ∧ node_next n ≠ new_node ∧
   is_Some (peek s (node_next n))) →
  ∃ s',
    find_node_split node size s = Done tt s' ∧
    pages s' = <[new_node := (phy, Z.lor PG_WRITABLE PG_NO_EXEC)]> (pages s) ∧
    frames s' = rest ∧ freed s' = freed s ∧ heap_root s' = heap_root s ∧
    vmm_refused s' = vmm_refused s ∧
    peek s' new_node = Some (split_node node size n) ∧
    peek s' node = Some (set_next new_node (set_end new_node n)) ∧
    (∀ nx, node_next n ≠ 0 → peek s (node_next n) = Some nx →
       peek s' (node_next n) = Some (set_prev new_node nx)) ∧
    (∀ a, a ≠ node → a ≠ new_node →
       (node_next n ≠ 0 → a ≠ node_next n) →
       peek s' a = peek s a).
Proof.
  intros new_node Hn Hfr Hphy Hok Hne Hnext.
  pose proof (peek_mapped _ _ _ Hn) as Hmn.
  unfold find_node_split. kstep. unfold pmm_alloc. rewrite Hfr.
  apply Z.eqb_neq in Hphy. rewrite Hphy.
  unfold vmm_map. cbn [vmm_refused set_frames].
  rewrite bool_decide_eq_false_2 by done. cbn [negb].
  fold new_node. clearbody new_node.
  set (s2 := set_pages _ _).
  assert (Hp2 : ∀ a, pages s2 !! a =
            if decide (new_node = a) then Some (phy, Z.lor PG_WRITABLE PG_NO_EXEC)
            else pages s !! a).
  { intros a. unfold s2. cbn. apply lookup_insert. }
  assert (Hk2 : ∀ a, a ≠ new_node → peek s2 a = peek s a).
  { intros a Ha. unfold peek. rewrite Hp2. by rewrite decide_False by done. }
  rewrite (load_peek s2 node n) by (by rewrite Hk2).
  rewrite store_mapped by (rewrite Hp2, decide_True by done; eauto).
  set (s3 := set_nodes _ s2).
  assert (Hm3 : ∀ a, is_Some (pages s3 !! a) ↔ is_Some (pages s2 !! a)) by done.
  assert (Hk3n : peek s3 node = Some n).
  { unfold s3. rewrite peek_stored by (rewrite Hp2, decide_False by done; done).
    rewrite decide_False by done. by rewrite Hk2. }
  rewrite (update_peek s3 node _ n) by done.
  set (s4 := set_nodes _ s3).
  assert (Hk4n : peek s4 node = Some (set_end new_node n)).
  { unfold s4. rewrite peek_stored by (by eapply peek_mapped).
    by rewrite decide_True. }
  rewrite (update_peek s4 node _ _ Hk4n).
  set (s5 := set_nodes _ s4).
  assert (Hk5 : ∀ a, peek s5 a =
     if decide (a = node) then Some (set_next new_node (set_end new_node n))
     else if decide (a = new_node) then Some (split_node node size n)
     else peek s a).
  { intros a. unfold s5, s4, s3, peek. cbn [pages nodes set_nodes].
    rewrite Hp2. rewrite !lookup_insert. destruct Hmn as [pg Hpg].
    repeat case_decide; subst; rewrite ?Hpg; try done. }
  rewrite (load_peek s5 new_node (split_node node size n)).
  2:{ rewrite Hk5. rewrite decide_False by done. by rewrite decide_True. }
  cbn [node_next split_node].
  destruct (node_next n =? 0) eqn:Hz.
  - apply Z.eqb_eq in Hz. exists s5. split; [done|].
    do 5 (split; [done|]).
    split; [rewrite Hk5, decide_False by done; by rewrite decide_True|].
    split; [by rewrite Hk5, decide_True|].
    split; [intros; congruence|].
    intros a Ha1 Ha2 _. rewrite Hk5. by rewrite !decide_False.
  - apply Z.eqb_neq in Hz. destruct Hnext as [|(Hx1 & Hx2 & [nx Hnx])]; [done|].
    rewrite (update_peek s5 (node_next n) _ nx).
    2:{ rewrite Hk5. by rewrite !decide_False. }
    set (s6 := set_nodes _ s5).
    assert (Hk6 : ∀ a, peek s6 a =
       if decide (a = node_next n) then Some (set_prev new_node nx)
       else peek s5 a).
    { intros a. destruct (decide (a = node_next n)) as [->|Ha].
      - unfold s6. rewrite peek_stored.
        + by rewrite decide_True.
        + eapply peek_mapped. rewrite Hk5. rewrite !decide_False by done. done.
      - unfold s6, peek. cbn [pages nodes set_nodes].
        rewrite lookup_insert_ne by done. done. }
    exists s6. split; [done|]. do 5 (split; [done|]).
    split; [rewrite Hk6, decide_False by done; rewrite Hk5, decide_False by done; by rewrite decide_True|].
    split; [rewrite Hk6, decide_False by done; by rewrite Hk5, decide_True|].
    split.
    + intros nx' _ Hnx'. rewrite Hk6, decide_True by done. congruence.
    + intros a Ha1 Ha2 Ha3. specialize (Ha3 Hz).
      rewrite Hk6, decide_False by done.
      rewrite Hk5. by rewrite !decide_False.
Qed.

Lemma heap_free_halves fuel ptr s :
  _heap_free fuel ptr s =
    (release_payload fuel (uintptr (ptr - FRAME_SIZE));;
     coalesce (uintptr (ptr - FRAME_SIZE))) s.
Proof.
  unfold _heap_free, release_payload, coalesce. kstep.
  destruct (load (uintptr (ptr - FRAME_SIZE)) s) as [n s0| | |]; try done.
Qed.

Lemma coalesce_alone s node n :
  peek s node = Some n →
  node_next n ≠ node → node_prev n ≠ node →
  not_free_at s (node_next n) → not_free_at s (node_prev n) →
  coalesce node s =
    Done tt (set_nodes (<[node := set_state HEAP_NODE_FREE n]> (nodes s)) s).
Proof.
  intros Hn Hnn Hpn Hnext Hprev.
  pose proof (peek_mapped _ _ _ Hn) as [pg Hpg].
  assert (Hnd : nodes s !! node = Some n).
  { unfold peek in Hn. by rewrite Hpg in Hn. }
  unfold coalesce. kstep.
  erewrite update_peek by done.
  erewrite load_peek by peek_solve.
  cbn [node_next node_prev set_state].
  assert (Hprev_part :
    (n0 ← load node;
     let prev := node_prev n0 in
     if prev =? 0 then mret tt
     else
       pv ← load prev;
       if node_state pv =? HEAP_NODE_FREE then
         n1 ← load node;
         update prev (set_next (node_next n1));;
         n2 ← load node;
         (if node_next n2 =? 0 then mret tt
          else update (node_next n2) (set_prev prev));;
         n3 ← load node;
         update prev (set_end (node_end n3));;
         phy ← vmm_unmap (node_next n);
         pmm_free phy
       else mret tt)
      (set_nodes (<[node := set_state HEAP_NODE_FREE n]> (nodes s)) s) =
    Done tt (set_nodes (<[node := set_state HEAP_NODE_FREE n]> (nodes s)) s)).
  { kstep. erewrite load_peek by peek_solve.
    cbn [node_next node_prev set_state].
    destruct Hprev as [->|(p & Hp & Hps)]; [done|].
    destruct (node_prev n =? 0); [done|].
    erewrite load_peek.
    2:{ unfold peek in *. cbn [pages nodes set_nodes].
        destruct (pages s !! node_prev n); [|done].
        by rewrite lookup_insert_ne. }
    apply Z.eqb_neq in Hps. by rewrite Hps. }
  destruct Hnext as [Hz|(x & Hx & Hxs)].
  - apply Z.eqb_eq in Hz as Hzb. rewrite Hzb. exact Hprev_part.
  - destruct (node_next n =? 0) eqn:Hzb; [exact Hprev_part|].
    erewrite load_peek.
    2:{ unfold peek in *. cbn [pages nodes set_nodes].
        destruct (pages s !! node_next n); [|done].
        by rewrite lookup_insert_ne. }
    apply Z.eqb_neq in Hxs. rewrite Hxs. exact Hprev_part.
Qed.


Lemma coalesce_next s node n x phy fl pgn :
  nodes s !! node = Some n → pages s !! node = Some pgn →
  node_next n ≠ 0 → node_next n ≠ node →
  nodes s !! node_next n = Some x →
  pages s !! node_next n = Some (phy, fl) →
  node_state x = HEAP_NODE_FREE →
  (node_next x = 0 ∨
   node_next x ≠ node ∧ node_next x ≠ node_next n ∧
   is_Some (peek s (node_next x))) →
  (node_prev n = 0 ∨
   node_prev n ≠ node ∧ node_prev n ≠ node_next n ∧
   node_prev n ≠ node_next x ∧
   ∃ p, peek s (node_prev n) = Some p ∧ node_state p ≠ HEAP_NODE_FREE) →
  ∃ s',
    coalesce node s = Done tt s' ∧
    nodes s' !! node =
      Some {| node_next := node_next x; node_prev := node_prev n;
              node_state := HEAP_NODE_FREE;
              node_start := node_start n; node_end := node_end x |} ∧
    (∀ xr, node_next x ≠ 0 → nodes s !! node_next x = Some xr →
       nodes s' !! node_next x = Some (set_prev node xr)) ∧
    (∀ a, a ≠ node → (node_next x ≠ 0 → a ≠ node_next x) →
       nodes s' !! a = nodes s !! a) ∧
    pages s' = delete (node_next n) (pages s) ∧
    freed s' = freed s ++ [phy] ∧ frames s' = frames s ∧
    heap_root s' = heap_root s ∧ vmm_refused s' = vmm_refused s.
Proof.
  intros Hn Hpn Hnext Hnn Hx Hpx Hxfree Hxx Hprev.
  assert (Hnn' : node ≠ node_next n) by congruence.
  unfold coalesce. kstep.
  erewrite update_peek by peek_solve.
  erewrite load_peek by peek_solve.
  cbn [node_next set_state].
  apply Z.eqb_neq in Hnext as Hnextb. rewrite Hnextb.
  erewrite load_peek by peek_solve.
  rewrite Hxfree. cbn [Z.eqb HEAP_NODE_FREE].
  erewrite update_peek by peek_solve.
  erewrite load_peek by peek_solve.
  assert (Hprev_done : ∀ s0 : heap_t,
    pages s0 = delete (node_next n) (pages s) →
    nodes s0 !! node =
      Some {| node_next := node_next x; node_prev := node_prev n;
              node_state := HEAP_NODE_FREE;
              node_start := node_start n; node_end := node_end x |} →
    (∀ a, a ≠ node → a ≠ node_next x → nodes s0 !! a = nodes s !! a) →
    (n0 ← load node;
     let prev := node_prev n0 in
     if prev =? 0 then mret tt
     else
       pv ← load prev;
       if node_state pv =? HEAP_NODE_FREE then
         n1 ← load node;
         update prev (set_next (node_next n1));;
         n2 ← load node;
         (if node_next n2 =? 0 then mret tt
          else update (node_next n2) (set_prev prev));;
         n3 ← load node;
         update prev (set_end (node_end n3));;
         phy ← vmm_unmap (node_next n);
         pmm_free phy
       else mret tt) s0 = Done tt s0).
  { intros s0 Hpg0 Hnd0 Hoth0. kstep.
    erewrite load_peek.
    2:{ unfold peek. rewrite Hpg0, lookup_delete_ne, Hpn by done. exact Hnd0. }
    cbn [node_prev].
    destruct Hprev as [->|(Hp1 & Hp2 & Hp3 & p & Hp & Hps)]; [done|].
    destruct (node_prev n =? 0); [done|].
    erewrite load_peek.
    2:{ unfold peek in *. rewrite Hpg0, lookup_delete_ne by done.
        destruct (pages s !! node_prev n); [|done].
        rewrite Hoth0 by done. exact Hp. }
    apply Z.eqb_neq in Hps. by rewrite Hps. }
  destruct (decide (node_next x = 0)) as [Hz|Hxnz].
  - apply Z.eqb_eq in Hz as Hzb. rewrite Hzb.
    erewrite load_peek by peek_solve.
    erewrite update_peek by peek_solve.
    unfold vmm_unmap. cbn [pages nodes set_nodes set_pages set_freed].
    rewrite Hpx. unfold pmm_free. kstep. cbn beta.
    eexists. split.
    { apply Hprev_done; [done| |].
      - cbn [pages nodes set_nodes set_pages set_freed]. by simplify_map_eq.
      - intros a Ha1 Ha2. cbn [pages nodes set_nodes set_pages set_freed].
        by simplify_map_eq. }
    cbn [pages nodes freed frames heap_root vmm_refused
         set_nodes set_pages set_freed].
    split; [by simplify_map_eq|].
    split; [intros xr Hc; done|].
    split; [intros a Ha1 Ha2; by simplify_map_eq|]. done.
  - destruct Hxx as [|(Hx1 & Hx2 & [xr Hxr])]; [done|].
    unfold peek in Hxr.
    destruct (pages s !! node_next x) as [pgx|] eqn:Hpxx; [|done].
    assert (Hx1' : node ≠ node_next x) by congruence.
    assert (Hx2' : node_next n ≠ node_next x) by congruence.
    apply Z.eqb_neq in Hxnz as Hxnzb. rewrite Hxnzb.
    erewrite update_peek by peek_solve.
    erewrite load_peek by peek_solve.
    erewrite update_peek by peek_solve.
    unfold vmm_unmap. cbn [pages nodes set_nodes set_pages set_freed].
    rewrite Hpx. unfold pmm_free. kstep. cbn beta.
    eexists. split.
    { apply Hprev_done; [done| |].
      - cbn [pages nodes set_nodes set_pages set_freed]. by simplify_map_eq.
      - intros a Ha1 Ha2. cbn [pages nodes set_nodes set_pages set_freed].
        by simplify_map_eq. }
    cbn [pages nodes freed frames heap_root vmm_refused
         set_nodes set_pages set_freed].
    split; [by simplify_map_eq|].
    split; [intros xr' _ Hxr'; by simplify_map_eq|].
    split; [intros a Ha1 Ha2; specialize (Ha2 Hxnz); by simplify_map_eq|].
    done.
Qed.


Lemma update_done node f s s' :
  update node f s = Done tt s' →
  ∃ n, peek s node = Some n ∧
       s' = set_nodes (<[node := f n]> (nodes s)) s.
Proof.
  unfold update. kstep. unfold load.
  destruct (peek s node) as [n|] eqn:Hn; [|done].
  pose proof (peek_mapped _ _ _ Hn) as Hm.
  rewrite store_mapped by done. intros [= <-]. eauto.
Qed.

Lemma find_node_from_sound fuel from size s node s' :
  find_node_from fuel from size s = Done node s' →
  (node = 0 → s' = s ∧ ∃ k, walks_to s size k from 0 = true) ∧
  (node ≠ 0 →
     ∃ k n n',
       walks_to s size k from node = true ∧
       peek s node = Some n ∧ node_state n = HEAP_NODE_FREE ∧
       size ≤ uintptr (node_end n - node_start n) ∧
       peek s' node = Some n' ∧ node_state n' = HEAP_NODE_RESERVED).
Proof.
  revert from. induction fuel as [|fuel IH]; intros from; [done|].
  cbn [find_node_from]. destruct (from =? 0) eqn:Hz.
  - apply Z.eqb_eq in Hz as ->. intros [= <- <-]. split; [|done].
    intros _. split; [done|]. by exists 0%nat.
  - kstep. unfold load. destruct (peek s from) as [n|] eqn:Hn; [|done].
    assert (Hstep : ∀ k, walks_to s size k (node_next n) node = true →
              passed_over n size = true →
              walks_to s size (S k) from node = true).
    { intros k Hw Hp. cbn [walks_to]. by rewrite Hz, Hn, Hp, Hw. }
    destruct (negb (node_state n =? HEAP_NODE_FREE)) eqn:Hst.
    { intros [Hnull Hsel]%IH. split.
      - intros Hn0. destruct (Hnull Hn0) as (-> & k & Hw). split; [done|].
        exists (S k). subst node. apply Hstep; [done|].
        unfold passed_over. by rewrite Hst.
      - intros Hn0. destruct (Hsel Hn0) as (k & n0 & n' & Hw & ?).
        exists (S k), n0, n'. split; [|done]. apply Hstep; [done|].
        unfold passed_over. by rewrite Hst. }
    destruct (uintptr (node_end n - node_start n) <? size) eqn:Hsize.
    { intros [Hnull Hsel]%IH. split.
      - intros Hn0. destruct (Hnull Hn0) as (-> & k & Hw). split; [done|].
        exists (S k). subst node. apply Hstep; [done|].
        unfold passed_over. rewrite Hsize. apply orb_true_r.
      - intros Hn0. destruct (Hsel Hn0) as (k & n0 & n' & Hw & ?).
        exists (S k), n0, n'. split; [|done]. apply Hstep; [done|].
        unfold passed_over. rewrite Hsize. apply orb_true_r. }
    set (split := if _ >=? _ then _ else _).
    destruct (split s) as [[] s1| | |] eqn:Hsplit; try done.
    destruct (update from (set_state HEAP_NODE_RESERVED) s1)
      as [[] s2| | |] eqn:Hup; try done.
    intros [= <- <-]. apply Z.eqb_neq in Hz. split; [done|]. intros _.
    apply update_done in Hup as (n1 & Hn1 & ->).
    exists 0%nat, n, (set_state HEAP_NODE_RESERVED n1).
    split; [cbn; by apply Z.eqb_eq|]. split; [done|].
    split; [apply negb_false_iff, Z.eqb_eq in Hst; done|].
    split; [by apply Z.ltb_ge|].
    split; [|done].
    rewrite peek_stored by (by eapply peek_mapped). by rewrite decide_True.
Qed.

(** X10: [find_node] is first fit.  When it returns a node, that node
    was free and large enough, every node before it in the list was in
    use or too small, and the node is now marked reserved.  When it
    returns null, every node of the list was in use or too small and
    the heap is unchanged. *)
Theorem find_node_first_fit fuel size s node s' :
  find_node fuel size s = Done node s' →
  (node = 0 → s' = s ∧ ∃ k, walks_to s size k (heap_root s) 0 = true) ∧
  (node ≠ 0 →
     ∃ k n n',
       walks_to s size k (heap_root s) node = true ∧
       peek s node = Some n ∧ node_state n = HEAP_NODE_FREE ∧
       size ≤ uintptr (node_end n - node_start n) ∧
       peek s' node = Some n' ∧ node_state n' = HEAP_NODE_RESERVED).
Proof. unfold find_node. kstep. apply find_node_from_sound. Qed.

Lemma find_node_null fuel size s k :
  walks_to s size k (heap_root s) 0 = true → (k < fuel)%nat →
  find_node fuel size s = Done 0 s.
Proof.
  intros Hw Hf. unfold find_node. kstep.
  rewrite (find_node_from_walk s size k _ 0 fuel Hw Hf).
  destruct (fuel - k)%nat eqn:Hd; [lia|done].
Qed.

(** X11: when every node of the list is in use or smaller than the
    page-aligned size, [heap_alloc] and [heap_reserve] return null and
    leave the heap, the page table and [pmm] unchanged. *)
Theorem heap_alloc_null fuel size flags phy_alloc s k :
  walks_to s (PAGE_ALIGN size) k (heap_root s) 0 = true →
  (k < fuel)%nat →
  _heap_alloc fuel size flags phy_alloc s = Done 0 s.
Proof.
  intros Hw Hf. unfold _heap_alloc. kstep.
  by rewrite (find_node_null fuel _ s k Hw Hf).
Qed.

(** The walk of [find_node] up to the node it selects. *)
Lemma find_node_at s size k node n fuel :
  walks_to s size k (heap_root s) node = true →
  node ≠ 0 → peek s node = Some n →
  node_state n = HEAP_NODE_FREE →
  size ≤ uintptr (node_end n - node_start n) →
  (k < fuel)%nat →
  find_node fuel size s =
    (((if uintptr (uintptr (node_end n - node_start n) - size)
           >=? FRAME_SIZE * 2
       then find_node_split node size else mret tt);;
      update node (set_state HEAP_NODE_RESERVED);;
      mret node) : kernel heap_t Z) s.
Proof.
  intros Hwalk Hnz Hn Hfree Hfit Hfuel. unfold find_node. kstep.
  rewrite (find_node_from_walk s size k _ node fuel Hwalk Hfuel).
  destruct (fuel - k)%nat as [|fuel'] eqn:Hd; [lia|]. cbn [find_node_from].
  apply Z.eqb_neq in Hnz. rewrite Hnz. kstep.
  rewrite (load_peek _ _ _ Hn). rewrite Hfree. cbn [negb Z.eqb HEAP_NODE_FREE].
  apply Z.ltb_ge in Hfit. by rewrite Hfit.
Qed.

(** X12: [find_node] does not split a fitting node that has less than
    two pages to spare: the node is reserved whole, with its range and
    links as they were, and no frame is taken from [pmm]. *)
Theorem find_node_whole s size k node n fuel :
  walks_to s size k (heap_root s) node = true →
  node ≠ 0 → peek s node = Some n →
  node_state n = HEAP_NODE_FREE →
  size ≤ uintptr (node_end n - node_start n) →
  uintptr (uintptr (node_end n - node_start n) - size) < FRAME_SIZE * 2 →
  (k < fuel)%nat →
  find_node fuel size s =
    Done node
      (set_nodes (<[node := set_state HEAP_NODE_RESERVED n]> (nodes s)) s).
Proof.
  intros Hwalk Hnz Hn Hfree Hfit Hextra Hfuel.
  rewrite (find_node_at s size k node n fuel) by done. kstep.
  assert (Hno : (uintptr (uintptr (node_end n - node_start n) - size)
                   >=? FRAME_SIZE * 2) = false).
  { rewrite Z.geb_leb. apply Z.leb_gt. lia. }
  rewrite Hno. by rewrite (update_peek s node _ n Hn).
Qed.


(** X13: when [pmm] has a frame, the 2 MiB-aligned end of the kernel
    image lies below the stack area and [vmm_map] accepts it,
    [heap_init] returns with a list of one free node: its header sits
    at the aligned address, on the frame taken from [pmm], and its
    range runs from the next page to [VM_STACK_OFFSET]. *)
Theorem heap_init_root _end s phy rest :
  frames s = phy :: rest → phy ≠ 0 →
  PAGE_ALIGN_2M _end < VM_STACK_OFFSET →
  PAGE_ALIGN_2M _end ∉ vmm_refused s →
  PAGE_ALIGN_2M _end ≠ 0 →
  ∃ s',
    heap_init _end s = Done tt s' ∧
    heap_root s' = PAGE_ALIGN_2M _end ∧
    heap_list s' 1 (heap_root s') =
      [(PAGE_ALIGN_2M _end,
        {| node_next := 0; node_prev := 0; node_state := HEAP_NODE_FREE;
           node_start := uintptr (PAGE_ALIGN_2M _end + FRAME_SIZE);
           node_end := VM_STACK_OFFSET |})] ∧
    pages s' =
      <[PAGE_ALIGN_2M _end := (phy, Z.lor PG_WRITABLE PG_NO_EXEC)]> (pages s) ∧
    frames s' = rest ∧ freed s' = freed s.
Proof.
  intros Hfr Hphy Hroom Hok Hnz. unfold heap_init. kstep.
  unfold pmm_alloc. rewrite Hfr. apply Z.eqb_neq in Hphy. rewrite Hphy.
  assert (Hge : (PAGE_ALIGN_2M _end >=? VM_STACK_OFFSET) = false).
  { rewrite Z.geb_leb. apply Z.leb_gt. lia. }
  rewrite Hge. unfold vmm_map.
  cbn [vmm_refused set_heap_root set_frames].
  rewrite bool_decide_eq_false_2 by done. cbn [negb].
  rewrite store_mapped.
  2:{ cbn [pages set_pages]. rewrite lookup_insert_eq. eauto. }
  eexists. split; [done|].
  cbn [heap_root pages frames freed set_nodes set_pages set_heap_root
       set_frames].
  split; [done|]. split; [|done].
  cbn [heap_list]. apply Z.eqb_neq in Hnz. rewrite Hnz.
  unfold peek. cbn [pages nodes set_nodes set_pages].
  by rewrite !lookup_insert_eq.
Qed.

(** X14: the three ways [heap_init] panics, with the message of each:
    [pmm] has no frame; the aligned end of the kernel image is not
    below [VM_STACK_OFFSET]; [vmm_map] refuses the root header.  In the
    last two the frame taken from [pmm] is not given back. *)
Theorem heap_init_panics _end s :
  (hd 0 (frames s) = 0 →
     heap_init _end s =
       Panic "couldn't allocate physical frame for heap root node" 0
         (set_frames (tail (frames s)) s)) ∧
  (∀ phy rest, frames s = phy :: rest → phy ≠ 0 →
     VM_STACK_OFFSET ≤ PAGE_ALIGN_2M _end →
     heap_init _end s = Panic "no room for heap" 0 (set_frames rest s)) ∧
  (∀ phy rest, frames s = phy :: rest → phy ≠ 0 →
     PAGE_ALIGN_2M _end < VM_STACK_OFFSET →
     PAGE_ALIGN_2M _end ∈ vmm_refused s →
     heap_init _end s =
       Panic "couldn't map heap root node into the virtual memory" 0
         (set_heap_root (PAGE_ALIGN_2M _end) (set_frames rest s))).
Proof.
  unfold heap_init. kstep. unfold pmm_alloc. split; [|split].
  - destruct (frames s) as [|phy rest] eqn:Hfr.
    + intros _. cbn [tail]. rewrite <- Hfr. by destruct s.
    + simpl. by intros ->.
  - intros phy rest -> Hphy Hroom. apply Z.eqb_neq in Hphy. rewrite Hphy.
    assert (Hge : (PAGE_ALIGN_2M _end >=? VM_STACK_OFFSET) = true)
      by (apply Z.geb_le; lia).
    by rewrite Hge.
  - intros phy rest -> Hphy Hroom Hbad. apply Z.eqb_neq in Hphy. rewrite Hphy.
    assert (Hge : (PAGE_ALIGN_2M _end >=? VM_STACK_OFFSET) = false).
    { rewrite Z.geb_leb. apply Z.leb_gt. lia. }
    rewrite Hge. unfold vmm_map.
    cbn [vmm_refused set_heap_root set_frames].
    by rewrite bool_decide_eq_true_2.
Qed.


Lemma free_pages_step fuel page end_ s :
  page < end_ →
  free_pages (S fuel) page end_ s =
    free_pages fuel (uintptr (page + FRAME_SIZE)) end_
      (set_freed (freed s ++ omap released [pages s !! page])
         (set_pages (delete page (pages s)) s)).
Proof.
  intros Hlt. cbn [free_pages]. apply Z.ltb_lt in Hlt. rewrite Hlt. kstep.
  unfold vmm_unmap. destruct (pages s !! page) as [[phy fl]|] eqn:Hpg.
  - simpl. destruct (phy =? 0) eqn:Hz.
    + f_equal. rewrite app_nil_r. by destruct s.
    + done.
  - simpl. f_equal. rewrite app_nil_r, delete_id by done. by destruct s.
Qed.

Lemma free_pages_spec fuel page end_ s (ms : list (option (Z * Z))) :
  0 < FRAME_SIZE → 0 ≤ page → end_ + FRAME_SIZE ≤ 2 ^ 64 →
  end_ = page + Z.of_nat (length ms) * FRAME_SIZE →
  (length ms < fuel)%nat →
  (∀ i m, ms !! i = Some m →
     pages s !! (page + Z.of_nat i * FRAME_SIZE) = m) →
  ∃ s',
    free_pages fuel page end_ s = Done tt s' ∧
    heap_root s' = heap_root s ∧ nodes s' = nodes s ∧
    frames s' = frames s ∧ vmm_refused s' = vmm_refused s ∧
    freed s' = freed s ++ omap released ms ∧
    (∀ i, (i < length ms)%nat →
       pages s' !! (page + Z.of_nat i * FRAME_SIZE) = None) ∧
    (∀ a, ¬ (page ≤ a < end_) → pages s' !! a = pages s !! a) ∧
    (∀ a, pages s !! a = None → pages s' !! a = None).
Proof.
  intros HF. revert fuel page s.
  induction ms as [|m ms IH]; intros fuel page s Hpage Hend Hlen Hfuel Hms.
  - destruct fuel as [|fuel]; [simpl in Hfuel; lia|]. cbn [free_pages].
    simpl in Hlen.
    assert (Hlt : (page <? end_) = false) by (apply Z.ltb_ge; lia).
    rewrite Hlt. exists s. rewrite app_nil_r.
    repeat split; try done. simpl. lia.
  - destruct fuel as [|fuel]; [simpl in Hfuel; lia|].
    cbn [length] in Hlen, Hfuel.
    rewrite free_pages_step by nia.
    rewrite (uintptr_small (page + FRAME_SIZE)) by nia.
    pose proof (Hms 0%nat m eq_refl) as Hm0.
    rewrite Z.mul_0_l, Z.add_0_r in Hm0. rewrite Hm0.
    destruct (IH fuel (page + FRAME_SIZE)
                (set_freed (freed s ++ omap released [m])
                   (set_pages (delete page (pages s)) s)))
      as (s' & -> & Hr & Hn & Hf & Hv & Hfd & Hin & Hout & Hmono);
      [lia|lia|lia|lia| |].
    { intros i m' Hi. cbn [pages set_freed set_pages].
      rewrite lookup_delete_ne by lia.
      replace (page + FRAME_SIZE + Z.of_nat i * FRAME_SIZE)
        with (page + Z.of_nat (S i) * FRAME_SIZE) by lia.
      by apply Hms. }
    exists s'. do 5 (split; [done|]).
    split.
    { rewrite Hfd. cbn [freed set_freed set_pages].
      rewrite <- app_assoc. f_equal.
      change (m :: ms) with ([m] ++ ms). by rewrite omap_app. }
    split.
    + intros [|i] Hi.
      * rewrite Z.mul_0_l, Z.add_0_r. rewrite Hout by lia.
        cbn [pages set_freed set_pages]. apply lookup_delete_eq.
      * replace (page + Z.of_nat (S i) * FRAME_SIZE)
          with (page + FRAME_SIZE + Z.of_nat i * FRAME_SIZE) by lia.
        apply Hin. simpl in Hi. lia.
    + split.
      * intros a Ha. rewrite Hout by lia. cbn [pages set_freed set_pages].
        apply lookup_delete_ne. lia.
      * intros a Ha. apply Hmono. cbn [pages set_freed set_pages].
        apply lookup_delete_None. by right.
Qed.

Lemma alloc_pages_ok fuel free_fuel node page end_ map_flags s fs rest :
  0 < FRAME_SIZE → 0 ≤ page → end_ + FRAME_SIZE ≤ 2 ^ 64 →
  end_ = page + Z.of_nat (length fs) * FRAME_SIZE →
  frames s = fs ++ rest → 0 ∉ fs →
  (∀ i, (i < length fs)%nat →
     page + Z.of_nat i * FRAME_SIZE ∉ vmm_refused s) →
  (length fs < fuel)%nat →
  ∃ s',
    alloc_pages fuel free_fuel node page end_ map_flags s = Done true s' ∧
    heap_root s' = heap_root s ∧ nodes s' = nodes s ∧
    frames s' = rest ∧ vmm_refused s' = vmm_refused s ∧
    freed s' = freed s ∧
    (∀ i phy, fs !! i = Some phy →
       pages s' !! (page + Z.of_nat i * FRAME_SIZE) = Some (phy, map_flags)) ∧
    (∀ a, ¬ (page ≤ a < end_) → pages s' !! a = pages s !! a) ∧
    (∀ a, (∀ i, (i < length fs)%nat →
             a ≠ page + Z.of_nat i * FRAME_SIZE) →
       pages s' !! a = pages s !! a).
Proof.
  intros HF. revert fuel page s.
  induction fs as [|phy fs IH]; intros fuel page s Hpage Hend Hlen Hfr Hnz
    Hok Hfuel.
  - destruct fuel as [|fuel]; [simpl in Hfuel; lia|]. cbn [alloc_pages].
    simpl in Hlen.
    assert (Hlt : (page <? end_) = false) by (apply Z.ltb_ge; lia).
    rewrite Hlt. exists s. repeat split; try done.
  - destruct fuel as [|fuel]; [simpl in Hfuel; lia|]. cbn [alloc_pages].
    cbn [length] in Hlen, Hok, Hfuel.
    assert (Hlt : (page <? end_) = true) by (apply Z.ltb_lt; nia).
    rewrite Hlt. kstep. unfold pmm_alloc. rewrite Hfr. cbn [app].
    apply not_elem_of_cons in Hnz as [Hphy Hnz].
    assert (Hphyb : (phy =? 0) = false) by (apply Z.eqb_neq; congruence).
    rewrite Hphyb. unfold vmm_map. cbn [vmm_refused set_frames].
    rewrite bool_decide_eq_false_2.
    2:{ specialize (Hok 0%nat). rewrite Z.mul_0_l, Z.add_0_r in Hok.
        apply Hok. lia. }
    cbn [negb].
    rewrite (uintptr_small (page + FRAME_SIZE)) by nia.
    destruct (IH fuel (page + FRAME_SIZE)
                (set_pages (<[page := (phy, map_flags)]>
                              (pages (set_frames (fs ++ rest) s)))
                   (set_frames (fs ++ rest) s)))
      as (s' & -> & Hr & Hn & Hf & Hv & Hfd & Hin & Hout & Honly);
      [lia|lia|lia|done|done| |lia|].
    { intros i Hi. cbn [vmm_refused set_pages set_frames].
      replace (page + FRAME_SIZE + Z.of_nat i * FRAME_SIZE)
        with (page + Z.of_nat (S i) * FRAME_SIZE) by lia.
      apply Hok. lia. }
    exists s'. do 6 (split; [done|]). split.
    + intros [|i] f Hf'.
      * simpl in Hf'. injection Hf' as <-.
        rewrite Z.mul_0_l, Z.add_0_r. rewrite Hout by lia.
        cbn [pages set_pages set_frames]. apply lookup_insert_eq.
      * simpl in Hf'.
        replace (page + Z.of_nat (S i) * FRAME_SIZE)
          with (page + FRAME_SIZE + Z.of_nat i * FRAME_SIZE) by lia.
        by apply Hin.
    + split.
      * intros a Ha. rewrite Hout by lia.
        cbn [pages set_pages set_frames]. apply lookup_insert_ne. lia.
      * intros a Ha. rewrite Honly.
        -- cbn [pages set_pages set_frames]. apply lookup_insert_ne.
           specialize (Ha 0%nat). cbn [length] in Ha. lia.
        -- intros i Hi. specialize (Ha (S i)). cbn [length] in Ha. lia.
Qed.

Lemma peek_nodes s a n :
  peek s a = Some n → nodes s !! a = Some n ∧ is_Some (pages s !! a).
Proof.
  unfold peek. destruct (pages s !! a); [|done]. eauto.
Qed.

Lemma not_free_at_same s s' link :
  (link ≠ 0 → peek s' link = peek s link) →
  not_free_at s link → not_free_at s' link.
Proof.
  intros Hsame [->|(n & Hn & Hst)]; [by left|].
  destruct (decide (link = 0)) as [->|Hnz]; [by left|].
  right. exists n. by rewrite Hsame.
Qed.

(** X15: [heap_free] of a node that is not allocated (a reserved
    range) whose neighbours are in use only marks the node free: no
    page is unmapped and no frame is returned. *)
Theorem heap_free_reserved fuel ptr s n :
  let node := uintptr (ptr - FRAME_SIZE) in
  peek s node = Some n →
  node_state n ≠ HEAP_NODE_ALLOCATED →
  node_next n ≠ node → node_prev n ≠ node →
  not_free_at s (node_next n) → not_free_at s (node_prev n) →
  heap_free fuel ptr s =
    Done tt (set_nodes (<[node := set_state HEAP_NODE_FREE n]> (nodes s)) s).
Proof.
  intros node Hn Hst Hnn Hpn Hnext Hprev.
  unfold heap_free. rewrite heap_free_halves. fold node.
  unfold release_payload. kstep. rewrite (load_peek _ _ _ Hn).
  apply Z.eqb_neq in Hst. rewrite Hst.
  by apply coalesce_alone.
Qed.

(** X16: [heap_free] of an allocated node whose neighbours are in use
    unmaps every page of its payload, returns to [pmm] the frames that
    were mapped there, in address order (an unmapped page returns
    nothing), and marks the node free.  The list, the headers and the
    pages outside the payload are as before. *)
Theorem heap_free_allocated fuel ptr s n (ms : list (option (Z * Z))) :
  let node := uintptr (ptr - FRAME_SIZE) in
  let outside a := ¬ (node_start n ≤ a < node_end n) in
  0 < FRAME_SIZE → 0 ≤ node_start n →
  node_end n + FRAME_SIZE ≤ 2 ^ 64 →
  node_end n = node_start n + Z.of_nat (length ms) * FRAME_SIZE →
  (length ms < fuel)%nat →
  (∀ i m, ms !! i = Some m →
     pages s !! (node_start n + Z.of_nat i * FRAME_SIZE) = m) →
  peek s node = Some n →
  node_state n = HEAP_NODE_ALLOCATED →
  node_next n ≠ node → node_prev n ≠ node →
  not_free_at s (node_next n) → not_free_at s (node_prev n) →
  outside node → outside (node_next n) → outside (node_prev n) →
  ∃ s',
    heap_free fuel ptr s = Done tt s' ∧
    nodes s' = <[node := set_state HEAP_NODE_FREE n]> (nodes s) ∧
    freed s' = freed s ++ omap released ms ∧
    frames s' = frames s ∧
    (∀ i, (i < length ms)%nat →
       pages s' !! (node_start n + Z.of_nat i * FRAME_SIZE) = None) ∧
    (∀ a, outside a → pages s' !! a = pages s !! a).
Proof.
  intros node outside HF Hstart Hend Hlen Hfuel Hms Hn Hst Hnn Hpn
    Hnext Hprev Hon Honx Hop.
  unfold heap_free. rewrite heap_free_halves. fold node.
  unfold release_payload. kstep. rewrite (load_peek _ _ _ Hn).
  rewrite Hst. cbn [Z.eqb HEAP_NODE_ALLOCATED Pos.eqb].
  destruct (free_pages_spec fuel (node_start n) (node_end n) s ms)
    as (s1 & -> & Hr1 & Hn1 & Hf1 & Hv1 & Hfd1 & Hin1 & Hout1 & _);
    try done.
  assert (Hk : ∀ a, outside a → peek s1 a = peek s a).
  { intros a Ha. unfold peek. by rewrite Hout1, Hn1. }
  rewrite (coalesce_alone s1 node n).
  - eexists. split; [done|]. cbn [nodes freed frames pages set_nodes].
    rewrite Hn1. done.
  - by rewrite Hk.
  - done.
  - done.
  - eapply not_free_at_same; [|exact Hnext]. intros _. by apply Hk.
  - eapply not_free_at_same; [|exact Hprev]. intros _. by apply Hk.
Qed.


(** X17: [heap_free] undoes [heap_reserve] where the heap is well formed
    around the node.  Let first fit select a free node, not null and
    less than a page below 2^64, with two pages or more to spare; let
    [pmm] have a frame and [vmm_map] accept the
    address of the new header, which is not mapped beforehand, is not
    null and is neither the node nor one of its neighbours; let the
    successor be null or have a mapped header that links back to the
    node, and the predecessor be null or have a mapped header that is
    not free.  Then [heap_reserve] returns the address one page above
    the node, [heap_free] of that address returns, and afterwards every
    header reads as before the reservation, the page table is the same,
    and the frame taken for the new header is back in [pmm]. *)
Theorem reserve_free_round_trip s size k node n fuel fuel' phy rest :
  let sz := PAGE_ALIGN size in
  let new_node := uintptr (node + sz + FRAME_SIZE) in
  0 < FRAME_SIZE →
  walks_to s sz k (heap_root s) node = true →
  0 < node → node + FRAME_SIZE < 2 ^ 64 →
  peek s node = Some n →
  node_state n = HEAP_NODE_FREE →
  sz ≤ uintptr (node_end n - node_start n) →
  FRAME_SIZE * 2 ≤ uintptr (uintptr (node_end n - node_start n) - sz) →
  (k < fuel)%nat →
  frames s = phy :: rest → phy ≠ 0 →
  new_node ∉ vmm_refused s → pages s !! new_node = None →
  new_node ≠ 0 → new_node ≠ node →
  (node_next n = 0 ∨
   node_next n ≠ node ∧ node_next n ≠ new_node ∧
   ∃ nx, peek s (node_next n) = Some nx ∧ node_prev nx = node) →
  (node_prev n = 0 ∨
   node_prev n ≠ node ∧ node_prev n ≠ new_node ∧
   node_prev n ≠ node_next n ∧
   ∃ p, peek s (node_prev n) = Some p ∧ node_state p ≠ HEAP_NODE_FREE) →
  ∃ s1 s2,
    heap_reserve fuel size s = Done (node + FRAME_SIZE) s1 ∧
    heap_free fuel' (node + FRAME_SIZE) s1 = Done tt s2 ∧
    (∀ a, peek s2 a = peek s a) ∧
    pages s2 = pages s ∧
    frames s2 = rest ∧ freed s2 = freed s ++ [phy] ∧
    heap_root s2 = heap_root s.
Proof.
  intros sz new_node HF Hwalk Hnode Htop Hn Hfree Hfit Hextra Hfuel Hfr Hphy
    Hok Hunmapped Hnew0 Hnewn Hnext Hprev.
  assert (Hnz : node ≠ 0) by lia.
  (* heap_reserve *)
  unfold heap_reserve, _heap_alloc. fold sz. kstep.
  rewrite (find_node_at s sz k node n fuel) by done. kstep.
  apply Z.geb_le in Hextra as Hextrab. rewrite Hextrab.
  destruct (find_node_split_state s node sz n phy rest) as
    (s1 & -> & Hpg1 & Hfr1 & Hfd1 & Hroot1 & Hrf1 & Hnew1 & Hnode1 & Hnx1
        & Hoth1); try done.
  { destruct Hnext as [?|(? & ? & nx & Hx & _)]; [by left|].
    right. by eauto. }
  fold new_node in Hpg1, Hnew1, Hnode1, Hnx1, Hoth1.
  rewrite (update_peek s1 node _ _ Hnode1).
  set (s1' := set_nodes _ s1).
  apply Z.eqb_neq in Hnz as Hnzb. rewrite Hnzb.
  rewrite (uintptr_small (node + FRAME_SIZE)) by lia.
  exists s1'.
  (* the state after heap_reserve *)
  set (n1 := set_state HEAP_NODE_RESERVED
               (set_next new_node (set_end new_node n))) in *.
  assert (Hpg1' : pages s1' = pages s1) by done.
  assert (Hnd1' : ∀ a, a ≠ node → nodes s1' !! a = nodes s1 !! a).
  { intros a Ha. unfold s1'. cbn [nodes set_nodes].
    by rewrite lookup_insert_ne. }
  assert (Hk1' : ∀ a, a ≠ node → peek s1' a = peek s1 a).
  { intros a Ha. unfold peek. by rewrite Hpg1', Hnd1'. }
  assert (Hnode1' : peek s1' node = Some n1).
  { unfold s1'. rewrite peek_stored by (by eapply peek_mapped).
    by rewrite decide_True. }
  destruct (peek_nodes _ _ _ Hnode1') as [Hnd_node [pgn Hpgn]].
  assert (Hnew1' : peek s1' new_node = Some (split_node node sz n))
    by (by rewrite Hk1').
  destruct (peek_nodes _ _ _ Hnew1') as [Hnd_new _].
  assert (Hpg_new : pages s1' !! new_node =
            Some (phy, Z.lor PG_WRITABLE PG_NO_EXEC)).
  { rewrite Hpg1', Hpg1. apply lookup_insert_eq. }
  (* heap_free *)
  unfold heap_free. rewrite heap_free_halves.
  replace (node + FRAME_SIZE - FRAME_SIZE) with node by lia.
  rewrite (uintptr_small node) by lia.
  unfold release_payload. kstep. rewrite (load_peek _ _ _ Hnode1').
  cbn [node_state n1 set_state Z.eqb HEAP_NODE_RESERVED HEAP_NODE_ALLOCATED
       Pos.eqb].
  destruct (coalesce_next s1' node n1 (split_node node sz n) phy
              (Z.lor PG_WRITABLE PG_NO_EXEC) pgn)
    as (s2 & -> & Hnode2 & Hnx2 & Hoth2 & Hpg2 & Hfd2 & Hfr2 & Hroot2 & _);
    try done.
  { cbn [node_next split_node].
    destruct (decide (node_next n = 0)) as [Hz|Hz]; [by left|].
    destruct Hnext as [?|(Hx1 & Hx2 & nx & Hx & Hback)]; [done|].
    right. split; [done|]. split; [done|].
    rewrite Hk1' by done. rewrite (Hnx1 nx) by done. eauto. }
  { cbn [node_prev node_next n1 set_state set_next set_end split_node].
    destruct Hprev as [?|(Hp1 & Hp2 & Hp3 & p & Hp & Hps)]; [by left|].
    right. do 3 (split; [done|]). exists p. split; [|done].
    rewrite Hk1' by done. by rewrite Hoth1. }
  cbn [node_prev node_next node_start node_end n1 set_state set_next
       set_end split_node] in Hnode2, Hnx2, Hoth2, Hpg2.
  exists s2. split; [done|]. split; [done|].
  assert (Hpages : pages s2 = pages s).
  { rewrite Hpg2, Hpg1', Hpg1. rewrite delete_insert_eq.
    by apply delete_id. }
  split; [|split; [done|split; [|split]]].
  2:{ rewrite Hfr2. exact Hfr1. }
  2:{ rewrite Hfd2. f_equal. exact Hfd1. }
  2:{ rewrite Hroot2. exact Hroot1. }
  intros a. unfold peek at 1. rewrite Hpages.
  destruct (decide (a = node)) as [->|Ha1].
  { rewrite Hnode2. destruct (peek_nodes _ _ _ Hn) as [Hnd [pg Hpg]].
    unfold peek. rewrite Hpg, Hnd.
    f_equal. destruct n. simpl in *. by subst. }
  destruct (decide (a = new_node)) as [->|Ha2].
  { unfold peek. by rewrite Hunmapped. }
  destruct (decide (node_next n ≠ 0 ∧ a = node_next n)) as [[Hxnz ->]|Ha3].
  { destruct Hnext as [?|(Hx1 & Hx2 & nx & Hx & Hback)]; [done|].
    destruct (peek_nodes _ _ _ Hx) as [Hndx [pgx Hpgx]].
    pose proof (Hnx1 nx Hxnz Hx) as Hx1s.
    destruct (peek_nodes _ _ _ Hx1s) as [Hndx1 _].
    rewrite (Hnx2 (set_prev new_node nx)); [|done|by rewrite Hnd1'].
    unfold peek. rewrite Hpgx, Hndx. f_equal.
    destruct nx. simpl in *. by subst. }
  assert (Ha3' : node_next n ≠ 0 → a ≠ node_next n) by tauto.
  rewrite Hoth2 by done. rewrite Hnd1' by done.
  specialize (Hoth1 a Ha1 Ha2 Ha3').
  unfold peek in Hoth1 |- *. rewrite Hpg1 in Hoth1.
  rewrite lookup_insert_ne in Hoth1 by done.
  by destruct (pages s !! a).
Qed.

Lemma map_flags_eq flags :
  (let map_flags := 0 in
   let map_flags :=
     if Z.land flags HEAP_W =? 0 then map_flags
     else Z.lor map_flags PG_WRITABLE in
   let map_flags :=
     if Z.land flags HEAP_X =? 0 then Z.lor map_flags PG_NO_EXEC
     else map_flags in
   map_flags) =
  Z.lor (if Z.land flags HEAP_W =? 0 then 0 else PG_WRITABLE)
        (if Z.land flags HEAP_X =? 0 then PG_NO_EXEC else 0).
Proof.
  cbv zeta. destruct (Z.land flags HEAP_W =? 0), (Z.land flags HEAP_X =? 0);
    by rewrite ?Z.lor_0_l, ?Z.lor_0_r.
Qed.



Lemma released_mapped (fs : list Z) (fl : Z) :
  0 ∉ fs → omap released ((λ f, Some (f, fl)) <$> fs) = fs.
Proof.
  induction fs as [|f fs IH]; [done|].
  intros [Hf Hfs]%not_elem_of_cons. cbn.
  assert (Hfb : (f =? 0) = false) by (apply Z.eqb_neq; congruence).
  rewrite Hfb. f_equal. by apply IH.
Qed.

(** X19: [heap_free] undoes [heap_alloc] where the heap is well formed
    around the node.  Let first fit select a free node, whose range
    starts one page above its header and ends a page or more below
    2^64, with two pages or more to spare;
    let no address from the start of its range to the new header be
    mapped beforehand, and [vmm_map] accept them all; let [pmm] hand out
    a frame for the new header and one for each page; let the successor
    be null or lie above the new header, with a mapped header that links
    back to the node, and the predecessor be null or lie below the node,
    with a mapped header that is not free.  Then [heap_alloc] returns
    the address one page above the node with the payload backed by the
    frames handed out, [heap_free] of that address returns, and
    afterwards all those frames are back in [pmm], payload frames first
    and the frame of the new header last, every header reads as before
    the allocation and the page table is the same. *)
Theorem alloc_free_round_trip s size flags k node n fuel phy fs rest :
  let sz := PAGE_ALIGN size in
  let new_node := node + sz + FRAME_SIZE in
  0 < FRAME_SIZE →
  walks_to s sz k (heap_root s) node = true →
  0 < node →
  peek s node = Some n →
  node_state n = HEAP_NODE_FREE →
  node_start n = node + FRAME_SIZE →
  node_start n ≤ node_end n → node_end n + FRAME_SIZE ≤ 2 ^ 64 →
  sz = Z.of_nat (length fs) * FRAME_SIZE →
  sz + FRAME_SIZE * 2 ≤ node_end n - node_start n →
  (k < fuel)%nat → (length fs < fuel)%nat →
  frames s = phy :: fs ++ rest → phy ≠ 0 → 0 ∉ fs →
  (∀ a, node_start n ≤ a ≤ new_node →
     pages s !! a = None ∧ a ∉ vmm_refused s) →
  (node_next n = 0 ∨
   new_node < node_next n ∧
   ∃ nx, peek s (node_next n) = Some nx ∧ node_prev nx = node) →
  (node_prev n = 0 ∨
   node_prev n < node ∧
   ∃ p, peek s (node_prev n) = Some p ∧ node_state p ≠ HEAP_NODE_FREE) →
  ∃ s1 s2,
    heap_alloc fuel size flags s = Done (node + FRAME_SIZE) s1 ∧
    (∀ i f, fs !! i = Some f →
       ∃ fl, pages s1 !! (node_start n + Z.of_nat i * FRAME_SIZE) =
               Some (f, fl)) ∧
    heap_free fuel (node + FRAME_SIZE) s1 = Done tt s2 ∧
    (∀ a, peek s2 a = peek s a) ∧
    pages s2 = pages s ∧
    frames s2 = rest ∧ freed s2 = freed s ++ fs ++ [phy] ∧
    heap_root s2 = heap_root s.
Proof.
  intros sz new_node HF Hwalk Hnode Hn Hfree Hstart Hrange Htop Hsz Hroom
    Hfuel Hfuel' Hfr Hphy Hfs Hfresh Hnext Hprev.
  assert (Hnz : node ≠ 0) by lia.
  assert (Hlen0 : 0 ≤ sz) by lia.
  assert (Hsize : uintptr (node_end n - node_start n) =
                    node_end n - node_start n) by (apply uintptr_small; lia).
  assert (Hnew : uintptr (node + sz + FRAME_SIZE) = new_node)
    by (apply uintptr_small; unfold new_node; lia).
  assert (Hnew_unmapped : pages s !! new_node = None)
    by (apply Hfresh; unfold new_node; lia).
  assert (Hnew_ok : new_node ∉ vmm_refused s)
    by (apply Hfresh; unfold new_node; lia).
  assert (Hnext' : node_next n = 0 ∨
            node_next n ≠ node ∧ node_next n ≠ new_node ∧
            is_Some (peek s (node_next n))).
  { destruct Hnext as [?|(? & nx & Hx & _)]; [by left|].
    right. unfold new_node in *. split; [lia|]. split; [lia|]. eauto. }
  (* heap_alloc: find_node *)
  unfold heap_alloc, _heap_alloc. fold sz. kstep.
  rewrite (find_node_at s sz k node n fuel) by (done || lia). kstep.
  rewrite Hsize.
  assert (Hextrab : (uintptr (node_end n - node_start n - sz)
                       >=? FRAME_SIZE * 2) = true).
  { apply Z.geb_le. rewrite uintptr_small by lia. lia. }
  rewrite Hextrab.
  destruct (find_node_split_state s node sz n phy (fs ++ rest)) as
    (s1 & -> & Hpg1 & Hfr1 & Hfd1 & Hroot1 & Hrf1 & Hnew1 & Hnode1 & Hnx1
        & Hoth1); try done; rewrite ?Hnew; try done.
  { unfold new_node. lia. }
  rewrite Hnew in Hpg1, Hnew1, Hnode1, Hnx1, Hoth1.
  rewrite (update_peek s1 node _ _ Hnode1).
  apply Z.eqb_neq in Hnz as Hnzb. rewrite Hnzb.
  (* heap_alloc: the pages *)
  set (sa := set_nodes _ s1).
  assert (Hsa : peek sa node =
            Some (set_state HEAP_NODE_RESERVED
                    (set_next new_node (set_end new_node n)))).
  { unfold sa. rewrite peek_stored by (by eapply peek_mapped).
    by rewrite decide_True. }
  rewrite (update_peek sa node _ _ Hsa).
  set (n2 := set_state HEAP_NODE_ALLOCATED _).
  set (sb := set_nodes _ sa).
  assert (Hsb : peek sb node = Some n2).
  { unfold sb. rewrite peek_stored by (by eapply peek_mapped).
    by rewrite decide_True. }
  rewrite (load_peek _ _ _ Hsb).
  cbn [node_start n2 set_state set_next set_end].
  pose proof (map_flags_eq flags) as Hflags. cbv zeta in Hflags.
  rewrite Hflags. clear Hflags.
  set (fl := Z.lor _ _).
  rewrite (uintptr_small (node_start n + sz)) by lia.
  destruct (alloc_pages_ok fuel fuel node (node_start n) (node_start n + sz)
              fl sb fs rest)
    as (s3 & -> & Hr3 & Hnd3 & Hfr3 & Hv3 & Hfd3 & Hin3 & Hout3 & Honly3);
    try done; try lia.
  { intros i Hi. cbn [vmm_refused sb sa set_nodes]. rewrite Hrf1.
    apply Hfresh. unfold new_node. nia. }
  cbn [negb]. rewrite (uintptr_small (node + FRAME_SIZE)) by lia.
  exists s3.
  assert (Hnd_sb : ∀ a, a ≠ node → nodes sb !! a = nodes s1 !! a).
  { intros a Ha. unfold sb, sa. cbn [nodes set_nodes].
    by rewrite !lookup_insert_ne. }
  assert (Hpg_sb : pages sb = pages s1) by done.
  assert (Hpg3 : ∀ a, ¬ (node_start n ≤ a < node_start n + sz) →
            pages s3 !! a = pages s1 !! a).
  { intros a Ha. by rewrite Hout3, Hpg_sb. }
  assert (Hnode_s3 : nodes s3 !! node = Some n2).
  { rewrite Hnd3. unfold sb. cbn [nodes set_nodes]. apply lookup_insert_eq. }
  destruct (peek_nodes _ _ _ Hn) as [Hnd_n [pgn Hpgn]].
  assert (Hpg_node_s1 : pages s1 !! node = Some pgn).
  { rewrite Hpg1, lookup_insert_ne by (unfold new_node; lia). done. }
  assert (Hpg_new_s1 : pages s1 !! new_node =
            Some (phy, Z.lor PG_WRITABLE PG_NO_EXEC)).
  { rewrite Hpg1. apply lookup_insert_eq. }
  destruct (peek_nodes _ _ _ Hnew1) as [Hnd_new_s1 _].
  cut (∃ s2,
         heap_free fuel (node + FRAME_SIZE) s3 = Done tt s2 ∧
         (∀ a, peek s2 a = peek s a) ∧ pages s2 = pages s ∧
         frames s2 = rest ∧ freed s2 = freed s ++ fs ++ [phy] ∧
         heap_root s2 = heap_root s).
  { intros (s2 & Hret). exists s2. split; [done|]. split; [|done].
    intros i f Hi. exists fl. by apply Hin3. }
  (* heap_free: the pages *)
  unfold heap_free. rewrite heap_free_halves.
  replace (node + FRAME_SIZE - FRAME_SIZE) with node by lia.
  rewrite (uintptr_small node) by lia.
  unfold release_payload. kstep.
  rewrite (load_peek s3 node n2).
  2:{ unfold peek. rewrite Hpg3, Hpg_node_s1 by lia. done. }
  cbn [node_state node_start node_end n2 set_state set_next set_end Z.eqb
       HEAP_NODE_ALLOCATED Pos.eqb].
  destruct (free_pages_spec fuel (node_start n) new_node s3
              ((λ f, Some (f, fl)) <$> fs))
    as (s4 & -> & Hr4 & Hnd4 & Hfr4 & Hv4 & Hfd4 & Hin4 & Hout4 & Hmono4);
    try done; try (unfold new_node; lia).
  { rewrite length_fmap. unfold new_node. lia. }
  { by rewrite length_fmap. }
  { intros i m Hi. rewrite list_lookup_fmap in Hi.
    destruct (fs !! i) as [f|] eqn:Hf; [|done]. injection Hi as <-.
    by apply Hin3. }
  rewrite length_fmap in Hin4. rewrite released_mapped in Hfd4 by done.
  assert (Hpg4 : ∀ a, ¬ (node_start n ≤ a < new_node) →
            pages s4 !! a = pages s1 !! a).
  { intros a Ha. rewrite Hout4 by done. apply Hpg3. unfold new_node in Ha.
    lia. }
  (* heap_free: coalescing with the split-off node *)
  destruct (coalesce_next s4 node n2 (split_node node sz n) phy
              (Z.lor PG_WRITABLE PG_NO_EXEC) pgn)
    as (s5 & -> & Hnode5 & Hnx5 & Hoth5 & Hpg5 & Hfd5 & Hfr5 & Hroot5 & _).
  { by rewrite Hnd4. }
  { rewrite Hpg4 by lia. done. }
  { cbn [node_next n2 set_state set_next set_end]. unfold new_node. lia. }
  { cbn [node_next n2 set_state set_next set_end]. unfold new_node. lia. }
  { cbn [node_next n2 set_state set_next set_end].
    rewrite Hnd4, Hnd3, Hnd_sb by (unfold new_node; lia). done. }
  { cbn [node_next n2 set_state set_next set_end].
    rewrite Hpg4 by (unfold new_node; lia). done. }
  { done. }
  { cbn [node_next n2 set_state set_next set_end split_node].
    destruct (decide (node_next n = 0)) as [Hz|Hz]; [by left|].
    destruct Hnext as [?|(Hx1 & nx & Hx & Hback)]; [done|].
    right. unfold new_node in Hx1. split; [lia|]. split; [unfold new_node; lia|].
    exists (set_prev new_node nx). unfold peek.
    rewrite Hpg4 by lia. rewrite Hnd4, Hnd3, Hnd_sb by lia.
    pose proof (Hnx1 nx Hz Hx) as Hx1s. exact Hx1s. }
  { cbn [node_prev node_next n2 set_state set_next set_end split_node].
    destruct (decide (node_prev n = 0)) as [Hp0|Hp0]; [by left|].
    destruct Hprev as [?|(Hp1 & p & Hp & Hps)]; [done|].
    assert (Hpnx : node_prev n ≠ node_next n).
    { destruct Hnext as [->|(? & _)]; unfold new_node in *; lia. }
    right. unfold new_node.
    split; [lia|]. split; [lia|]. split; [done|].
    exists p. split; [|done]. unfold peek.
    rewrite Hpg4 by lia. rewrite Hnd4, Hnd3, Hnd_sb by lia.
    rewrite <- Hp. apply Hoth1; [lia|unfold new_node; lia|done]. }
  cbn [node_prev node_next node_start node_end n2 set_state set_next
       set_end split_node] in Hnode5, Hnx5, Hoth5, Hpg5.
  exists s5. split; [done|].
  assert (Hpages : pages s5 = pages s).
  { apply map_eq. intros a. rewrite Hpg5.
    destruct (decide (a = new_node)) as [->|Ha].
    { by rewrite lookup_delete_eq. }
    rewrite lookup_delete_ne by done.
    destruct (decide (node_start n ≤ a < new_node)) as [Hin|Hout].
    - assert (Hnone : pages s !! a = None) by (apply Hfresh; lia).
      rewrite Hnone.
      destruct (decide ((a - node_start n) mod FRAME_SIZE = 0)) as [Hm|Hm].
      + apply Z.mod_divide in Hm; [|lia]. destruct Hm as [q Hq].
        assert (Ha' : a = node_start n + Z.of_nat (Z.to_nat q) * FRAME_SIZE)
          by (rewrite Z2Nat.id; nia).
        rewrite Ha'. apply Hin4. unfold new_node in Hin. nia.
      + apply Hmono4. rewrite Honly3.
        * rewrite Hpg_sb, Hpg1, lookup_insert_ne by done. done.
        * intros i Hi ->. apply Hm.
          replace (node_start n + Z.of_nat i * FRAME_SIZE - node_start n)
            with (Z.of_nat i * FRAME_SIZE) by lia.
          apply Z_mod_mult.
    - rewrite Hpg4 by done. rewrite Hpg1. by rewrite lookup_insert_ne. }
  split; [|split; [done|split; [|split]]].
  2:{ rewrite Hfr5, Hfr4. exact Hfr3. }
  2:{ rewrite Hfd5, Hfd4, Hfd3. cbn [freed sb sa set_nodes]. rewrite Hfd1.
      by rewrite <- app_assoc. }
  2:{ rewrite Hroot5, Hr4, Hr3. exact Hroot1. }
  intros a. unfold peek at 1. rewrite Hpages.
  destruct (decide (a = node)) as [->|Ha1].
  { rewrite Hnode5. unfold peek. rewrite Hpgn, Hnd_n.
    f_equal. destruct n. simpl in *. by subst. }
  destruct (decide (a = new_node)) as [->|Ha2].
  { unfold peek. by rewrite Hnew_unmapped. }
  destruct (decide (node_next n ≠ 0 ∧ a = node_next n)) as [[Hxnz ->]|Ha3].
  { destruct Hnext as [?|(Hx1 & nx & Hx & Hback)]; [done|].
    destruct (peek_nodes _ _ _ Hx) as [Hndx [pgx Hpgx]].
    pose proof (Hnx1 nx Hxnz Hx) as Hx1s.
    destruct (peek_nodes _ _ _ Hx1s) as [Hndx1 _].
    rewrite (Hnx5 (set_prev new_node nx)); [|done|].
    2:{ rewrite Hnd4, Hnd3, Hnd_sb by done. done. }
    unfold peek. rewrite Hpgx, Hndx. f_equal.
    destruct nx. simpl in *. by subst. }
  assert (Ha3' : node_next n ≠ 0 → a ≠ node_next n) by tauto.
  rewrite Hoth5 by done. rewrite Hnd4, Hnd3, Hnd_sb by done.
  specialize (Hoth1 a Ha1 Ha2 Ha3').
  unfold peek in Hoth1 |- *. rewrite Hpg1 in Hoth1.
  rewrite lookup_insert_ne in Hoth1 by done.
  by destruct (pages s !! a).
Qed.

End heap_more.

(** ** The ISA lines *)

Section isa.
Context `{isa_consts}.

Lemma isa_init_from_spec fuel line (isa_irqs : list irq_tuple_t) :
  0 ≤ line ≤ ISA_INTR_LINES →
  Z.of_nat (length isa_irqs) = ISA_INTR_LINES →
  (ISA_INTR_LINES - line < Z.of_nat fuel) →
  ∃ isa_irqs',
    isa_init_from fuel line isa_irqs = Done tt isa_irqs' ∧
    length isa_irqs' = length isa_irqs ∧
    (∀ l, 0 ≤ l < line → isa_irqs' !! Z.to_nat l = isa_irqs !! Z.to_nat l) ∧
    (∀ l, line ≤ l < ISA_INTR_LINES →
       isa_irqs' !! Z.to_nat l = Some (isa_tuple l)).
Proof.
  revert line isa_irqs.
  induction fuel as [|fuel IH]; intros line isa_irqs Hline Hlen Hfuel; [lia|].
  cbn [isa_init_from].
  destruct (line <? ISA_INTR_LINES) eqn:Hlt.
  - apply Z.ltb_lt in Hlt. kstep. unfold isa_store.
    rewrite bool_decide_eq_true_2 by lia.
    destruct (lookup_lt_is_Some_2 isa_irqs (Z.to_nat line)) as [t Ht]; [lia|].
    rewrite Ht.
    destruct (IH (line + 1)
                (<[Z.to_nat line := isa_tuple line]> isa_irqs))
      as (arr' & Hrun & Hlen' & Hlow & Hhigh);
      [lia|by rewrite length_insert|lia|].
    exists arr'. split; [exact Hrun|].
    rewrite length_insert in Hlen'. split; [done|]. split.
    + intros l Hl. rewrite Hlow by lia.
      apply list_lookup_insert_ne. lia.
    + intros l Hl. destruct (decide (l = line)) as [->|Hne].
      * rewrite Hlow by lia. apply list_lookup_insert_eq. lia.
      * apply Hhigh. lia.
  - apply Z.ltb_ge in Hlt. exists isa_irqs. split; [done|]. split; [done|].
    split; [done|]. intros l Hl. lia.
Qed.

(** X20: after [isa_init], whatever the array held before, [isa_irq]
    returns for every line below ISA_INTR_LINES the default tuple of an
    ISA line (GSI equal to the line, active high, edge triggered), and
    panics with the line number for every other line. *)
Theorem isa_init_defaults fuel (isa_irqs : list irq_tuple_t) :
  Z.of_nat (length isa_irqs) = ISA_INTR_LINES →
  ISA_INTR_LINES < Z.of_nat fuel →
  ∃ isa_irqs',
    isa_init fuel isa_irqs = Done tt isa_irqs' ∧
    length isa_irqs' = length isa_irqs ∧
    (∀ line, 0 ≤ line < ISA_INTR_LINES →
       isa_irq line isa_irqs' = Done (isa_tuple line) isa_irqs') ∧
    (∀ line, ISA_INTR_LINES ≤ line →
       isa_irq line isa_irqs' =
         Panic "invalid ISA interrupt line %d" line isa_irqs').
Proof.
  intros Hlen Hfuel.
  destruct (isa_init_from_spec fuel 0 isa_irqs)
    as (arr' & Hrun & Hlen' & _ & Hall); [lia|done|lia|].
  exists arr'. split; [exact Hrun|]. split; [done|]. split.
  - intros line Hl. unfold isa_irq.
    assert (Hge : (line >=? ISA_INTR_LINES) = false)
      by (rewrite Z.geb_leb; apply Z.leb_gt; lia).
    rewrite Hge. rewrite bool_decide_eq_true_2 by lia.
    by rewrite Hall.
  - intros line Hl. unfold isa_irq.
    assert (Hge : (line >=? ISA_INTR_LINES) = true) by (apply Z.geb_le; lia).
    by rewrite Hge.
Qed.

End isa.


(** ** Worked instances on the x86-64 constants *)

Section pc.
#[local] Existing Instance x86_64_intr.
#[local] Existing Instance x86_64_heap.
#[local] Existing Instance x86_64_isa.

Ltac by_eval := vm_compute; first [reflexivity | discriminate].
Ltac by_arith :=
  vm_compute;
  first [ reflexivity | discriminate
        | let H1 := fresh in let H2 := fresh in
          intros [H1 H2];
          first [discriminate H2 | exfalso; apply H1; reflexivity] ].

(** The PC's one I/O APIC has 24 lines. *)
Lemma pc_has_lines (s : route_t) :
  ioapics s = ioapics (pc_boot []) →
  ∀ apic, apic ∈ ioapics s → has_lines apic.
Proof.
  intros -> apic Hin. apply list_elem_of_singleton in Hin. subst apic.
  unfold has_lines. simpl. lia.
Qed.

(** C4 on the PC: handlers 1, 2, 3 registered on vector 0x40. *)
Lemma dispatch_is_lifo_witness :
  ∃ old s4,
    intr_handlers (pc_boot [true; true; true]) !! Z.to_nat 0x40 = Some old ∧
    intr_handlers
      (final (intr_route_intr 0x40 3
        (final (intr_route_intr 0x40 2
          (final (intr_route_intr 0x40 1 (pc_boot [true; true; true]))))))) =
      <[Z.to_nat 0x40 := 3 :: 2 :: 1 :: old]>
        (intr_handlers (pc_boot [true; true; true])) ∧
    intr_dispatch {| state_id := 0x40 |}
      (final (intr_route_intr 0x40 3
        (final (intr_route_intr 0x40 2
          (final (intr_route_intr 0x40 1 (pc_boot [true; true; true]))))))) =
      Done tt s4 ∧
    invoked (drop (length (calls
      (final (intr_route_intr 0x40 3
        (final (intr_route_intr 0x40 2
          (final (intr_route_intr 0x40 1 (pc_boot [true; true; true]))))))))) (calls s4)) =
      [3; 2; 1] ++ old.
Proof.
  apply (dispatch_is_lifo 0x40 1 2 3 (pc_boot [true; true; true])
           (final (intr_route_intr 0x40 1 (pc_boot [true; true; true])))
           (final (intr_route_intr 0x40 2
             (final (intr_route_intr 0x40 1 (pc_boot [true; true; true]))))));
    reflexivity.
Defined.

(** C5 on the PC: the page fault vector 0x0E is not acknowledged, the
    keyboard vector 0x21 is, first of all. *)
Lemma ack_policy_witness :
  (∃ new,
     calls (final (intr_dispatch {| state_id := 0x0E |} (pc_boot []))) =
       calls (pc_boot []) ++ new ∧
     acked new = []) ∧
  (∃ new rest,
     calls (final (intr_dispatch {| state_id := 0x21 |} (pc_boot []))) =
       calls (pc_boot []) ++ new ∧
     new = (ic_ack 0x21, intr_handlers (pc_boot [])) :: rest ∧
     acked rest = []).
Proof.
  split.
  - destruct (ack_policy {| state_id := 0x0E |} (pc_boot []))
      as (new & Hlog & Hfault & _).
    exists new. split; [exact Hlog|]. apply Hfault. left. simpl. lia.
  - destruct (ack_policy {| state_id := 0x21 |} (pc_boot []))
      as (new & Hlog & _ & Hirq).
    destruct Hirq as (rest & Hnew & Hrest); [simpl; lia|].
    by exists new, rest.
Defined.

(** C6 on the PC: vector 0x40 fires with nothing registered. *)
Lemma unhandled_vector_panics_witness :
  ∃ s',
    intr_dispatch {| state_id := 0x40 |} (pc_boot []) =
      Panic ("unhandled interrupt %d" ++ newline) 0x40 s' ∧
    invoked (drop (length (calls (pc_boot []))) (calls s')) = [] ∧
    intr_handlers s' = intr_handlers (pc_boot []).
Proof.
  apply (unhandled_vector_panics {| state_id := 0x40 |} (pc_boot []));
    [simpl; lia | reflexivity].
Defined.

(** C7 as stated does not hold.  A controller record with no line
    ([irq_base] = 0, [irqs] = 0) owns nothing, but the last line the loop
    computes for it wraps around to the top of [irq_t], so the test
    accepts line 5: the call returns true, the handler is registered on
    vector 37 and the controller is programmed. *)
Lemma route_irq_without_owner :
  let apic := {| _phy_addr := 0xFEC00000; apic_id := 0; irq_base := 0;
                 irqs := 0 |} in
  let s := {| intr_handlers := replicate 256 []; ioapics := [apic];
              malloc_plan := [true]; free_log := []; calls := [] |} in
  let s' := final (intr_route_irq (isa_tuple 5) 7 s) in
  (∀ a, a ∈ ioapics s → ¬ owns a (irq (isa_tuple 5))) ∧
  intr_route_irq (isa_tuple 5) 7 s = Done true s' ∧
  intr_handlers s' !! 37%nat = Some [7] ∧
  calls s' = [(ioapic_route apic (isa_tuple 5) 37, intr_handlers s')].
Proof.
  intros apic s s'. split; [|split; [|split]].
  - intros a Hin. apply list_elem_of_singleton in Hin. subst a.
    unfold owns. simpl. lia.
  - reflexivity.
  - reflexivity.
  - reflexivity.
Qed.

(** C7, amended, on the PC: IRQ 1 is owned and gets its handler on
    vector 33; line 225 has no owner and is refused. *)
Lemma route_irq_needs_owner_witness :
  (∃ apic old,
     apic ∈ ioapics (pc_boot [true]) ∧ owns apic 1 ∧
     intr_handlers (pc_boot [true]) !! Z.to_nat (vector_of 1) = Some old ∧
     intr_handlers (final (intr_route_irq (isa_tuple 1) 7 (pc_boot [true]))) =
       <[Z.to_nat (vector_of 1) := 7 :: old]>
         (intr_handlers (pc_boot [true])) ∧
     calls (final (intr_route_irq (isa_tuple 1) 7 (pc_boot [true]))) =
       calls (pc_boot [true]) ++
       [(ioapic_route apic (isa_tuple 1) (vector_of 1),
         intr_handlers
           (final (intr_route_irq (isa_tuple 1) 7 (pc_boot [true]))))]) ∧
  intr_route_irq (isa_tuple 225) 7 (pc_boot [true]) =
    Done false (pc_boot [true]).
Proof.
  split.
  - apply (proj1 (route_irq_needs_owner (isa_tuple 1) 7 (pc_boot [true])
                    (pc_has_lines _ eq_refl))).
    reflexivity.
  - apply (proj2 (route_irq_needs_owner (isa_tuple 225) 7 (pc_boot [true])
                    (pc_has_lines _ eq_refl))).
    intros apic Hin. apply list_elem_of_singleton in Hin. subst apic.
    unfold owns. simpl. lia.
Defined.

(** C10 on the PC: [malloc] fails while IRQ 1 is being routed. *)
Lemma route_irq_failure_not_atomic_witness :
  ∃ s',
    intr_route_irq (isa_tuple 1) 7 (pc_boot [false]) = Done false s' ∧
    calls s' =
      calls (pc_boot [false]) ++
      [(ioapic_route
          {| _phy_addr := 0xFEC00000; apic_id := 0; irq_base := 0;
             irqs := 24 |}
          (isa_tuple 1) (vector_of 1),
        intr_handlers (pc_boot [false]))] ∧
    intr_handlers s' = intr_handlers (pc_boot [false]).
Proof.
  apply (route_irq_failure_not_atomic (isa_tuple 1) 7 (pc_boot [false]));
    reflexivity.
Defined.

(** C8 as stated does not hold.  Handler 7 is registered through IRQ 1,
    on vector 33.  Line 225 belongs to no controller and maps to the
    same vector (225 mod 224 = 1): unrouting it with handler 7 empties
    the chain of vector 33. *)
Lemma unroute_irq_unowned_unlinks :
  let s := final (intr_route_irq (isa_tuple 1) 7 (pc_boot [true])) in
  let s' := final (intr_unroute_irq (pci_tuple 225) 7 s) in
  (∀ apic, apic ∈ ioapics s → ¬ owns apic (irq (pci_tuple 225))) ∧
  intr_unroute_irq (pci_tuple 225) 7 s = Done tt s' ∧
  intr_handlers s !! 33%nat = Some [7] ∧
  intr_handlers s' !! 33%nat = Some [] ∧
  intr_handlers s' ≠ intr_handlers s.
Proof.
  intros s s'. split; [|split; [|split; [|split]]].
  - intros apic Hin. apply list_elem_of_singleton in Hin. subst apic.
    unfold owns. simpl. lia.
  - reflexivity.
  - reflexivity.
  - reflexivity.
  - intros Heq. apply (f_equal (λ t, t !! 33%nat)) in Heq. discriminate Heq.
Qed.

(** C8, amended, on the PC: handler 7 sits on vector 33 through IRQ 1
    and line 225, which no controller owns, is unrouted with that
    handler.  No call is logged; the node is unlinked and freed. *)
Lemma unroute_irq_unowned_witness :
  let s := final (intr_route_irq (isa_tuple 1) 7 (pc_boot [true])) in
  ∃ s',
    intr_unroute_irq (pci_tuple 225) 7 s = Done tt s' ∧
    calls s' = calls s ∧
    ioapics s' = ioapics s ∧
    malloc_plan s' = malloc_plan s ∧
    intr_handlers s' = <[33%nat := []]> (intr_handlers s) ∧
    free_log s' = free_log s ++ [7].
Proof.
  intros s.
  destruct (unroute_irq_unowned (pci_tuple 225) 7 s)
    as (old & s' & Hold & Hret & Hcalls & Hapics & Hplan & _ & Hfound).
  - unfold routable. split; [reflexivity|]. simpl. lia.
  - exact (pc_has_lines s eq_refl).
  - intros apic Hin. apply list_elem_of_singleton in Hin. subst apic.
    unfold owns. simpl. lia.
  - injection Hold as <-.
    destruct Hfound as (pre & post & Hsplit & Hpre & Htable & Hfree);
      [by left|].
    exists s'. split; [exact Hret|]. split; [exact Hcalls|].
    split; [exact Hapics|]. split; [exact Hplan|]. split; [|exact Hfree].
    destruct pre as [|h pre].
    + injection Hsplit as <-. exact Htable.
    + injection Hsplit as <- _. exfalso. apply Hpre. by left.
Defined.

(** The converse of C7 does not hold: the controller owns line 23, its
    last one, and registration on it is refused. *)
Lemma route_irq_last_line_refused :
  owns {| _phy_addr := 0xFEC00000; apic_id := 0; irq_base := 0;
          irqs := 24 |} 23 ∧
  intr_route_irq (pci_tuple 23) 7 (pc_boot [true]) =
    Done false (pc_boot [true]).
Proof. split; [unfold owns; simpl; lia|reflexivity]. Qed.

(** C9 fails on the last line of a controller.  The I/O APIC owns lines
    0 to 23 and handler 7 is in the chain of vector 55, the vector of
    line 23.  Unrouting line 23 makes no controller call, so the owning
    controller is never masked, and yet the handler is unlinked. *)
Theorem unroute_irq_last_line_unmasked :
  let apic := {| _phy_addr := 0xFEC00000; apic_id := 0; irq_base := 0;
                 irqs := 24 |} in
  let s := final (intr_route_intr 55 7 (pc_boot [true])) in
  let s' := final (intr_unroute_irq (pci_tuple 23) 7 s) in
  ioapics s = [apic] ∧ owns apic (irq (pci_tuple 23)) ∧
  vector_of (irq (pci_tuple 23)) = 55 ∧
  intr_handlers s !! 55%nat = Some [7] ∧
  intr_unroute_irq (pci_tuple 23) 7 s = Done tt s' ∧
  programmed (calls s') = [] ∧
  intr_handlers s' !! 55%nat = Some [].
Proof.
  intros apic s s'. split; [reflexivity|]. split; [unfold owns; simpl; lia|].
  split_and!; vm_compute; reflexivity.
Qed.

(** C1 fails on the header frames.  The allocated node at 0x402000
    stands between the free nodes at 0x400000 and 0x404000.  Freeing its
    payload leaves one free node covering [0x401000, 0x411000), the three
    ranges joined.  The header of the next node (frame 0x13000) is
    unmapped and freed, but the second [pmm_free] receives null, and the
    header page of the freed node itself stays mapped to frame 0x11000,
    which is never returned. *)
Theorem heap_free_keeps_absorbed_header :
  let s := heap_16_hole in
  let s' := final (heap_free 8 0x403000 s) in
  heap_list s 8 (heap_root s) =
    [ (0x400000, {| node_next := 0x402000; node_prev := 0;
                    node_state := HEAP_NODE_FREE;
                    node_start := 0x401000; node_end := 0x402000 |});
      (0x402000, {| node_next := 0x404000; node_prev := 0x400000;
                    node_state := HEAP_NODE_ALLOCATED;
                    node_start := 0x403000; node_end := 0x404000 |});
      (0x404000, {| node_next := 0; node_prev := 0x402000;
                    node_state := HEAP_NODE_FREE;
                    node_start := 0x405000; node_end := 0x411000 |}) ] ∧
  heap_free 8 0x403000 s = Done tt s' ∧
  heap_list s' 8 (heap_root s') =
    [ (0x400000, {| node_next := 0; node_prev := 0;
                    node_state := HEAP_NODE_FREE;
                    node_start := 0x401000; node_end := 0x411000 |}) ] ∧
  freed s' = freed s ++ [0x14000; 0x13000; 0] ∧
  pages s !! 0x402000 = Some (0x11000, Z.lor PG_WRITABLE PG_NO_EXEC) ∧
  pages s' !! 0x402000 = Some (0x11000, Z.lor PG_WRITABLE PG_NO_EXEC) ∧
  pages s !! 0x404000 = Some (0x13000, Z.lor PG_WRITABLE PG_NO_EXEC) ∧
  pages s' !! 0x404000 = None.
Proof. intros s s'. split_and!; vm_compute; reflexivity. Qed.

(** C2 fails in the rollback.  The 16-page heap has two frames left and
    two pages are requested: the split takes the first frame, the first
    page the second, and [pmm_alloc] fails on the second page (k = 2).
    The rollback is [_heap_free(node)], on the header address rather
    than the payload address, so [_heap_free] looks for a header one page
    below the node, where there is none: in the model the call faults
    instead of returning null.  The node is left ALLOCATED, the split is
    not undone, the first page keeps its frame and nothing is freed. *)
Theorem heap_alloc_rollback_misses_node :
  let s := heap_16_short in
  let r := heap_alloc 8 0x2000 HEAP_W s in
  heap_list s 8 (heap_root s) =
    [ (0x400000, {| node_next := 0; node_prev := 0;
                    node_state := HEAP_NODE_FREE;
                    node_start := 0x401000; node_end := 0x411000 |}) ] ∧
  frames s = [0x11000; 0x12000] ∧
  r = Fault (final r) ∧
  heap_list (final r) 8 (heap_root (final r)) =
    [ (0x400000, {| node_next := 0x403000; node_prev := 0;
                    node_state := HEAP_NODE_ALLOCATED;
                    node_start := 0x401000; node_end := 0x403000 |});
      (0x403000, {| node_next := 0; node_prev := 0x400000;
                    node_state := HEAP_NODE_FREE;
                    node_start := 0x404000; node_end := 0x411000 |}) ] ∧
  pages (final r) !! 0x401000 =
    Some (0x12000, Z.lor PG_WRITABLE PG_NO_EXEC) ∧
  freed (final r) = [].
Proof. intros s r. split_and!; vm_compute; reflexivity. Qed.


(** C3 as stated does not hold.  [heap_16_stale] is reached by five
    calls that all return.  On it a request of one page selects the free
    node at 0x400000, which has three pages to spare; [pmm] has a frame
    and [vmm_map] accepts the new header address 0x402000.  The header
    of the successor at 0x405000 is not mapped, and [find_node] faults
    on it while splicing: no node is returned, split or not. *)
Lemma find_node_split_faults :
  let s0 := heap_16 [0x11000; 0x12000; 0x13000; 0x14000; 0x15000; 0x16000;
                     0x17000; 0x18000; 0x19000] in
  let s1 := final (heap_alloc 8 0x2000 0x1 s0) in
  let s2 := final (heap_alloc 8 0x1000 0x1 s1) in
  let s3 := final (heap_alloc 8 0x1000 0x1 s2) in
  let s4 := final (heap_free 8 0x401000 s3) in
  let s := heap_16_stale in
  let n := {| node_next := 0x405000; node_prev := 0;
              node_state := HEAP_NODE_FREE;
              node_start := 0x401000; node_end := 0x405000 |} in
  heap_alloc 8 0x2000 0x1 s0 = Done 0x401000 s1 ∧
  heap_alloc 8 0x1000 0x1 s1 = Done 0x404000 s2 ∧
  heap_alloc 8 0x1000 0x1 s2 = Done 0x406000 s3 ∧
  heap_free 8 0x401000 s3 = Done tt s4 ∧
  heap_free 8 0x404000 s4 = Done tt s ∧
  walks_to s 0x1000 0 (heap_root s) 0x400000 = true ∧
  peek s 0x400000 = Some n ∧
  uintptr (uintptr (node_end n - node_start n) - 0x1000) = FRAME_SIZE * 3 ∧
  frames s = [0x18000; 0x19000] ∧
  vmm_refused s = [] ∧
  pages s !! uintptr (0x400000 + 0x1000 + FRAME_SIZE) = None ∧
  peek s (node_next n) = None ∧
  find_node 8 0x1000 s = Fault (final (find_node 8 0x1000 s)) ∧
  heap_alloc 8 0x1000 0x1 s = Fault (final (heap_alloc 8 0x1000 0x1 s)).
Proof.
  intros s0 s1 s2 s3 s4 s n. split_and!; vm_compute; reflexivity.
Qed.

(** C3, amended, on [heap_16_gap]: a request of one page passes over the
    allocated node at 0x400000 and selects the free node at 0x402000,
    whose successor at 0x407000 is allocated.  With a frame left the
    node is split at 0x404000 and the successor points back to the new
    node; with none it is used whole. *)
Lemma find_node_splits_witness :
  (∃ s',
     find_node 3 0x1000 (heap_16_gap [0x1a000]) = Done 0x402000 s' ∧
     peek s' 0x404000 =
       Some {| node_next := 0x407000; node_prev := 0x402000;
               node_state := HEAP_NODE_FREE;
               node_start := 0x405000; node_end := 0x407000 |} ∧
     peek s' 0x402000 =
       Some {| node_next := 0x404000; node_prev := 0x400000;
               node_state := HEAP_NODE_RESERVED;
               node_start := 0x403000; node_end := 0x404000 |} ∧
     peek s' 0x407000 =
       Some {| node_next := 0x409000; node_prev := 0x404000;
               node_state := HEAP_NODE_ALLOCATED;
               node_start := 0x408000; node_end := 0x409000 |} ∧
     peek s' 0x400000 = peek (heap_16_gap [0x1a000]) 0x400000) ∧
  (∃ s',
     find_node 3 0x1000 (heap_16_gap []) = Done 0x402000 s' ∧
     nodes s' =
       <[0x402000 :=
           {| node_next := 0x407000; node_prev := 0x400000;
              node_state := HEAP_NODE_RESERVED;
              node_start := 0x403000; node_end := 0x407000 |}]>
         (nodes (heap_16_gap []))).
Proof.
  split.
  - destruct (find_node_splits (heap_16_gap [0x1a000]) 0x1000 1 0x402000
                {| node_next := 0x407000; node_prev := 0x400000;
                   node_state := HEAP_NODE_FREE;
                   node_start := 0x403000; node_end := 0x407000 |} 3)
      as [Hsplit _];
      [reflexivity | lia | reflexivity | reflexivity | by vm_compute
      | by vm_compute | lia |].
    destruct (Hsplit 0x1a000 []) as (s' & Hret & Hnew & Hnode & Hnext & Hrest
                                        & _);
      [reflexivity | lia | vm_compute; apply not_elem_of_nil
      | by vm_compute
      | right; split; [by_arith|]; split; [by_arith|];
        vm_compute; eauto |].
    exists s'. split; [exact Hret|]. split; [exact Hnew|].
    split; [exact Hnode|]. split.
    + apply (Hnext {| node_next := 0x409000; node_prev := 0x402000;
                      node_state := HEAP_NODE_ALLOCATED;
                      node_start := 0x408000; node_end := 0x409000 |});
        [by_arith|reflexivity].
    + apply Hrest; by_arith.
  - destruct (find_node_splits (heap_16_gap []) 0x1000 1 0x402000
                {| node_next := 0x407000; node_prev := 0x400000;
                   node_state := HEAP_NODE_FREE;
                   node_start := 0x403000; node_end := 0x407000 |} 3)
      as [_ Hskip];
      [reflexivity | lia | reflexivity | reflexivity | by vm_compute
      | by vm_compute | lia |].
    destruct Hskip as (s' & Hret & Hnodes & _); [by left|].
    exists s'. split; [exact Hret|exact Hnodes].
Defined.

(** [heap_free_between_free_nodes] applies to the heap with the hole. *)
Example heap_free_between_free_nodes_hole :
  ∃ s' fs,
    heap_free 8 0x403000 heap_16_hole = Done tt s' ∧
    peek s' 0x400000 =
      Some {| node_next := 0; node_prev := 0;
              node_state := HEAP_NODE_FREE;
              node_start := 0x401000; node_end := 0x411000 |} ∧
    pages s' !! 0x404000 = None ∧
    pages s' !! 0x402000 = Some (0x11000, Z.lor PG_WRITABLE PG_NO_EXEC) ∧
    freed s' = freed heap_16_hole ++ fs ++ [0x13000; 0] ∧ (0 ∉ fs).
Proof.
  destruct (heap_free_between_free_nodes heap_16_hole 0x403000
           {| node_next := 0x404000; node_prev := 0x400000;
              node_state := HEAP_NODE_ALLOCATED;
              node_start := 0x403000; node_end := 0x404000 |}
           {| node_next := 0x402000; node_prev := 0;
              node_state := HEAP_NODE_FREE;
              node_start := 0x401000; node_end := 0x402000 |}
           {| node_next := 0; node_prev := 0x402000;
              node_state := HEAP_NODE_FREE;
              node_start := 0x405000; node_end := 0x411000 |}
           8%nat 0x11000 (Z.lor PG_WRITABLE PG_NO_EXEC)
           0x13000 (Z.lor PG_WRITABLE PG_NO_EXEC))
    as (s' & fs & Hret & Hprev & Hnext & Hnode & Hfreed & Hfs);
    [ by_arith | by_arith | by_arith | lia | by_arith
    | by_eval | by_eval | reflexivity
    | by_arith | by_eval | reflexivity
    | by_arith | by_eval | by_eval | reflexivity
    | by_arith | by_arith | by_arith
    | left; reflexivity
    | by_arith | by_arith | by_arith
    | ].
  exists s', fs. split; [exact Hret|]. split; [exact Hprev|].
  split; [exact Hnext|]. split; [exact Hnode|]. split; [exact Hfreed|exact Hfs].
Qed.


(** [alloc_pages_rollback] applies to the short heap: two pages are
    wanted, one frame is left. *)
Example alloc_pages_rollback_short :
  let s := final (update 0x400000 (set_state HEAP_NODE_ALLOCATED)
                    (final (find_node 8 0x2000 heap_16_short))) in
  ∃ s',
    alloc_pages 8 8 0x400000 0x401000 0x403000
      (Z.lor PG_WRITABLE PG_NO_EXEC) s = Fault s' ∧
    nodes s' = nodes s ∧ freed s' = freed s ∧
    pages s' !! 0x401000 = Some (0x12000, Z.lor PG_WRITABLE PG_NO_EXEC).
Proof.
  intros s.
  pose proof (alloc_pages_rollback 8 8 0x400000 0x401000 0x403000
              (Z.lor PG_WRITABLE PG_NO_EXEC) s [0x12000] []) as Hgen.
  assert (H1 : 0 < FRAME_SIZE) by by_arith.
  assert (H2 : 0 ≤ 0x401000) by by_arith.
  assert (H3 : 0x403000 + FRAME_SIZE ≤ 2 ^ 64) by by_arith.
  assert (H4 : frames s = [0x12000] ++ []) by by_eval.
  assert (H5 : 0 ∉ [0x12000]).
  { apply not_elem_of_cons; split; [discriminate|apply not_elem_of_nil]. }
  assert (H6 : hd 0 [] = 0) by reflexivity.
  assert (H7 : 0x401000 + Z.of_nat (length [0x12000]) * FRAME_SIZE < 0x403000)
    by by_arith.
  assert (H8 : ∀ i, (i < length [0x12000%Z])%nat →
     0x401000 + Z.of_nat i * FRAME_SIZE ∉ vmm_refused s).
  { intros i Hi. replace (vmm_refused s) with (@nil Z) by by_eval.
    apply not_elem_of_nil. }
  assert (H9 : (length [0x12000%Z] < 8)%nat) by (simpl; lia).
  assert (H10 : nodes s !! uintptr (0x400000 - FRAME_SIZE) = None) by by_eval.
  destruct (Hgen H1 H2 H3 H4 H5 H6 H7 H8 H9 H10)
    as (s' & Hret & Hnodes & Hfreed & _ & Hpages & _).
  exists s'. split; [exact Hret|]. split; [exact Hnodes|].
  split; [exact Hfreed|]. apply (Hpages 0%nat 0x12000). reflexivity.
Qed.

(** [unroute_irq_last_line] applies to line 23 of the PC's I/O APIC. *)
Example unroute_irq_last_line_pc :
  ∃ s',
    intr_unroute_irq (pci_tuple 23) 7
      (final (intr_route_intr 55 7 (pc_boot [true]))) = Done tt s' ∧
    calls s' = [] ∧
    intr_handlers s' =
      <[55%nat := []]>
        (intr_handlers (final (intr_route_intr 55 7 (pc_boot [true])))).
Proof.
  destruct (unroute_irq_last_line (pci_tuple 23) 7
           (final (intr_route_intr 55 7 (pc_boot [true])))
           {| _phy_addr := 0xFEC00000; apic_id := 0; irq_base := 0;
              irqs := 24 |} [7])
    as (_ & s' & Hret & Hcalls & Htable);
    [ vm_compute; split; [discriminate|reflexivity]
    | exact (pc_has_lines _ eq_refl)
    | apply list_elem_of_singleton; reflexivity
    | reflexivity | reflexivity
    | intros a Ha _; by apply list_elem_of_singleton in Ha
    | reflexivity | ].
  exists s'. split; [exact Hret|]. split; [exact Hcalls|exact Htable].
Qed.

(** X2 on the PC: handlers 1 and 2 are registered on
    vector 0x40, which then fires. *)
Lemma dispatch_runs_chain_witness :
  let s := final (intr_route_intr 0x40 2
             (final (intr_route_intr 0x40 1 (pc_boot [true; true])))) in
  ∃ s',
    intr_dispatch {| state_id := 0x40 |} s = Done tt s' ∧
    intr_handlers s' = intr_handlers s ∧
    calls s' =
      [(ic_ack 0x40, intr_handlers s);
       (handler_call 2 {| state_id := 0x40 |}, intr_handlers s);
       (handler_call 1 {| state_id := 0x40 |}, intr_handlers s)].
Proof.
  intros s.
  destruct (dispatch_runs_chain {| state_id := 0x40 |} s 2 [1])
    as (s' & Hret & Htable & _ & Hcalls); [simpl; lia | reflexivity |].
  exists s'. split; [exact Hret|]. split; [exact Htable|exact Hcalls].
Defined.

(** X3 on the PC: handler 7 on vector
    0x40. *)
Lemma route_unroute_intr_round_trip_witness :
  ∃ s2,
    intr_unroute_intr 0x40 7
      (final (intr_route_intr 0x40 7 (pc_boot [true]))) = Done tt s2 ∧
    intr_handlers s2 = intr_handlers (pc_boot [true]) ∧
    calls s2 = calls (pc_boot [true]) ∧
    ioapics s2 = ioapics (pc_boot [true]).
Proof.
  apply (route_unroute_intr_round_trip 0x40 7 (pc_boot [true])
           (final (intr_route_intr 0x40 7 (pc_boot [true])))).
  reflexivity.
Defined.

(** X4 on the PC: handler 7 is registered twice
    on vector 0x40, around handler 5; one call removes one of the two
    nodes. *)
Lemma unroute_intr_removes_one_witness :
  let s := final (intr_route_intr 0x40 7
             (final (intr_route_intr 0x40 5
               (final (intr_route_intr 0x40 7
                 (pc_boot [true; true; true])))))) in
  ∃ new s',
    intr_unroute_intr 0x40 7 s = Done tt s' ∧
    intr_handlers s' = <[Z.to_nat 0x40 := new]> (intr_handlers s) ∧
    filter (λ h, h ≠ 7) new = [5] ∧
    S (length new) = 3%nat.
Proof.
  intros s.
  destruct (unroute_intr_removes_one 0x40 7 s [7; 5; 7])
    as (new & s' & Hret & Htable & _ & Hothers & Hone & _);
    [simpl; lia | reflexivity |].
  exists new, s'. split; [exact Hret|]. split; [exact Htable|].
  split; [exact Hothers|]. apply Hone. by left.
Defined.

(** X5 on the PC: a registration on vector 0x40 when
    [malloc] succeeds, and one when it returns null. *)
Lemma route_intr_result_witness :
  (∃ s',
     intr_route_intr 0x40 7 (pc_boot [true]) = Done true s' ∧
     calls s' = calls (pc_boot [true]) ∧
     intr_handlers s' !! Z.to_nat 0x40 = Some [7]) ∧
  (∃ s',
     intr_route_intr 0x40 7 (pc_boot [false]) = Done false s' ∧
     intr_handlers s' = intr_handlers (pc_boot [false])).
Proof.
  split.
  - destruct (route_intr_result 0x40 7 (pc_boot [true]))
      as (s' & Hret & Hcalls & _ & _ & Hnew); [simpl; lia | reflexivity |].
    exists s'. split; [exact Hret|]. split; [exact Hcalls|].
    destruct (Hnew eq_refl) as (old & Hold & Hchain).
    injection Hold as <-. exact Hchain.
  - destruct (route_intr_result 0x40 7 (pc_boot [false]))
      as (s' & Hret & _ & _ & Hsame & _); [simpl; lia | reflexivity |].
    exists s'. split; [exact Hret|]. exact (Hsame eq_refl).
Defined.

(** X6 on the PC: routing and unrouting IRQ 1
    leave the chain of the page fault vector 14 alone. *)
Lemma irq_routing_stays_in_band_witness :
  intr_handlers (final (intr_route_irq (isa_tuple 1) 7 (pc_boot [true])))
    !! Z.to_nat 14 = intr_handlers (pc_boot [true]) !! Z.to_nat 14 ∧
  intr_handlers (final (intr_unroute_irq (isa_tuple 1) 7 (pc_boot [true])))
    !! Z.to_nat 14 = intr_handlers (pc_boot [true]) !! Z.to_nat 14.
Proof.
  apply (irq_routing_stays_in_band (isa_tuple 1) 7 (pc_boot [true]) 14);
    by_arith.
Defined.

(** X7 on the PC: IRQ 1 is accepted by the I/O APIC. *)
Lemma route_irq_result_witness :
  ∃ s',
    intr_route_irq (isa_tuple 1) 7 (pc_boot [true]) = Done true s' ∧
    calls s' =
      [(ioapic_route
          {| _phy_addr := 0xFEC00000; apic_id := 0; irq_base := 0;
             irqs := 24 |}
          (isa_tuple 1) 33, intr_handlers s')].
Proof.
  destruct (route_irq_result (isa_tuple 1) 7 (pc_boot [true]))
    as (s' & Hret & Hcalls); [unfold routable; simpl; lia|].
  exists s'. split; [exact Hret|exact Hcalls].
Defined.

(** X8 on the PC: handler 7 on IRQ 1. *)
Lemma route_unroute_irq_round_trip_witness :
  let s := pc_boot [true] in
  let s1 := final (intr_route_irq (isa_tuple 1) 7 s) in
  ∃ apic s2,
    apic ∈ ioapics s ∧ irq_belongs apic 1 = true ∧
    intr_unroute_irq (isa_tuple 1) 7 s1 = Done tt s2 ∧
    intr_handlers s2 = intr_handlers s ∧
    calls s2 =
      [(ioapic_route apic (isa_tuple 1) 33, intr_handlers s1);
       (ioapic_mask
          {| _phy_addr := 0xFEC00000; apic_id := 0; irq_base := 0;
             irqs := 24 |} (isa_tuple 1), intr_handlers s1)].
Proof.
  intros s s1.
  destruct (route_unroute_irq_round_trip (isa_tuple 1) 7 s s1)
    as (apic & s2 & Hin & Hb & Hret & Htable & Hcalls & _); [reflexivity|].
  exists apic, s2. split; [exact Hin|]. split; [exact Hb|].
  split; [exact Hret|]. split; [exact Htable|exact Hcalls].
Defined.

(** X9 on the PC: line 23 of the 24-line
    I/O APIC. *)
Lemma route_irq_refuses_last_line_witness :
  intr_route_irq (pci_tuple 23) 7 (pc_boot [true]) =
    Done false (pc_boot [true]).
Proof.
  apply (route_irq_refuses_last_line (pci_tuple 23) 7 (pc_boot [true])
           {| _phy_addr := 0xFEC00000; apic_id := 0; irq_base := 0;
              irqs := 24 |});
    [ exact (pc_has_lines _ eq_refl)
    | apply list_elem_of_singleton; reflexivity
    | reflexivity
    | intros a Ha _; by apply list_elem_of_singleton in Ha ].
Defined.

(** X1 on the PC: IRQ 1 is unrouted after handler
    7 was routed on it. *)
Lemma unroute_irq_masks_first_witness :
  let s := final (intr_route_irq (isa_tuple 1) 7 (pc_boot [true])) in
  ∃ s',
    intr_unroute_irq (isa_tuple 1) 7 s = Done tt s' ∧
    calls s' =
      calls s ++
      [(ioapic_mask
          {| _phy_addr := 0xFEC00000; apic_id := 0; irq_base := 0;
             irqs := 24 |} (isa_tuple 1), intr_handlers s)] ∧
    intr_handlers s' = <[33%nat := []]> (intr_handlers s).
Proof.
  intros s.
  destruct (unroute_irq_masks_first (isa_tuple 1) 7 s [7])
    as (s' & Hret & Hcalls & Htable);
    [vm_compute; split; [discriminate|reflexivity] | reflexivity |].
  exists s'. split; [exact Hret|]. split; [exact Hcalls|exact Htable].
Defined.

(** X20 on the PC's 16 lines, the array holding other
    tuples before. *)
Lemma isa_init_defaults_witness :
  ∃ isa_irqs',
    isa_init 17 (replicate 16 (pci_tuple 99)) = Done tt isa_irqs' ∧
    isa_irq 3 isa_irqs' = Done (isa_tuple 3) isa_irqs' ∧
    isa_irq 16 isa_irqs' =
      Panic "invalid ISA interrupt line %d" 16 isa_irqs'.
Proof.
  destruct (isa_init_defaults 17 (replicate 16 (pci_tuple 99)))
    as (arr & Hret & _ & Hline & Hbad); [reflexivity | by_arith |].
  exists arr. split; [exact Hret|]. split.
  - apply Hline. vm_compute. split; [discriminate|reflexivity].
  - apply Hbad. by_arith.
Defined.

(** X10 on the 16-page heap: four pages are found in
    the root node; seventeen pages are found nowhere. *)
Lemma find_node_first_fit_witness :
  let s := heap_16 [0x11000] in
  (∃ k n n',
     walks_to s 0x4000 k (heap_root s) 0x400000 = true ∧
     peek s 0x400000 = Some n ∧ node_state n = HEAP_NODE_FREE ∧
     0x4000 ≤ uintptr (node_end n - node_start n) ∧
     peek (final (find_node 2 0x4000 s)) 0x400000 = Some n' ∧
     node_state n' = HEAP_NODE_RESERVED) ∧
  final (find_node 2 0x11000 s) = s ∧
  ∃ k, walks_to s 0x11000 k (heap_root s) 0 = true.
Proof.
  intros s.
  assert (Hfound : find_node 2 0x4000 s =
            Done 0x400000 (final (find_node 2 0x4000 s))) by by_eval.
  assert (Hnone : find_node 2 0x11000 s =
            Done 0 (final (find_node 2 0x11000 s))) by by_eval.
  split.
  - apply (proj2 (find_node_first_fit 2 0x4000 s 0x400000 _ Hfound)).
    discriminate.
  - apply (proj1 (find_node_first_fit 2 0x11000 s 0 _ Hnone)).
    reflexivity.
Defined.

(** X11 on the 16-page heap: seventeen pages are asked
    for. *)
Lemma heap_alloc_null_witness :
  heap_alloc 2 0x11000 0x1 (heap_16 [0x11000]) = Done 0 (heap_16 [0x11000]) ∧
  heap_reserve 2 0x11000 (heap_16 [0x11000]) = Done 0 (heap_16 [0x11000]).
Proof.
  split.
  - unfold heap_alloc.
    apply (heap_alloc_null 2 0x11000 0x1 true (heap_16 [0x11000]) 1);
      [by_eval | lia].
  - unfold heap_reserve.
    apply (heap_alloc_null 2 0x11000 0 false (heap_16 [0x11000]) 1);
      [by_eval | lia].
Defined.

(** X12 on the 16-page heap: fifteen of the sixteen pages
    are asked for, so the node is not split and no frame is taken. *)
Lemma find_node_whole_witness :
  find_node 1 0xF000 (heap_16 [0x11000]) =
    Done 0x400000
      (set_nodes
         (<[0x400000 :=
              {| node_next := 0; node_prev := 0;
                 node_state := HEAP_NODE_RESERVED;
                 node_start := 0x401000; node_end := 0x411000 |}]>
            (nodes (heap_16 [0x11000])))
         (heap_16 [0x11000])).
Proof.
  apply (find_node_whole (heap_16 [0x11000]) 0xF000 0 0x400000
           {| node_next := 0; node_prev := 0;
              node_state := HEAP_NODE_FREE;
              node_start := 0x401000; node_end := 0x411000 |} 1);
    [ reflexivity | lia | reflexivity | reflexivity | by_arith | by_arith
    | lia ].
Defined.

(** X13 on the x86-64 constants: the kernel image ends at
    0x3ff000 and [pmm] hands out frame 0x10000. *)
Lemma heap_init_root_witness :
  ∃ s',
    heap_init 0x3ff000 (heap_boot [0x10000]) = Done tt s' ∧
    heap_root s' = 0x400000 ∧
    heap_list s' 1 (heap_root s') =
      [(0x400000,
        {| node_next := 0; node_prev := 0; node_state := HEAP_NODE_FREE;
           node_start := 0x401000; node_end := 0x411000 |})] ∧
    frames s' = [] ∧ freed s' = [].
Proof.
  destruct (heap_init_root 0x3ff000 (heap_boot [0x10000]) 0x10000 [])
    as (s' & Hret & Hroot & Hlist & _ & Hframes & Hfreed);
    [ reflexivity | lia | by_arith | vm_compute; apply not_elem_of_nil
    | by_arith | ].
  exists s'. split; [exact Hret|]. split; [exact Hroot|].
  split; [exact Hlist|]. split; [exact Hframes|exact Hfreed].
Defined.

(** X14 on the x86-64 constants: no frame is left; the
    kernel image ends above the stack; [vmm_map] refuses the root. *)
Lemma heap_init_panics_witness :
  heap_init 0x3ff000 (heap_boot []) =
    Panic "couldn't allocate physical frame for heap root node" 0
      (heap_boot []) ∧
  heap_init 0x411000 (heap_boot [0x10000]) =
    Panic "no room for heap" 0 (heap_boot []) ∧
  heap_init 0x3ff000
    {| heap_root := 0; nodes := ∅; pages := ∅; vmm_refused := [0x400000];
       frames := [0x10000]; freed := [] |} =
    Panic "couldn't map heap root node into the virtual memory" 0
      {| heap_root := 0x400000; nodes := ∅; pages := ∅;
         vmm_refused := [0x400000]; frames := []; freed := [] |}.
Proof.
  split; [|split].
  - apply (proj1 (heap_init_panics 0x3ff000 (heap_boot []))). reflexivity.
  - apply (proj1 (proj2 (heap_init_panics 0x411000 (heap_boot [0x10000])))
             0x10000 []); [reflexivity | lia | by_arith].
  - apply (proj2 (proj2 (heap_init_panics 0x3ff000
             {| heap_root := 0; nodes := ∅; pages := ∅;
                vmm_refused := [0x400000]; frames := [0x10000];
                freed := [] |})) 0x10000 []);
      [reflexivity | lia | by_arith | by left].
Defined.

(** X15 on the 16-page heap: fifteen pages are reserved
    (the whole node) and freed again. *)
Lemma heap_free_reserved_witness :
  let s := final (heap_reserve 2 0xF000 (heap_16 [])) in
  heap_free 2 0x401000 s =
    Done tt
      (set_nodes
         (<[0x400000 :=
              {| node_next := 0; node_prev := 0;
                 node_state := HEAP_NODE_FREE;
                 node_start := 0x401000; node_end := 0x411000 |}]>
            (nodes s)) s).
Proof.
  intros s.
  exact (heap_free_reserved 2 0x401000 s
           {| node_next := 0; node_prev := 0;
              node_state := HEAP_NODE_RESERVED;
              node_start := 0x401000; node_end := 0x411000 |}
           eq_refl ltac:(discriminate) ltac:(discriminate)
           ltac:(discriminate) (or_introl eq_refl) (or_introl eq_refl)).
Defined.

(** X16 on the 16-page heap after three one-page
    allocations: the second is freed, between the first and the third. *)
Lemma heap_free_allocated_witness :
  let s :=
    final (heap_alloc 8 0x1000 0x1
      (final (heap_alloc 8 0x1000 0x1
        (final (heap_alloc 8 0x1000 0x1
          (heap_16 [0x11000; 0x12000; 0x13000; 0x14000; 0x15000;
                    0x16000])))))) in
  ∃ s',
    heap_free 8 0x403000 s = Done tt s' ∧
    nodes s' =
      <[0x402000 :=
          {| node_next := 0x404000; node_prev := 0x400000;
             node_state := HEAP_NODE_FREE;
             node_start := 0x403000; node_end := 0x404000 |}]> (nodes s) ∧
    freed s' = freed s ++ [0x14000] ∧
    frames s' = frames s ∧
    pages s' !! 0x403000 = None.
Proof.
  intros s.
  pose proof (heap_free_allocated 8 0x403000 s
                {| node_next := 0x404000; node_prev := 0x400000;
                   node_state := HEAP_NODE_ALLOCATED;
                   node_start := 0x403000; node_end := 0x404000 |}
                [Some (0x14000, Z.lor PG_WRITABLE PG_NO_EXEC)]) as Hgen.
  cbv zeta in Hgen.
  assert (H1 : 0 < FRAME_SIZE) by by_arith.
  assert (H2 : (0 ≤ 0x403000)) by lia.
  assert (H3 : 0x404000 + FRAME_SIZE ≤ 2 ^ 64) by by_arith.
  assert (H4 : 0x404000 = 0x403000 + 1 * FRAME_SIZE) by by_eval.
  assert (H5 : (1 < 8)%nat) by lia.
  assert (H6 : ∀ i m,
            [Some (0x14000, Z.lor PG_WRITABLE PG_NO_EXEC)] !! i = Some m →
            pages s !! (0x403000 + Z.of_nat i * FRAME_SIZE) = m).
  { intros [|i] m Hm; [|destruct i; discriminate Hm].
    injection Hm as <-. by_eval. }
  assert (H7 : peek s (uintptr (0x403000 - FRAME_SIZE)) =
            Some {| node_next := 0x404000; node_prev := 0x400000;
                    node_state := HEAP_NODE_ALLOCATED;
                    node_start := 0x403000; node_end := 0x404000 |})
    by by_eval.
  assert (H8 : not_free_at s 0x404000).
  { right. eexists. split; [by_eval|discriminate]. }
  assert (H9 : not_free_at s 0x400000).
  { right. eexists. split; [by_eval|discriminate]. }
  assert (H10 : 0x404000 ≠ uintptr (0x403000 - FRAME_SIZE)) by by_arith.
  assert (H11 : 0x400000 ≠ uintptr (0x403000 - FRAME_SIZE)) by by_arith.
  assert (H12 : ¬ (0x403000 ≤ uintptr (0x403000 - FRAME_SIZE) < 0x404000)).
  { vm_compute. intros [Hle _]. apply Hle. reflexivity. }
  assert (H13 : ¬ (0x403000 ≤ 0x404000 < 0x404000)) by lia.
  assert (H14 : ¬ (0x403000 ≤ 0x400000 < 0x404000)) by lia.
  destruct (Hgen H1 H2 H3 H4 H5 H6 H7 eq_refl H10 H11 H8 H9 H12 H13 H14) as
    (s' & Hret & Hnodes & Hfreed & Hframes & Hpages & _).
  exists s'. split; [exact Hret|]. split; [exact Hnodes|].
  split; [exact Hfreed|]. split; [exact Hframes|].
  apply (Hpages 0%nat). simpl. lia.
Defined.

(** X17 on [heap_16_gap]: one page is reserved in the free node at
    0x402000, between two allocated nodes, which splits it at 0x404000;
    the page is freed again. *)
Lemma reserve_free_round_trip_witness :
  let s := heap_16_gap [0x1a000] in
  ∃ s1 s2,
    heap_reserve 3 0x1000 s = Done 0x403000 s1 ∧
    heap_free 3 0x403000 s1 = Done tt s2 ∧
    (∀ a, peek s2 a = peek s a) ∧
    pages s2 = pages s ∧
    frames s2 = [] ∧ freed s2 = freed s ++ [0x1a000] ∧
    heap_root s2 = heap_root s.
Proof.
  intros s.
  pose proof (reserve_free_round_trip s 0x1000 1 0x402000
                {| node_next := 0x407000; node_prev := 0x400000;
                   node_state := HEAP_NODE_FREE;
                   node_start := 0x403000; node_end := 0x407000 |}
                3 3 0x1a000 []) as Hgen.
  cbv zeta in Hgen.
  assert (H1 : 0 < FRAME_SIZE) by by_arith.
  assert (H2 : walks_to s (PAGE_ALIGN 0x1000) 1 (heap_root s) 0x402000 = true)
    by by_eval.
  assert (H3 : 0x402000 + FRAME_SIZE < 2 ^ 64) by by_arith.
  assert (H4 : peek s 0x402000 =
            Some {| node_next := 0x407000; node_prev := 0x400000;
                    node_state := HEAP_NODE_FREE;
                    node_start := 0x403000; node_end := 0x407000 |})
    by by_eval.
  assert (H5 : PAGE_ALIGN 0x1000 ≤ uintptr (0x407000 - 0x403000))
    by by_arith.
  assert (H6 : FRAME_SIZE * 2 ≤
            uintptr (uintptr (0x407000 - 0x403000) - PAGE_ALIGN 0x1000))
    by by_arith.
  assert (H7 : frames s = [0x1a000]) by by_eval.
  assert (H8 : uintptr (0x402000 + PAGE_ALIGN 0x1000 + FRAME_SIZE)
                 ∉ vmm_refused s).
  { replace (vmm_refused s) with (@nil Z) by by_eval. apply not_elem_of_nil. }
  assert (H9 : pages s !! uintptr (0x402000 + PAGE_ALIGN 0x1000 + FRAME_SIZE)
                 = None) by by_eval.
  assert (H10 : uintptr (0x402000 + PAGE_ALIGN 0x1000 + FRAME_SIZE) ≠ 0)
    by by_arith.
  assert (H11 : uintptr (0x402000 + PAGE_ALIGN 0x1000 + FRAME_SIZE)
                  ≠ 0x402000) by by_arith.
  assert (H12 : 0x407000 ≠ 0x402000 ∧
            0x407000 ≠ uintptr (0x402000 + PAGE_ALIGN 0x1000 + FRAME_SIZE) ∧
            ∃ nx, peek s 0x407000 = Some nx ∧ node_prev nx = 0x402000).
  { split; [lia|]. split; [by_arith|]. eexists. split; by_eval. }
  assert (H13 : 0x400000 ≠ 0x402000 ∧
            0x400000 ≠ uintptr (0x402000 + PAGE_ALIGN 0x1000 + FRAME_SIZE) ∧
            0x400000 ≠ 0x407000 ∧
            ∃ p, peek s 0x400000 = Some p ∧
                 node_state p ≠ HEAP_NODE_FREE).
  { split; [lia|]. split; [by_arith|]. split; [lia|].
    eexists. split; by_eval. }
  destruct (Hgen H1 H2 ltac:(lia) H3 H4 eq_refl H5 H6 ltac:(lia) H7
              ltac:(lia) H8 H9 H10 H11 (or_intror H12) (or_intror H13))
    as (s1 & s2 & Hret & Hfree & Hrest).
  exists s1, s2. split; [exact Hret|]. split; [exact Hfree|exact Hrest].
Defined.


(** X19 on [heap_16_gap]: two pages are allocated in the free node at
    0x402000, between two allocated nodes, which splits it at 0x405000;
    the pages are freed again. *)
Lemma alloc_free_round_trip_witness :
  let s := heap_16_gap [0x1a000; 0x1b000; 0x1c000] in
  ∃ s1 s2,
    heap_alloc 4 0x2000 0x1 s = Done 0x403000 s1 ∧
    (∃ fl, pages s1 !! 0x403000 = Some (0x1b000, fl)) ∧
    (∃ fl, pages s1 !! 0x404000 = Some (0x1c000, fl)) ∧
    heap_free 4 0x403000 s1 = Done tt s2 ∧
    (∀ a, peek s2 a = peek s a) ∧
    pages s2 = pages s ∧
    frames s2 = [] ∧
    freed s2 = freed s ++ [0x1b000; 0x1c000] ++ [0x1a000] ∧
    heap_root s2 = heap_root s.
Proof.
  intros s.
  pose proof (alloc_free_round_trip s 0x2000 0x1 1 0x402000
                {| node_next := 0x407000; node_prev := 0x400000;
                   node_state := HEAP_NODE_FREE;
                   node_start := 0x403000; node_end := 0x407000 |}
                4 0x1a000 [0x1b000; 0x1c000] []) as Hgen.
  cbv zeta in Hgen.
  assert (H1 : 0 < FRAME_SIZE) by by_arith.
  assert (H2 : walks_to s (PAGE_ALIGN 0x2000) 1 (heap_root s) 0x402000 = true)
    by by_eval.
  assert (H3 : peek s 0x402000 =
            Some {| node_next := 0x407000; node_prev := 0x400000;
                    node_state := HEAP_NODE_FREE;
                    node_start := 0x403000; node_end := 0x407000 |})
    by by_eval.
  assert (H4 : 0x403000 = 0x402000 + FRAME_SIZE) by by_eval.
  assert (H5 : 0x407000 + FRAME_SIZE ≤ 2 ^ 64) by by_arith.
  assert (H6 : PAGE_ALIGN 0x2000 =
            Z.of_nat (length [0x1b000%Z; 0x1c000%Z]) * FRAME_SIZE)
    by by_eval.
  assert (H7 : PAGE_ALIGN 0x2000 + FRAME_SIZE * 2 ≤ 0x407000 - 0x403000)
    by by_arith.
  assert (H8 : (length [0x1b000%Z; 0x1c000%Z] < 4)%nat) by (simpl; lia).
  assert (H9 : frames s = 0x1a000 :: [0x1b000; 0x1c000] ++ []) by by_eval.
  assert (H10 : 0 ∉ [0x1b000; 0x1c000]).
  { intros Hin. repeat (apply elem_of_cons in Hin as [Hin|Hin];
      [discriminate Hin|]). by apply elem_of_nil in Hin. }
  assert (Hnew : 0x402000 + PAGE_ALIGN 0x2000 + FRAME_SIZE = 0x405000)
    by by_eval.
  assert (H11 : ∀ a,
            0x403000 ≤ a ≤ 0x402000 + PAGE_ALIGN 0x2000 + FRAME_SIZE →
            pages s !! a = None ∧ a ∉ vmm_refused s).
  { intros a Ha. rewrite Hnew in Ha. split.
    - replace (pages s) with
        (<[0x400000 := (0x10000, Z.lor PG_WRITABLE PG_NO_EXEC)]>
           (<[0x401000 := (0x12000, Z.lor PG_WRITABLE PG_NO_EXEC)]>
              (<[0x402000 := (0x11000, Z.lor PG_WRITABLE PG_NO_EXEC)]>
                 (<[0x407000 := (0x13000, Z.lor PG_WRITABLE PG_NO_EXEC)]>
                    (<[0x408000 := (0x19000, Z.lor PG_WRITABLE PG_NO_EXEC)]>
                       (<[0x409000 := (0x18000,
                                       Z.lor PG_WRITABLE PG_NO_EXEC)]>
                          (∅ : gmap Z (Z * Z)))))))) by by_eval.
      rewrite !lookup_insert_ne by lia. apply lookup_empty.
    - replace (vmm_refused s) with (@nil Z) by by_eval.
      apply not_elem_of_nil. }
  assert (H12 : 0x402000 + PAGE_ALIGN 0x2000 + FRAME_SIZE < 0x407000 ∧
            ∃ nx, peek s 0x407000 = Some nx ∧ node_prev nx = 0x402000).
  { split; [by_arith|]. eexists. split; by_eval. }
  assert (H13 : 0x400000 < 0x402000 ∧
            ∃ p, peek s 0x400000 = Some p ∧
                 node_state p ≠ HEAP_NODE_FREE).
  { split; [lia|]. eexists. split; by_eval. }
  destruct (Hgen H1 H2 ltac:(lia) H3 eq_refl H4 ltac:(simpl; lia) H5 H6 H7
              ltac:(lia) H8 H9 ltac:(lia) H10 H11 (or_intror H12)
              (or_intror H13))
    as (s1 & s2 & Hret & Hbacked & Hfree & Hrest).
  exists s1, s2. split; [exact Hret|].
  split; [exact (Hbacked 0%nat 0x1b000 eq_refl)|].
  split; [exact (Hbacked 1%nat 0x1c000 eq_refl)|].
  split; [exact Hfree|exact Hrest].
Defined.

End pc.
